(** * Album record store: a shallow embedding of the workflow scripts

    The Python scripts under [source/] keep a line-oriented JSON store of
    photo albums ([photoAlbums.json]) and offer ingest, search, tag, edit and
    delete operations over it.  This file embeds the parts of those scripts
    that decide the store's behaviour and proves properties about them.

    Layout: Part I holds the model (one module per script, preceded by the
    Python built-ins the scripts rely on); Part II holds the lemmas and the
    theorems.

    Conventions of the model.
    - A Python [str] is a [string]; each [ascii] stands for one code point
      below 256, so the character classes below ([isspace], [isdigit], ...)
      are Python's restricted to that range.
    - A JSON value met where the scripts accept any value ([itemCount]) is a
      [pyval]; the other fields of a record carry the JSON types the scripts
      themselves write (strings, list of strings), and [None] encodes a
      missing key.
    - An exception that a script does not catch locally is a [Raise]
      result; the scripts' [main] turns it into an error exit without
      touching the store.
    - The wall clock, the random UUID source, and the two points on which
      Python installations differ and the scripts depend -- the limit of
      [int] on the digits of a numeral, and the way the C library's
      [strftime] prints a year below 1000 -- are explicit inputs ([env]).
    - [json.loads] is subject to the same limit as [int]: a line holding a
      longer integer is a line that it rejects, so no record read from the
      file holds one. *)

From Stdlib Require Import ZArith NArith List String Ascii Bool Lia.
From Stdlib Require Import Permutation Sorted DecimalString.
Import ListNotations.

Set Implicit Arguments.
Unset Strict Implicit.
Set Warnings "-register-all".

Local Open Scope string_scope.
Local Open Scope Z_scope.
Local Open Scope list_scope.

(* ################################################################## *)
(** * Part I: the model *)
(* ################################################################## *)

(** ** Python strings *)

Module PyStr.

Definition code (c : ascii) : N := N_of_ascii c.

(** [str.isspace] on one character; also the class [\s] of [re]. *)
Definition isspace (c : ascii) : bool :=
  let n := code c in
  ((9 <=? n) && (n <=? 13) || (28 <=? n) && (n <=? 32)
   || (n =? 133) || (n =? 160))%N.

(** The class [\d] of [re], and what [int] accepts as a digit. *)
Definition isdecimal (c : ascii) : bool :=
  let n := code c in ((48 <=? n) && (n <=? 57))%N.

(** [str.isdigit] on one character: decimal digits and the superscript
    digits of Latin-1. *)
Definition isdigit_char (c : ascii) : bool :=
  let n := code c in
  (isdecimal c || (n =? 178) || (n =? 179) || (n =? 185))%N.

Definition digit_val (c : ascii) : Z := Z.of_N (code c) - 48.

Definition chars (s : string) : list ascii := list_ascii_of_string s.
Definition str (l : list ascii) : string := string_of_list_ascii l.

Fixpoint drop_while (p : ascii -> bool) (l : list ascii) : list ascii :=
  match l with
  | [] => []
  | c :: r => if p c then drop_while p r else l
  end.

Fixpoint take_while (p : ascii -> bool) (l : list ascii) : list ascii :=
  match l with
  | [] => []
  | c :: r => if p c then c :: take_while p r else []
  end.

(** [s.strip()] *)
Definition strip_chars (l : list ascii) : list ascii :=
  rev (drop_while isspace (rev (drop_while isspace l))).

Definition strip (s : string) : string := str (strip_chars (chars s)).

(** Truthiness of a string: [if s:] *)
Definition truthy (s : string) : bool :=
  match s with EmptyString => false | _ => true end.

(** [s.isdigit()]: non-empty and every character a digit. *)
Definition isdigit (s : string) : bool :=
  truthy s && forallb isdigit_char (chars s).

Definition all_decimal (l : list ascii) : bool := forallb isdecimal l.

Fixpoint decimal_value (acc : Z) (l : list ascii) : Z :=
  match l with
  | [] => acc
  | c :: r => decimal_value (10 * acc + digit_val c) r
  end.

Fixpoint is_prefix (p l : list ascii) : bool :=
  match p, l with
  | [], _ => true
  | _ :: _, [] => false
  | a :: p', b :: l' => Ascii.eqb a b && is_prefix p' l'
  end.

(** [sub in s] for a character list. *)
Fixpoint contains (sub l : list ascii) : bool :=
  is_prefix sub l ||
  match l with
  | [] => false
  | _ :: r => contains sub r
  end.

Definition str_in (sub s : string) : bool := contains (chars sub) (chars s).

(** [s.endswith(suffix)] *)
Definition endswith (s suffix : string) : bool :=
  is_prefix (rev (chars suffix)) (rev (chars s)).

(** [s.split(sep)] for a non-empty separator: cut at every occurrence
    found scanning from the left, occurrences never overlapping.  [cur]
    holds the current piece reversed and [fuel] bounds the scan by the
    length of the input. *)
Fixpoint split_go (sep : list ascii) (fuel : nat) (cur l : list ascii)
  : list (list ascii) :=
  match fuel with
  | O => [rev cur ++ l]
  | S fuel' =>
      match l with
      | [] => [rev cur]
      | c :: r =>
          if is_prefix sep l
          then rev cur :: split_go sep fuel' [] (skipn (List.length sep) l)
          else split_go sep fuel' (c :: cur) r
      end
  end.

Definition split (s sep : string) : list string :=
  let l := chars s in
  map str (split_go (chars sep) (S (List.length l)) [] l).

(** [s.split()]: the maximal runs of non-space characters. *)
Fixpoint split_ws_go (cur l : list ascii) : list (list ascii) :=
  match l with
  | [] => match cur with [] => [] | _ => [rev cur] end
  | c :: r =>
      if isspace c
      then match cur with
           | [] => split_ws_go [] r
           | _ => rev cur :: split_ws_go [] r
           end
      else split_ws_go (c :: cur) r
  end.

Definition split_ws (s : string) : list string :=
  map str (split_ws_go [] (chars s)).

(** [s.lower()] on one character: ASCII and Latin-1 capitals. *)
Definition lower_char (c : ascii) : ascii :=
  let n := code c in
  if ((65 <=? n) && (n <=? 90)
      || (192 <=? n) && (n <=? 222) && negb (n =? 215))%N
  then ascii_of_N (n + 32) else c.

Definition lower (s : string) : string := str (map lower_char (chars s)).

(** [a > b] on strings: code point order, a proper prefix being smaller. *)
Fixpoint gt_chars (a b : list ascii) : bool :=
  match a, b with
  | [], _ => false
  | _ :: _, [] => true
  | x :: a', y :: b' =>
      if (code y <? code x)%N then true
      else if (code x <? code y)%N then false
      else gt_chars a' b'
  end.

Definition gt (a b : string) : bool := gt_chars (chars a) (chars b).

(** [' '.join(l)] and friends. *)
Fixpoint join (sep : string) (l : list string) : string :=
  match l with
  | [] => ""
  | [x] => x
  | x :: r => (x ++ sep ++ join sep r)%string
  end.

(** [str(n)] for a non-negative integer. *)
Definition of_Z (n : Z) : string := NilZero.string_of_int (Z.to_int n).

End PyStr.

(** ** The interpreter and the platform of one run *)

(** [current_year] is [datetime.now().year] and [uuid4] the stream of
    [uuid.uuid4()].  [int_max_str_digits] is [sys.get_int_max_str_digits()]:
    4300 by default since CPython 3.11 (and the security releases of the
    older branches), 0 where the limit is switched off or does not exist.
    [strftime_pads_year] tells whether [strftime("%Y")] zero-pads the year
    to four digits, as the C library of macOS does and glibc does not. *)
Record env : Type := mkEnv {
  current_year : Z;
  uuid4 : nat -> N;
  int_max_str_digits : N;
  strftime_pads_year : bool
}.

(** ** Python values *)

(** Uncaught exceptions that reach a script's [main]. *)
Inductive pyerror : Type :=
| OverflowError
| TypeError.

Inductive result (A : Type) : Type :=
| Ok (a : A)
| Raise (e : pyerror).
Arguments Ok {A} a.
Arguments Raise {A} e.

Definition bind {A B : Type} (m : result A) (k : A -> result B) : result B :=
  match m with
  | Ok a => k a
  | Raise e => Raise e
  end.

Notation "x <- m ;; k" := (bind m (fun x => k))
  (at level 61, m at next level, right associativity).

(** A Python [float]: not-a-number, an infinity, or the finite value
    [(-1)^negative * mantissa * 2^exponent]. *)
Inductive pyfloat : Type :=
| FNaN
| FInf (negative : bool)
| FFinite (negative : bool) (mantissa : N) (exponent : Z).

(** What [json.loads] can put under a key.  Arrays and objects keep their
    members; an object is the list of its (distinct) keys with values. *)
Inductive pyval : Type :=
| PNone
| PBool (b : bool)
| PInt (n : Z)
| PFloat (f : pyfloat)
| PStr (s : string)
| PList (items : list pyval)
| PDict (fields : list (string * pyval)).

Module PyVal.

(** Outcome of the built-in [int(v)]. *)
Inductive int_result : Type :=
| IntOk (n : Z)
| IntValueError
| IntTypeError
| IntOverflowError.

(** Digits of [int(str)] after the sign: decimal digits, with single
    underscores allowed between two digits. *)
Fixpoint int_digits (acc : Z) (after_digit : bool) (l : list ascii)
  : option Z :=
  match l with
  | [] => if after_digit then Some acc else None
  | c :: r =>
      if PyStr.isdecimal c
      then int_digits (10 * acc + PyStr.digit_val c) true r
      else if Ascii.eqb c "_"%char
           then if after_digit then int_digits acc false r else None
           else None
  end.

(** The whitespace that [int] skips around a numeral: the class of C's
    [isspace] (tab to carriage return, and the blank) and the two other
    spaces below U+0100 (U+0085, U+00A0).  The separators U+001C to
    U+001F, which [str.strip] removes, are not skipped: [int] raises
    [ValueError] on them. *)
Definition int_space (c : ascii) : bool :=
  let n := PyStr.code c in
  ((9 <=? n) && (n <=? 13) || (n =? 32) || (n =? 133) || (n =? 160))%N.

Definition int_strip (l : list ascii) : list ascii :=
  rev (PyStr.drop_while int_space (rev (PyStr.drop_while int_space l))).

(** The limit on the length of a numeral: one of more than 640 digits is
    refused when a limit is set and the numeral has more digits than it.
    Signs, underscores and the surrounding whitespace do not count. *)
Definition over_limit (E : env) (l : list ascii) : bool :=
  let n := N.of_nat (List.length (filter PyStr.isdecimal l)) in
  ((640 <? n) && (0 <? int_max_str_digits E)
   && (int_max_str_digits E <? n))%N.

(** [int(s)] for a string: surrounding whitespace is ignored, one sign is
    allowed; [None] is [ValueError]. *)
Definition int_of_str (E : env) (s : string) : option Z :=
  match int_strip (PyStr.chars s) with
  | c :: r =>
      if over_limit E (c :: r) then None
      else if Ascii.eqb c "+"%char then int_digits 0 false r
      else if Ascii.eqb c "-"%char
           then option_map Z.opp (int_digits 0 false r)
           else int_digits 0 false (c :: r)
  | [] => None
  end.

(** [int(f)] for a float: truncation towards zero. *)
Definition int_of_float (f : pyfloat) : int_result :=
  match f with
  | FNaN => IntValueError
  | FInf _ => IntOverflowError
  | FFinite neg m e =>
      let mag := if 0 <=? e then Z.of_N m * 2 ^ e
                 else Z.of_N m / 2 ^ (- e) in
      IntOk (if neg then - mag else mag)
  end.

Definition py_int (E : env) (v : pyval) : int_result :=
  match v with
  | PNone => IntTypeError
  | PBool b => IntOk (if b then 1 else 0)
  | PInt n => IntOk n
  | PFloat f => int_of_float f
  | PStr s => match int_of_str E s with
              | Some n => IntOk n
              | None => IntValueError
              end
  | PList _ => IntTypeError
  | PDict _ => IntTypeError
  end.

(** Numbers as Python compares them across [bool], [int] and [float]. *)
Inductive number : Type :=
| NumNaN
| NumInf (negative : bool)
| NumFin (m : Z) (e : Z).    (* m * 2^e *)

Definition as_number (v : pyval) : option number :=
  match v with
  | PBool b => Some (NumFin (if b then 1 else 0) 0)
  | PInt n => Some (NumFin n 0)
  | PFloat FNaN => Some NumNaN
  | PFloat (FInf s) => Some (NumInf s)
  | PFloat (FFinite s m e) =>
      Some (NumFin (if s then - Z.of_N m else Z.of_N m) e)
  | _ => None
  end.

Definition num_eq (x y : number) : bool :=
  match x, y with
  | NumInf a, NumInf b => Bool.eqb a b
  | NumFin m1 e1, NumFin m2 e2 =>
      let k := Z.min e1 e2 in
      m1 * 2 ^ (e1 - k) =? m2 * 2 ^ (e2 - k)
  | _, _ => false
  end.

Fixpoint lookup_field (k : string) (d : list (string * pyval))
  : option pyval :=
  match d with
  | [] => None
  | (k', v) :: r => if String.eqb k k' then Some v else lookup_field k r
  end.

(** [a == b] *)
Fixpoint py_eq (a b : pyval) {struct a} : bool :=
  match a, b with
  | PNone, PNone => true
  | PStr s, PStr t => String.eqb s t
  | PList l1, PList l2 =>
      (fix all2 (l1 l2 : list pyval) {struct l1} : bool :=
         match l1, l2 with
         | [], [] => true
         | x :: r1, y :: r2 => py_eq x y && all2 r1 r2
         | _, _ => false
         end) l1 l2
  | PDict d1, PDict d2 =>
      Nat.eqb (List.length d1) (List.length d2) &&
      (fix sub (d : list (string * pyval)) {struct d} : bool :=
         match d with
         | [] => true
         | (k, v) :: r =>
             match lookup_field k d2 with
             | Some w => py_eq v w && sub r
             | None => false
             end
         end) d1
  | _, _ =>
      match as_number a, as_number b with
      | Some x, Some y => num_eq x y
      | _, _ => false
      end
  end.

Definition py_ne (a b : pyval) : bool := negb (py_eq a b).

Definition is_none (v : pyval) : bool :=
  match v with PNone => true | _ => false end.

End PyVal.

(** ** [datetime.strptime] and [strftime] for the two formats the scripts use *)

Module PyDate.

Definition ch (n : N) : ascii := ascii_of_N n.

(** The alternation [(?P<b>jan|feb|...|dec)] of [%b], matched under
    [re.IGNORECASE] (abbreviations of the C locale). *)
Definition month_of_abbr (a b c : ascii) : option Z :=
  let s := PyStr.str [PyStr.lower_char a; PyStr.lower_char b;
                      PyStr.lower_char c] in
  if String.eqb s "jan" then Some 1
  else if String.eqb s "feb" then Some 2
  else if String.eqb s "mar" then Some 3
  else if String.eqb s "apr" then Some 4
  else if String.eqb s "may" then Some 5
  else if String.eqb s "jun" then Some 6
  else if String.eqb s "jul" then Some 7
  else if String.eqb s "aug" then Some 8
  else if String.eqb s "sep" then Some 9
  else if String.eqb s "oct" then Some 10
  else if String.eqb s "nov" then Some 11
  else if String.eqb s "dec" then Some 12
  else None.

Definition is_leap (y : Z) : bool :=
  (y mod 4 =? 0) && (negb (y mod 100 =? 0) || (y mod 400 =? 0)).

Definition days_in_month (y m : Z) : Z :=
  if m =? 2 then (if is_leap y then 29 else 28)
  else if (m =? 4) || (m =? 6) || (m =? 9) || (m =? 11) then 30
  else 31.

(** What the [datetime] constructor accepts. *)
Definition valid_date (y m d : Z) : bool :=
  (1 <=? y) && (y <=? 9999) && (1 <=? m) && (m <=? 12)
  && (1 <=? d) && (d <=? days_in_month y m).

Definition two_digits (c1 c2 : ascii) : Z :=
  10 * PyStr.digit_val c1 + PyStr.digit_val c2.

Definition nonzero_digit (c : ascii) : bool :=
  PyStr.isdecimal c && negb (Ascii.eqb c "0"%char).

(** The two-character alternatives [3[0-1]|[1-2]\d|0[1-9]] of [%d]. *)
Definition day2 (c1 c2 : ascii) : bool :=
  (Ascii.eqb c1 "3"%char
     && (Ascii.eqb c2 "0"%char || Ascii.eqb c2 "1"%char))
  || ((Ascii.eqb c1 "1"%char || Ascii.eqb c1 "2"%char)
        && PyStr.isdecimal c2)
  || (Ascii.eqb c1 "0"%char && nonzero_digit c2).

(** The two-character alternatives [1[0-2]|0[1-9]] of [%m]. *)
Definition month2 (c1 c2 : ascii) : bool :=
  (Ascii.eqb c1 "1"%char
     && (Ascii.eqb c2 "0"%char || Ascii.eqb c2 "1"%char
         || Ascii.eqb c2 "2"%char))
  || (Ascii.eqb c1 "0"%char && nonzero_digit c2).

Definition year4 (l : list ascii) : option Z :=
  match l with
  | [a; b; c; d] =>
      if PyStr.all_decimal l then Some (PyStr.decimal_value 0 l) else None
  | _ => None
  end.

Definition checked (y m d : Z) : option (Z * Z * Z) :=
  if valid_date y m d then Some (y, m, d) else None.

(** [datetime.strptime(s, "%b %d, %Y")]: the regular expression
    [(?P<b>...)\s+(?P<d>...),\s+(?P<Y>\d\d\d\d)] must match the whole of
    [s], and the fields must form a date.  [None] is [ValueError]. *)
Definition strptime_bdY (s : string) : option (Z * Z * Z) :=
  match PyStr.chars s with
  | a :: b :: c :: r =>
      match month_of_abbr a b c with
      | None => None
      | Some m =>
          match PyStr.take_while PyStr.isspace r with
          | [] => None
          | _ :: _ =>
              let day_and_rest :=
                match PyStr.drop_while PyStr.isspace r with
                | c1 :: c2 :: c3 :: r2 =>
                    if day2 c1 c2 && Ascii.eqb c3 ","%char
                    then Some (two_digits c1 c2, r2)
                    else if nonzero_digit c1 && Ascii.eqb c2 ","%char
                         then Some (PyStr.digit_val c1, c3 :: r2)
                         else None
                | [c1; c2] =>
                    if nonzero_digit c1 && Ascii.eqb c2 ","%char
                    then Some (PyStr.digit_val c1, [])
                    else None
                | _ => None
                end in
              match day_and_rest with
              | None => None
              | Some (d, r2) =>
                  match PyStr.take_while PyStr.isspace r2 with
                  | [] => None
                  | _ :: _ =>
                      match year4 (PyStr.drop_while PyStr.isspace r2) with
                      | Some y => checked y m d
                      | None => None
                      end
                  end
              end
          end
      end
  | _ => None
  end.

(** The day directive at the very end of a format: the first alternative
    of [3[0-1]|[1-2]\d|0[1-9]|[1-9]| [1-9]] that matches decides, and
    nothing may remain after it. *)
Definition final_day (l : list ascii) : option Z :=
  match l with
  | [c1; c2] =>
      if day2 c1 c2 then Some (two_digits c1 c2)
      else if Ascii.eqb c1 " "%char && nonzero_digit c2
           then Some (PyStr.digit_val c2)
           else None
  | [c1] => if nonzero_digit c1 then Some (PyStr.digit_val c1) else None
  | _ => None
  end.

(** [datetime.strptime(s, "%Y-%m-%d")], i.e. the regular expression
    [(?P<Y>\d\d\d\d)-(?P<m>1[0-2]|0[1-9]|[1-9])-(?P<d>...)].  As the
    documentation of [strptime] says, the leading zero of [%m] and [%d] is
    optional: ["2025-1-5"] parses to 5 January 2025. *)
Definition strptime_Ymd (s : string) : option (Z * Z * Z) :=
  match PyStr.chars s with
  | y1 :: y2 :: y3 :: y4 :: dash :: r =>
      match year4 [y1; y2; y3; y4] with
      | None => None
      | Some y =>
          if negb (Ascii.eqb dash "-"%char) then None
          else
            let month_and_rest :=
              match r with
              | c1 :: c2 :: c3 :: r2 =>
                  if month2 c1 c2 && Ascii.eqb c3 "-"%char
                  then Some (two_digits c1 c2, r2)
                  else if nonzero_digit c1 && Ascii.eqb c2 "-"%char
                       then Some (PyStr.digit_val c1, c3 :: r2)
                       else None
              | _ => None
              end in
            match month_and_rest with
            | None => None
            | Some (m, r2) =>
                match final_day r2 with
                | Some d => checked y m d
                | None => None
                end
            end
      end
  | _ => None
  end.

Definition digit_char (n : Z) : ascii := ch (Z.to_N (48 + n mod 10)).

Definition pad2 (n : Z) : list ascii :=
  [digit_char (n / 10); digit_char n].

Definition pad4 (n : Z) : list ascii :=
  [digit_char (n / 1000); digit_char (n / 100);
   digit_char (n / 10); digit_char n].

(** [%Y] of [strftime] for a year of [datetime] (1 to 9999): four digits
    where the C library zero-pads the year, the numeral without leading
    zeros where it does not. *)
Definition strftime_Y (E : env) (y : Z) : list ascii :=
  if strftime_pads_year E || (1000 <=? y) then pad4 y
  else if 100 <=? y
       then [digit_char (y / 100); digit_char (y / 10); digit_char y]
       else if 10 <=? y then [digit_char (y / 10); digit_char y]
            else [digit_char y].

(** [dt.strftime("%Y-%m-%d")]; month and day are always two digits. *)
Definition strftime_Ymd (E : env) (ymd : Z * Z * Z) : string :=
  let '(y, m, d) := ymd in
  PyStr.str (strftime_Y E y ++ "-"%char :: pad2 m ++ "-"%char :: pad2 d).

(** [re.match(r'^\d{4}-\d{2}-\d{2}$', s)] on a stripped string: the
    shape of a canonical date. *)
Definition is_canonical (s : string) : bool :=
  match PyStr.chars s with
  | [y1; y2; y3; y4; d1; m1; m2; d2; a1; a2] =>
      PyStr.all_decimal [y1; y2; y3; y4; m1; m2; a1; a2]
      && Ascii.eqb d1 "-"%char && Ascii.eqb d2 "-"%char
  | _ => false
  end.

(** [re.match(r'\d{4}-\d{2}-\d{2}', s)], without anchors: the shape of a
    canonical date at the start of [s], whatever follows. *)
Definition starts_canonical (s : string) : bool :=
  match PyStr.chars s with
  | y1 :: y2 :: y3 :: y4 :: d1 :: m1 :: m2 :: d2 :: a1 :: a2 :: _ =>
      PyStr.all_decimal [y1; y2; y3; y4; m1; m2; a1; a2]
      && Ascii.eqb d1 "-"%char && Ascii.eqb d2 "-"%char
  | _ => false
  end.

(** The abbreviated month names of [%b] in the C locale. *)
Definition month_abbr (m : Z) : string :=
  match m with
  | 1 => "Jan" | 2 => "Feb" | 3 => "Mar" | 4 => "Apr"
  | 5 => "May" | 6 => "Jun" | 7 => "Jul" | 8 => "Aug"
  | 9 => "Sep" | 10 => "Oct" | 11 => "Nov" | _ => "Dec"
  end.

(** [dt.strftime("%b %d, %Y")]: the day zero-padded to two digits, the
    year as [%Y] prints it. *)
Definition strftime_bdY (E : env) (ymd : Z * Z * Z) : string :=
  let '(y, m, d) := ymd in
  PyStr.str (PyStr.chars (month_abbr m)
             ++ " "%char :: pad2 d ++ ","%char :: " "%char :: strftime_Y E y).

End PyDate.

(** ** The record store *)

Module Store.

(** One album object.  Keys the scripts test for presence are options;
    [itemCount] is read with [.get] only, so a missing key and [null]
    are both [PNone]; [url] is read with [.get("url", "")] or compared
    with a non-empty string, so a missing key is the empty string. *)
Record album : Type := mkAlbum {
  album_id : option string;
  url : string;
  title : option string;
  tags : option (list string);
  itemCount : pyval;
  dateRange : option string;
  startDate : option string;
  endDate : option string
}.

Definition set_id (a : album) (v : string) : album :=
  mkAlbum (Some v) (url a) (title a) (tags a) (itemCount a)
          (dateRange a) (startDate a) (endDate a).
Definition set_title (a : album) (v : string) : album :=
  mkAlbum (album_id a) (url a) (Some v) (tags a) (itemCount a)
          (dateRange a) (startDate a) (endDate a).
Definition set_tags (a : album) (v : list string) : album :=
  mkAlbum (album_id a) (url a) (title a) (Some v) (itemCount a)
          (dateRange a) (startDate a) (endDate a).
Definition set_itemCount (a : album) (v : pyval) : album :=
  mkAlbum (album_id a) (url a) (title a) (tags a) v
          (dateRange a) (startDate a) (endDate a).
Definition set_dateRange (a : album) (v : option string) : album :=
  mkAlbum (album_id a) (url a) (title a) (tags a) (itemCount a)
          v (startDate a) (endDate a).
Definition set_startDate (a : album) (v : option string) : album :=
  mkAlbum (album_id a) (url a) (title a) (tags a) (itemCount a)
          (dateRange a) v (endDate a).
Definition set_endDate (a : album) (v : option string) : album :=
  mkAlbum (album_id a) (url a) (title a) (tags a) (itemCount a)
          (dateRange a) (startDate a) v.

(** [album.get("url") == u], the test by which the scripts find an album,
    and its negation. *)
Definition has_url (u : string) (a : album) : bool := String.eqb (url a) u.
Definition other_url (u : string) (a : album) : bool := negb (has_url u a).

(** Truthiness of a value that is [None] or a string. *)
Definition truthy (o : option string) : bool :=
  match o with
  | Some s => PyStr.truthy s
  | None => false
  end.

(** One line of [photoAlbums.json] as the readers see it after
    [line.strip()]: empty, text that [json.loads] rejects, or an object.
    (Lines holding JSON that is not an object are never written by the
    scripts and are left out of the model.) *)
Inductive line : Type :=
| Blank
| Malformed
| Rec (a : album).

(** The database file ([None]: it does not exist) and the number of
    times it has been opened for writing. *)
Record disk : Type := mkDisk {
  db : option (list line);
  writes : nat
}.

(** The loop shared by every reader: [albums.append(json.loads(line))]
    for each non-empty line, until a line raises.  The flag tells whether
    the loop was left by an exception. *)
Fixpoint load (albums : list album) (ls : list line)
  : list album * bool :=
  match ls with
  | [] => (albums, false)
  | Blank :: r => load albums r
  | Malformed :: _ => (albums, true)
  | Rec a :: r => load (albums ++ [a]) r
  end.

(** [write_database(albums)]: one line per album, replacing the file.  (A
    write that fails, on which the scripts exit with an error, is not
    modelled.) *)
Definition write_database (albums : list album) (d : disk) : disk :=
  mkDisk (Some (map Rec albums)) (S (writes d)).

(** The loop of the edit scripts: apply [f] to the first album with the
    url and [break]; [None] when no album has it. *)
Fixpoint update_first (album_url : string) (f : album -> album)
         (albums : list album) : option (list album) :=
  match albums with
  | [] => None
  | a :: rest =>
      if has_url album_url a then Some (f a :: rest)
      else option_map (cons a) (update_first album_url f rest)
  end.

Definition hex_char (n : N) : ascii :=
  if (n <? 10)%N then ascii_of_N (48 + n) else ascii_of_N (87 + n).

Fixpoint hex_digits (n : nat) (x : N) (acc : list ascii) : list ascii :=
  match n with
  | O => acc
  | S n' => hex_digits n' (x / 16)%N (hex_char (x mod 16)%N :: acc)
  end.

(** [str(uuid)]: 32 hexadecimal digits grouped 8-4-4-4-12. *)
Definition uuid_str (x : N) : string :=
  let h := hex_digits 32 x [] in
  PyStr.str (firstn 8 h ++ "-"%char :: firstn 4 (skipn 8 h)
             ++ "-"%char :: firstn 4 (skipn 12 h)
             ++ "-"%char :: firstn 4 (skipn 16 h)
             ++ "-"%char :: skipn 20 h).

(** [generate_unique_id()]: the [rng]-th draw of the UUID source. *)
Definition generate_unique_id (E : env) (rng : nat) : string * nat :=
  (uuid_str (uuid4 E rng), S rng).

(** A Python [dict] keyed by url: insertion-ordered, one entry per key. *)
Definition albums_dict : Type := list (string * album).

Fixpoint dict_get (k : string) (d : albums_dict) : option album :=
  match d with
  | [] => None
  | (k', a) :: r => if String.eqb k k' then Some a else dict_get k r
  end.

(** [d[k] = a]: in place when the key exists, appended otherwise. *)
Fixpoint dict_set (k : string) (a : album) (d : albums_dict)
  : albums_dict :=
  match d with
  | [] => [(k, a)]
  | (k', a') :: r =>
      if String.eqb k k' then (k', a) :: r else (k', a') :: dict_set k a r
  end.

Definition dict_values (d : albums_dict) : list album := map snd d.

(** The [dateRange] that goes with a start and an end date: the start
    alone, or both joined by [--]. *)
Definition range_of (start_date end_date : option string) : option string :=
  match start_date, end_date with
  | Some s, Some e => Some (s ++ "--" ++ e)%string
  | Some s, None => Some s
  | None, _ => None
  end.

End Store.

(** ** [unified_add_albums.py]: ingest of scraped albums *)

Module Ingest.
Import Store.

(** What the script reads from one scraped album object:
    [.get("url", "")], [.get("title")], [.get("itemCount")],
    [.get("startDate")], [.get("endDate")]. *)
Record candidate : Type := mkCandidate {
  c_url : string;
  c_title : option string;
  c_itemCount : pyval;
  c_startDate : option string;
  c_endDate : option string
}.

(** [f"{x}"] for a value that is a string or [None]. *)
Definition fmt (o : option string) : string :=
  match o with
  | Some s => s
  | None => "None"
  end.

Definition opt_eqb (a b : option string) : bool :=
  match a, b with
  | Some s, Some t => String.eqb s t
  | None, None => true
  | _, _ => false
  end.

Definition convert_date_to_storage_format (E : env)
           (date_string : option string) : option string :=
  match date_string with
  | None => None
  | Some s =>
      if negb (PyStr.truthy s) then Some s
      else if PyDate.is_canonical (PyStr.strip s) then Some (PyStr.strip s)
      else
        let parsed :=
          if PyStr.str_in "," s
          then PyDate.strptime_bdY (PyStr.strip s)
          else PyDate.strptime_bdY
                 (PyStr.strip s ++ ", " ++ PyStr.of_Z (current_year E))%string in
        match parsed with
        | Some dt => Some (PyDate.strftime_Ymd E dt)
        | None => Some s
        end
  end.

Definition normalize_date_range (E : env)
           (start_date end_date : option string) : option string :=
  if negb (truthy start_date) then None
  else
    let start_normalized := convert_date_to_storage_format E start_date in
    if truthy end_date
    then
      let end_normalized := convert_date_to_storage_format E end_date in
      Some (fmt start_normalized ++ "--" ++ fmt end_normalized)%string
    else start_normalized.

(** The [try]/[except (ValueError, TypeError)] block that turns both
    counts into integers, entered when [new_item_count is not None];
    an [OverflowError] is not caught there. *)
Definition coerce_counts (E : env)
           (new_item_count existing_item_count : pyval)
  : result (pyval * pyval) :=
  match PyVal.py_int E new_item_count with
  | PyVal.IntOk n =>
      match existing_item_count with
      | PNone => Ok (PInt n, PNone)
      | _ =>
          match PyVal.py_int E existing_item_count with
          | PyVal.IntOk e => Ok (PInt n, PInt e)
          | PyVal.IntOverflowError => Raise OverflowError
          | _ => Ok (new_item_count, existing_item_count)
          end
      end
  | PyVal.IntOverflowError => Raise OverflowError
  | _ => Ok (new_item_count, existing_item_count)
  end.

(** The itemCount block, written twice in the script (in
    [process_single_album] and in [process_bulk_albums]): returns the
    album and whether it was changed. *)
Definition update_item_count (E : env) (existing_album : album)
           (new_item_count : pyval) : result (album * bool) :=
  let existing_item_count := itemCount existing_album in
  if PyVal.is_none new_item_count then Ok (existing_album, false)
  else
    p <- coerce_counts E new_item_count existing_item_count ;;
    let (new_count_int, existing_count_int) := p in
    if PyVal.is_none existing_count_int
       || PyVal.py_eq existing_count_int (PInt 0)
    then
      if PyVal.py_ne existing_count_int new_count_int
      then Ok (set_itemCount existing_album new_count_int, true)
      else Ok (existing_album, false)
    else Ok (existing_album, false).

(** The decision of that block on the two counts alone: the count the
    album holds afterwards, and whether it was overwritten. *)
Definition merged_count (E : env)
           (existing_item_count new_item_count : pyval)
  : result (pyval * bool) :=
  if PyVal.is_none new_item_count then Ok (existing_item_count, false)
  else
    p <- coerce_counts E new_item_count existing_item_count ;;
    let (new_count_int, existing_count_int) := p in
    if (PyVal.is_none existing_count_int
        || PyVal.py_eq existing_count_int (PInt 0))
       && PyVal.py_ne existing_count_int new_count_int
    then Ok (new_count_int, true)
    else Ok (existing_item_count, false).

(** *** The merge rule in the words of the specification

    "[itemCount] is overwritten only if the candidate supplies a new value
    AND the existing [itemCount] is absent or zero AND the new value
    differs numerically from the existing one (both sides coerced to
    integer for comparison; non-numeric coercion failure falls back to raw
    comparison)."  These definitions are written from that sentence and
    the built-in [int], not from the script: [as_integer] is the coercion
    of one side, an absent count staying absent, and [compared] gives the
    two sides as the rule looks at them. *)
Definition supplied (new_item_count : pyval) : Prop :=
  new_item_count <> PNone.

Definition as_integer (E : env) (count : pyval) : option pyval :=
  match count with
  | PNone => Some PNone
  | _ => match PyVal.py_int E count with
         | PyVal.IntOk n => Some (PInt n)
         | _ => None
         end
  end.

Definition compared (E : env) (new_item_count existing_item_count : pyval)
  : pyval * pyval :=
  match as_integer E new_item_count, as_integer E existing_item_count with
  | Some n, Some e => (n, e)
  | _, _ => (new_item_count, existing_item_count)
  end.

Definition absent_or_zero (E : env)
           (new_item_count existing_item_count : pyval) : Prop :=
  let e := snd (compared E new_item_count existing_item_count) in
  e = PNone \/ PyVal.py_eq e (PInt 0) = true.

Definition differs (E : env) (new_item_count existing_item_count : pyval)
  : Prop :=
  let (n, e) := compared E new_item_count existing_item_count in
  PyVal.py_eq e n = false.

(** An existing count that is present and not zero: not [None], not equal
    to 0, and not 0 once converted to an integer. *)
Definition present_nonzero (E : env) (existing_item_count : pyval) : bool :=
  negb (PyVal.is_none existing_item_count)
  && negb (PyVal.py_eq existing_item_count (PInt 0))
  && match PyVal.py_int E existing_item_count with
     | PyVal.IntOk n => negb (n =? 0)
     | _ => true
     end.

(** [album_id = existing_album.get('id')], regenerated when falsy. *)
Definition ensure_id (E : env) (existing_album : album) (rng : nat)
  : string * album * nat :=
  match album_id existing_album with
  | Some i =>
      if PyStr.truthy i then (i, existing_album, rng)
      else let (j, rng') := generate_unique_id E rng in
           (j, set_id existing_album j, rng')
  | None =>
      let (j, rng') := generate_unique_id E rng in
      (j, set_id existing_album j, rng')
  end.

(** (unchanged_id, updated_id, added_id) *)
Definition outcome : Type := option string * option string * option string.

Definition process_single_album (E : env) (album_data : candidate)
           (albums_dict : Store.albums_dict) (rng : nat)
  : result (outcome * Store.albums_dict * nat) :=
  let url := PyStr.strip (c_url album_data) in
  if negb (PyStr.truthy url) then Ok ((None, None, None), albums_dict, rng)
  else
    let title := match c_title album_data with
                 | Some t => t
                 | None => "Untitled Album"
                 end in
    let new_item_count := c_itemCount album_data in
    let raw_start_date := c_startDate album_data in
    let raw_end_date := c_endDate album_data in
    let start_date :=
      if truthy raw_start_date
      then convert_date_to_storage_format E raw_start_date else None in
    let end_date :=
      if truthy raw_end_date
      then convert_date_to_storage_format E raw_end_date else None in
    let date_range :=
      if truthy start_date
      then normalize_date_range E start_date end_date else None in
    match dict_get url albums_dict with
    | Some existing_album =>
        let '(album_id, existing_album, rng) :=
          ensure_id E existing_album rng in
        p <- update_item_count E existing_album new_item_count ;;
        let (existing_album, updated) := p in
        let '(existing_album, updated) :=
          if truthy date_range
          then
            let existing_start := startDate existing_album in
            let existing_end := endDate existing_album in
            let normalized_existing_range :=
              if truthy existing_start
              then
                let normalized_existing_start :=
                  convert_date_to_storage_format E existing_start in
                if truthy existing_end
                then
                  let normalized_existing_end :=
                    convert_date_to_storage_format E existing_end in
                  Some (fmt normalized_existing_start ++ "--"
                        ++ fmt normalized_existing_end)%string
                else normalized_existing_start
              else None in
            if negb (opt_eqb normalized_existing_range date_range)
            then (set_dateRange existing_album date_range, true)
            else (existing_album, updated)
          else (existing_album, updated) in
        let '(existing_album, updated) :=
          if truthy start_date
          then
            let existing_start_raw := startDate existing_album in
            let normalized_existing_start :=
              if truthy existing_start_raw
              then convert_date_to_storage_format E existing_start_raw
              else None in
            if negb (opt_eqb normalized_existing_start start_date)
            then (set_startDate existing_album start_date, true)
            else (existing_album, updated)
          else (existing_album, updated) in
        let '(existing_album, updated) :=
          if truthy end_date
          then
            let existing_end_raw := endDate existing_album in
            let normalized_existing_end :=
              if truthy existing_end_raw
              then convert_date_to_storage_format E existing_end_raw
              else None in
            if negb (opt_eqb normalized_existing_end end_date)
            then (set_endDate existing_album end_date, true)
            else (existing_album, updated)
          else (existing_album, updated) in
        let albums_dict := dict_set url existing_album albums_dict in
        if updated
        then Ok ((None, Some album_id, None), albums_dict, rng)
        else Ok ((Some album_id, None, None), albums_dict, rng)
    | None =>
        let (album_id, rng) := generate_unique_id E rng in
        let new_album :=
          mkAlbum (Some album_id) url (Some title) (Some [])
                  new_item_count
                  (if truthy date_range then date_range else None)
                  (if truthy start_date then start_date else None)
                  (if truthy end_date then end_date else None) in
        Ok ((None, None, Some album_id),
            dict_set url new_album albums_dict, rng)
    end.

(** The variables of [process_bulk_albums] while its loop runs. *)
Record bulk_state : Type := mkBulk {
  unchanged_ids : list string;
  updated_ids : list string;
  added_ids : list string;
  dict : Store.albums_dict;
  seed : nat
}.

(** One iteration of the loop of [process_bulk_albums]. *)
Definition bulk_body (E : env) (album_input : candidate) (st : bulk_state)
  : result bulk_state :=
  let url := PyStr.strip (c_url album_input) in
  if negb (PyStr.truthy url) then Ok st
  else
    let new_item_count := c_itemCount album_input in
    match dict_get url (dict st) with
    | Some existing_album =>
        let '(album_id, existing_album, rng) :=
          ensure_id E existing_album (seed st) in
        p <- update_item_count E existing_album new_item_count ;;
        let (existing_album, should_update) := p in
        let albums_dict := dict_set url existing_album (dict st) in
        if should_update
        then Ok (mkBulk (unchanged_ids st) (updated_ids st ++ [album_id])
                        (added_ids st) albums_dict rng)
        else Ok (mkBulk (unchanged_ids st ++ [album_id]) (updated_ids st)
                        (added_ids st) albums_dict rng)
    | None =>
        let (album_id, rng) := generate_unique_id E (seed st) in
        let new_album :=
          mkAlbum (Some album_id) url
                  (Some match c_title album_input with
                        | Some t => t
                        | None => "Untitled Album"
                        end)
                  (Some []) new_item_count None None None in
        Ok (mkBulk (unchanged_ids st) (updated_ids st)
                   (added_ids st ++ [album_id])
                   (dict_set url new_album (dict st)) rng)
    end.

Fixpoint bulk_loop (E : env) (albums_data : list candidate)
         (st : bulk_state) : result bulk_state :=
  match albums_data with
  | [] => Ok st
  | album_input :: rest =>
      st' <- bulk_body E album_input st ;;
      bulk_loop E rest st'
  end.

Definition process_bulk_albums (E : env) (albums_data : list candidate)
           (albums_dict : Store.albums_dict) (rng : nat) : result bulk_state :=
  bulk_loop E albums_data (mkBulk [] [] [] albums_dict rng).

(** The loop of [read_existing_albums]; [None] once a line has raised. *)
Fixpoint read_loop (E : env) (ls : list line) (albums_dict : Store.albums_dict)
         (rng : nat) : option Store.albums_dict * nat :=
  match ls with
  | [] => (Some albums_dict, rng)
  | Blank :: r => read_loop E r albums_dict rng
  | Malformed :: _ => (None, rng)
  | Rec album :: r =>
      if PyStr.truthy (url album)
      then
        let '(album, rng) :=
          match album_id album with
          | Some _ => (album, rng)
          | None => let (i, rng') := generate_unique_id E rng in
                    (set_id album i, rng')
          end in
        read_loop E r (dict_set (url album) album albums_dict) rng
      else read_loop E r albums_dict rng
  end.

Definition read_existing_albums (E : env) (d : disk) (rng : nat)
  : Store.albums_dict * nat :=
  match db d with
  | None => ([], rng)
  | Some ls =>
      match read_loop E ls [] rng with
      | (Some albums_dict, rng') => (albums_dict, rng')
      | (None, rng') => ([], rng')
      end
  end.

Definition write_albums_database (albums_dict : Store.albums_dict) (d : disk)
  : disk :=
  write_database (dict_values albums_dict) d.

(** The argument of the script once decoded. *)
Inductive input : Type :=
| InvalidJson
| ErrorObject
| Single (album_data : candidate)
| Bulk (albums : list candidate)
| Unrecognized.

Inductive output : Type :=
| ErrInvalidJson
| ErrScraper
| ErrInvalidFormat
| ErrProcessing (e : pyerror)
| NoAlbumsToProcess
| Report (unchanged_ids updated_ids added_ids : list string).

Definition opt_list (o : option string) : list string :=
  match o with
  | Some i => if PyStr.truthy i then [i] else []
  | None => []
  end.

Definition nonempty (l : list string) : bool :=
  match l with [] => false | _ => true end.

(** The tail of [main]: write when something was added or updated, then
    report. *)
Definition finish (unchanged_ids updated_ids added_ids : list string)
           (albums_dict : Store.albums_dict) (d : disk) : output * disk :=
  let d' := if nonempty updated_ids || nonempty added_ids
            then write_albums_database albums_dict d else d in
  (Report unchanged_ids updated_ids added_ids, d').

Definition main (E : env) (data : input) (d : disk) (rng : nat)
  : output * disk * nat :=
  match data with
  | InvalidJson => (ErrInvalidJson, d, rng)
  | ErrorObject => (ErrScraper, d, rng)
  | Single album_data =>
      let (albums_dict, rng) := read_existing_albums E d rng in
      match process_single_album E album_data albums_dict rng with
      | Ok (unchanged_id, updated_id, added_id, albums_dict, rng) =>
          let (out, d') :=
            finish (opt_list unchanged_id) (opt_list updated_id)
                   (opt_list added_id) albums_dict d in
          (out, d', rng)
      | Raise e => (ErrProcessing e, d, rng)
      end
  | Bulk albums_data =>
      let (albums_dict, rng) := read_existing_albums E d rng in
      match albums_data with
      | [] => (NoAlbumsToProcess, d, rng)
      | _ :: _ =>
          match process_bulk_albums E albums_data albums_dict rng with
          | Ok st =>
              let (out, d') :=
                finish (unchanged_ids st) (updated_ids st) (added_ids st)
                       (dict st) d in
              (out, d', seed st)
          | Raise e => (ErrProcessing e, d, rng)
          end
      end
  | Unrecognized =>
      let (_, rng) := read_existing_albums E d rng in
      (ErrInvalidFormat, d, rng)
  end.

(** The dictionary that [main] holds once the candidates are processed. *)
Definition ingested (E : env) (data : input)
           (albums_dict : Store.albums_dict) (rng : nat)
  : result Store.albums_dict :=
  match data with
  | Single album_data =>
      r <- process_single_album E album_data albums_dict rng ;;
      Ok (snd (fst r))
  | Bulk albums_data =>
      st <- process_bulk_albums E albums_data albums_dict rng ;;
      Ok (dict st)
  | _ => Ok albums_dict
  end.

(** The merge rule for the count of the album [existing] that a candidate
    meets under its url, [after] being the dictionary once the candidate
    is processed: the count changes only under the three conditions, and
    is then the new count as compared; under the three conditions the
    count of a candidate that is not skipped is stored; and a count that
    is present and not zero stays. *)
Definition overwrite_rule (E : env) (c : candidate) (existing : album)
           (after : Store.albums_dict) : Prop :=
  exists existing',
    dict_get (PyStr.strip (c_url c)) after = Some existing'
    /\ (itemCount existing' <> itemCount existing ->
        supplied (c_itemCount c)
        /\ absent_or_zero E (c_itemCount c) (itemCount existing)
        /\ differs E (c_itemCount c) (itemCount existing)
        /\ itemCount existing'
           = fst (compared E (c_itemCount c) (itemCount existing)))
    /\ (PyStr.truthy (PyStr.strip (c_url c)) = true ->
        supplied (c_itemCount c) ->
        absent_or_zero E (c_itemCount c) (itemCount existing) ->
        differs E (c_itemCount c) (itemCount existing) ->
        itemCount existing'
        = fst (compared E (c_itemCount c) (itemCount existing)))
    /\ (present_nonzero E (itemCount existing) = true ->
        itemCount existing' = itemCount existing).

(** Every album found under a url in [d] has a counterpart under that url
    in [d'], related to it by [P]. *)
Definition kept (P : album -> album -> Prop) (d d' : Store.albums_dict)
  : Prop :=
  forall u a, dict_get u d = Some a ->
              exists a', dict_get u d' = Some a' /\ P a a'.

(** *** Notions used to state and prove idempotence *)

(** The count held under a url, and dictionaries that agree on them. *)
Definition counts_at (u : string) (d : Store.albums_dict) : option pyval :=
  option_map itemCount (dict_get u d).

Definition same_counts (d d' : Store.albums_dict) : Prop :=
  forall u, counts_at u d = counts_at u d'.

(** Ingesting the count [new] again leaves the existing count [e]. *)
Definition settled (E : env) (new e : pyval) : Prop :=
  forall v b, merged_count E e new = Ok (v, b) -> b = false.

(** The candidate finds its album, with a count it would leave alone. *)
Definition stable (E : env) (c : candidate) (d : Store.albums_dict)
  : Prop :=
  PyStr.truthy (PyStr.strip (c_url c)) = false
  \/ exists e, counts_at (PyStr.strip (c_url c)) d = Some e
               /\ settled E (c_itemCount c) e.

(** How many albums the bulk loop has added or updated so far. *)
Definition touched (st : bulk_state) : nat :=
  (List.length (updated_ids st) + List.length (added_ids st))%nat.

(** A dictionary as the script builds it: one entry per key, each album
    filed under its own, non-empty url. *)
Definition well_keyed (d : Store.albums_dict) : Prop :=
  NoDup (map fst d)
  /\ forall k a, In (k, a) d -> url a = k /\ PyStr.truthy k = true.

Definition created_of (o : output) : list string :=
  match o with
  | Report _ _ added => added
  | _ => []
  end.

Definition updated_of (o : output) : list string :=
  match o with
  | Report _ updated _ => updated
  | _ => []
  end.

Definition unchanged_of (o : output) : list string :=
  match o with
  | Report unchanged _ _ => unchanged
  | _ => []
  end.

(** The scraped albums that an input offers, and those the loops do not
    skip. *)
Definition offered (data : input) : list candidate :=
  match data with
  | Single album_data => [album_data]
  | Bulk albums_data => albums_data
  | _ => []
  end.

Definition with_url (c : candidate) : bool :=
  PyStr.truthy (PyStr.strip (c_url c)).

(** What identifies an album and what the user attached to it: the url,
    the tags, and the id once the album has one; and its three date
    fields. *)
Definition same_identity (a a' : album) : Prop :=
  url a' = url a /\ tags a' = tags a
  /\ (truthy (album_id a) = true -> album_id a' = album_id a).

Definition same_dates (a a' : album) : Prop :=
  dateRange a' = dateRange a /\ startDate a' = startDate a
  /\ endDate a' = endDate a.

(** Every album of the dictionary has an [id] key. *)
Definition has_ids (d : Store.albums_dict) : Prop :=
  forall k a, In (k, a) d -> album_id a <> None.

End Ingest.

(** ** [search_albums.py]: filtering and ordering *)

Module Search.
Import Store.

(** [read_database()]: every album of the file, or nothing at all when a
    line raises. *)
Definition read_database (d : disk) : list album :=
  match db d with
  | None => []
  | Some ls =>
      let (albums, raised) := load [] ls in
      if raised then [] else albums
  end.

(** The class [[-_/\\|]]. *)
Definition is_separator (c : ascii) : bool :=
  Ascii.eqb c "-"%char || Ascii.eqb c "_"%char || Ascii.eqb c "/"%char
  || Ascii.eqb c "\"%char || Ascii.eqb c "|"%char.

(** [re.sub(r'\s+', ' ', text)]; [in_run] tells that the previous
    character was a space already replaced. *)
Fixpoint collapse_spaces (in_run : bool) (l : list ascii) : list ascii :=
  match l with
  | [] => []
  | c :: r =>
      if PyStr.isspace c
      then if in_run then collapse_spaces true r
           else " "%char :: collapse_spaces true r
      else c :: collapse_spaces false r
  end.

Definition normalize_text (text : string) : string :=
  if negb (PyStr.truthy text) then ""
  else
    let text1 := map (fun c => if is_separator c then " "%char else c)
                     (PyStr.chars text) in
    let text2 := collapse_spaces false text1 in
    PyStr.strip (PyStr.lower (PyStr.str text2)).

Definition matches_search (title : string) (search_terms : list string)
  : bool :=
  match search_terms with
  | [] => true
  | _ :: _ =>
      let normalized_title := normalize_text title in
      forallb (fun term => PyStr.str_in term normalized_title) search_terms
  end.

Definition clean_title (title : string) : string :=
  if PyStr.endswith title " - Google Photos"
  then PyStr.str (firstn (List.length (PyStr.chars title) - 16)
                         (PyStr.chars title))
  else title.

Definition or_zero (o : option (Z * Z * Z)) : Z * Z * Z :=
  match o with
  | Some t => t
  | None => (0, 0, 0)
  end.

Definition parse_date_for_sorting (E : env) (date_string : string)
  : Z * Z * Z :=
  if negb (PyStr.truthy date_string) then (0, 0, 0)
  else
    let old_formats :=
      if PyStr.str_in "," date_string
      then or_zero (PyDate.strptime_bdY (PyStr.strip date_string))
      else or_zero (PyDate.strptime_bdY
                      (PyStr.strip date_string ++ ", "
                       ++ PyStr.of_Z (current_year E))%string) in
    if PyStr.str_in "-" date_string
       && (8 <=? String.length date_string)%nat
    then
      match PyStr.split date_string "-" with
      | [p0; p1; p2] =>
          if PyStr.isdigit p0 && PyStr.isdigit p1 && PyStr.isdigit p2
          then
            match PyVal.int_of_str E p0, PyVal.int_of_str E p1,
                  PyVal.int_of_str E p2 with
            | Some year, Some month, Some day => (year, month, day)
            | _, _, _ => (0, 0, 0)     (* ValueError, caught *)
            end
          else old_formats
      | _ => old_formats
      end
    else old_formats.

Definition extract_year_from_date (E : env) (date_string : string)
  : option Z :=
  if negb (PyStr.truthy date_string) then None
  else
    let old_format :=
      if PyStr.str_in "," date_string
      then match PyDate.strptime_bdY (PyStr.strip date_string) with
           | Some (y, _, _) => Some y
           | None => None
           end
      else None in
    if PyStr.str_in "-" date_string
       && (4 <=? String.length date_string)%nat
    then
      match PyStr.split date_string "-" with
      | year_str :: _ =>
          if PyStr.isdigit year_str
             && (String.length year_str =? 4)%nat
          then PyVal.int_of_str E year_str   (* ValueError ends the try *)
          else old_format
      | [] => old_format
      end
    else old_format.

(** [re.match(r'y:(\d{4})(?:-(\d{4}))?', term, re.IGNORECASE)]: the two
    groups, the second optional. *)
Definition year_match (term : string) : option (Z * option Z) :=
  match PyStr.chars term with
  | y :: colon :: a :: b :: c :: d :: r =>
      if (Ascii.eqb y "y"%char || Ascii.eqb y "Y"%char)
         && Ascii.eqb colon ":"%char && PyStr.all_decimal [a; b; c; d]
      then
        let g1 := PyStr.decimal_value 0 [a; b; c; d] in
        match r with
        | dash :: e :: f :: g :: h :: _ =>
            if Ascii.eqb dash "-"%char && PyStr.all_decimal [e; f; g; h]
            then Some (g1, Some (PyStr.decimal_value 0 [e; f; g; h]))
            else Some (g1, None)
        | _ => Some (g1, None)
        end
      else None
  | _ => None
  end.

Fixpoint filters_loop (terms : list string) (year_filter : option (Z * Z))
         (remaining_terms : list string)
  : option (Z * Z) * list string :=
  match terms with
  | [] => (year_filter, remaining_terms)
  | term :: rest =>
      match year_match term with
      | Some (start_year, g2) =>
          let end_year := match g2 with
                          | Some e => e
                          | None => start_year
                          end in
          filters_loop rest (Some (start_year, end_year)) remaining_terms
      | None => filters_loop rest year_filter (remaining_terms ++ [term])
      end
  end.

(** Returns (year_filter, remaining_query); the date filter of the
    script is always [None]. *)
Definition parse_search_filters (search_query : string)
  : option (Z * Z) * string :=
  if negb (PyStr.truthy search_query) then (None, "")
  else
    let (year_filter, remaining_terms) :=
      filters_loop (PyStr.split_ws search_query) None [] in
    (year_filter, PyStr.join " " remaining_terms).

Definition get_or_empty (o : option string) : string :=
  match o with
  | Some s => s
  | None => ""
  end.

Definition matches_year_filter (E : env) (album : album)
           (year_filter : option (Z * Z)) : bool :=
  match year_filter with
  | None => true
  | Some (search_start_year, search_end_year) =>
      let start_date := get_or_empty (startDate album) in
      let end_date := get_or_empty (endDate album) in
      match extract_year_from_date E start_date with
      | None => false
      | Some album_start_year =>
          if PyStr.truthy end_date
          then
            let album_end_year :=
              match extract_year_from_date E end_date with
              | Some y => y
              | None => album_start_year
              end in
            (album_start_year <=? search_end_year)
            && (search_start_year <=? album_end_year)
          else
            (search_start_year <=? album_start_year)
            && (album_start_year <=? search_end_year)
      end
  end.

(** The year span of an album as the year filter sees it: the year of
    [startDate], and the year of [endDate] when the album has an end date
    whose year can be extracted, the start year again otherwise. *)
Definition album_span (E : env) (album : album) : option (Z * Z) :=
  match extract_year_from_date E (get_or_empty (startDate album)) with
  | None => None
  | Some album_start =>
      let end_date := get_or_empty (endDate album) in
      Some (album_start,
            if PyStr.truthy end_date
            then match extract_year_from_date E end_date with
                 | Some album_end => album_end
                 | None => album_start
                 end
            else album_start)
  end.

(** An entry of [matching_albums], without the display strings (title
    with count, subtitle, edit format), which the script builds per
    album for the presentation layer and never reads back. *)
Record matched : Type := mkMatched {
  m_clean_title : string;
  m_url : string;
  m_tags : list string;
  m_item_count : pyval;
  m_start_date : string;
  m_end_date : string;
  sort_date : Z * Z * Z
}.

Definition in_list (x : string) (l : list string) : bool :=
  existsb (String.eqb x) l.

(** [set(id.strip() for id in filter_ids.split(',') if id.strip())] *)
Definition parse_id_set (filter_ids : string) : option (list string) :=
  if PyStr.truthy filter_ids
  then Some (filter PyStr.truthy
                    (map PyStr.strip (PyStr.split filter_ids ",")))
  else None.

(** The tests of the filtering loop of [main], in order.  [id_set] is
    [None] or a set, tested for truthiness and then for membership. *)
Definition keep (E : env) (id_set : option (list string))
           (tag_filter : string) (year_filter : option (Z * Z))
           (search_terms : list string) (album : album) : bool :=
  let title := match title album with
               | Some t => t
               | None => "Untitled"
               end in
  let tags := match tags album with Some l => l | None => [] end in
  let album_id := get_or_empty (album_id album) in
  let id_ok := match id_set with
               | Some [] => true
               | Some ids => in_list album_id ids
               | None => true
               end in
  let tag_ok := if PyStr.truthy tag_filter then in_list tag_filter tags
                else true in
  id_ok && tag_ok && matches_year_filter E album year_filter
  && matches_search title search_terms.

Definition to_matched (E : env) (album : album) : matched :=
  let title := match title album with
               | Some t => t
               | None => "Untitled"
               end in
  let start_date := get_or_empty (startDate album) in
  mkMatched (clean_title title) (url album)
            (match tags album with Some l => l | None => [] end)
            (itemCount album) start_date (get_or_empty (endDate album))
            (parse_date_for_sorting E start_date).

(** The key of [matching_albums.sort]. *)
Definition sort_key (x : matched) : Z * Z * Z * Z :=
  let '(y, m, d) := sort_date x in
  ((if (y =? 0) && (m =? 0) && (d =? 0) then 1 else 0), - y, - m, - d).

(** [a < b] on the key tuples. *)
Definition key_lt (a b : Z * Z * Z * Z) : bool :=
  let '(a1, a2, a3, a4) := a in
  let '(b1, b2, b3, b4) := b in
  (a1 <? b1) || ((a1 =? b1) &&
    ((a2 <? b2) || ((a2 =? b2) &&
      ((a3 <? b3) || ((a3 =? b3) && (a4 <? b4)))))).


Definition key_le (x y : matched) : Prop :=
  key_lt (sort_key y) (sort_key x) = false.

(** [list.sort(key=...)] is a stable ascending sort; it is modelled by
    insertion from the right, which skips the strictly smaller keys only
    and so keeps equal keys in their first order. *)
Fixpoint insert (x : matched) (l : list matched) : list matched :=
  match l with
  | [] => [x]
  | y :: r =>
      if key_lt (sort_key y) (sort_key x) then y :: insert x r
      else x :: y :: r
  end.

Fixpoint sort (l : list matched) : list matched :=
  match l with
  | [] => []
  | x :: r => insert x (sort r)
  end.


Definition date_le (a b : Z * Z * Z) : Prop :=
  let '(y1, m1, d1) := a in
  let '(y2, m2, d2) := b in
  y1 < y2 \/ (y1 = y2 /\ (m1 < m2 \/ (m1 = m2 /\ d1 <= d2))).



Inductive output : Type :=
| NoAlbumsFound
| Results (matching_albums : list matched).

(** [item_count is not None and item_count > 0], the test under which
    the count is put in the displayed title.  Comparing a string, a list
    or an object with [0] raises [TypeError], which [main] does not
    catch. *)
Definition count_is_positive (item_count : pyval) : result bool :=
  match item_count with
  | PNone => Ok false
  | PBool b => Ok b
  | PInt n => Ok (0 <? n)
  | PFloat FNaN => Ok false
  | PFloat (FInf negative) => Ok (negb negative)
  | PFloat (FFinite negative mantissa _) =>
      Ok (negb negative && (0 <? mantissa)%N)
  | PStr _ => Raise TypeError
  | PList _ => Raise TypeError
  | PDict _ => Raise TypeError
  end.

(** [format_number(num)], which [main] reaches with a count that passed
    the test, hence a Boolean or a number.  The text it returns belongs to
    the display strings, which are left out (see [matched]); what is
    modelled is the exception that [f"{int(num):,}"] lets through its
    [except (ValueError, TypeError)]: [int] of an infinite float raises
    [OverflowError]. *)
Definition format_number_check (num : pyval) : result unit :=
  match num with
  | PFloat (FInf _) => Raise OverflowError
  | _ => Ok tt
  end.

(** The exceptions raised while the displayed title of a kept album is
    built. *)
Definition display_title_check (item_count : pyval) : result unit :=
  positive <- count_is_positive item_count ;;
  if positive then format_number_check item_count else Ok tt.

(** The filtering loop of [main]: the albums that pass the tests are
    appended to [matching_albums] in the order of the store; the loop
    ends at the first kept album whose title cannot be built. *)
Fixpoint matching_loop (E : env) (passes : album -> bool)
         (albums : list album) : result (list matched) :=
  match albums with
  | [] => Ok []
  | album :: rest =>
      if passes album
      then
        _ <- display_title_check (itemCount album) ;;
        matching_albums <- matching_loop E passes rest ;;
        Ok (to_matched E album :: matching_albums)
      else matching_loop E passes rest
  end.

(** The tests of the loop for the arguments of one run. *)
Definition passes (E : env) (search_query searchTag ID_list : string)
  : album -> bool :=
  let search_query := PyStr.strip search_query in
  let (year_filter, remaining_query) :=
    parse_search_filters search_query in
  let tag_filter := PyStr.strip searchTag in
  let id_set := parse_id_set (PyStr.strip ID_list) in
  let search_terms :=
    if PyStr.truthy remaining_query
    then PyStr.split_ws (normalize_text remaining_query) else [] in
  keep E id_set tag_filter year_filter search_terms.

(** [main]: [search_query] is [sys.argv[1]], the other two arguments are
    the environment variables [searchTag] and [ID_list]. *)
Definition main (E : env) (search_query searchTag ID_list : string)
           (d : disk) : result output :=
  match read_database d with
  | [] => Ok NoAlbumsFound
  | albums =>
      matching_albums <-
        matching_loop E (passes E search_query searchTag ID_list) albums ;;
      Ok (Results (sort matching_albums))
  end.

(** A count with which the displayed title can be built. *)
Definition displayable (item_count : pyval) : bool :=
  match display_title_check item_count with
  | Ok _ => true
  | Raise _ => false
  end.

(** The inner function of [convert_date_to_edit_format]. *)
Definition convert_single_date (E : env) (date_str : string)
  : option string :=
  if negb (PyStr.truthy date_str) then None
  else if PyDate.starts_canonical date_str then Some date_str
  else
    let parsed :=
      if PyStr.str_in "," date_str
      then PyDate.strptime_bdY (PyStr.strip date_str)
      else PyDate.strptime_bdY
             (PyStr.strip date_str ++ ", "
              ++ PyStr.of_Z (current_year E))%string in
    match parsed with
    | Some dt => Some (PyDate.strftime_Ymd E dt)
    | None => None
    end.

(** [convert_date_to_edit_format(start_date, end_date)]: the text that
    the search offers for editing the date of an album, the two
    arguments being [album.get("startDate", "")] and
    [album.get("endDate", "")]. *)
Definition convert_date_to_edit_format (E : env)
           (start_date end_date : string) : string :=
  if negb (PyStr.truthy start_date) then ""
  else
    match convert_single_date E start_date with
    | None => ""
    | Some start_converted =>
        if negb (PyStr.truthy start_converted) then ""
        else
          let single := start_converted in
          if PyStr.truthy end_date
          then match convert_single_date E end_date with
               | Some end_converted =>
                   if PyStr.truthy end_converted
                   then (start_converted ++ "--" ++ end_converted)%string
                   else single
               | None => single
               end
          else single
    end.

(** The [date_range_edit] entry that [main] computes for an album. *)
Definition date_range_edit (E : env) (album : album) : string :=
  convert_date_to_edit_format E (get_or_empty (startDate album))
                              (get_or_empty (endDate album)).

(** The terms of a query that are year filters, and the others. *)
Definition is_year_term (term : string) : bool :=
  match year_match term with
  | Some _ => true
  | None => false
  end.

Definition year_range_of (term : string) : option (Z * Z) :=
  match year_match term with
  | Some (start_year, Some end_year) => Some (start_year, end_year)
  | Some (start_year, None) => Some (start_year, start_year)
  | None => None
  end.

(** A text in normal form: no separator, no capital, and no whitespace
    but single blanks between two other characters. *)
Definition no_double_space (l : list ascii) : Prop :=
  forall pre c1 c2 post,
    l = pre ++ c1 :: c2 :: post ->
    PyStr.isspace c1 = true -> PyStr.isspace c2 = true -> False.

Definition normal (text : string) : Prop :=
  let l := PyStr.chars text in
  Forall (fun c => is_separator c = false /\ PyStr.lower_char c = c
                   /\ (PyStr.isspace c = true -> c = " "%char)) l
  /\ no_double_space l
  /\ (forall c r, l = c :: r -> PyStr.isspace c = false)
  /\ (forall c r, rev l = c :: r -> PyStr.isspace c = false).

(** An id that holds no whitespace and no comma, as the generated ones. *)
Definition plain_id (i : string) : bool :=
  PyStr.truthy i
  && forallb (fun c => negb (PyStr.isspace c) && negb (Ascii.eqb c ","%char))
             (PyStr.chars i).

End Search.

(** ** [toggle_tag.py] *)

Module ToggleTag.
Import Store.

(** [read_database()] of this script returns what was read before a
    line raised. *)
Definition read_database (d : disk) : list album :=
  match db d with
  | None => []
  | Some ls => fst (load [] ls)
  end.

Inductive notification : Type :=
| UrlAndTagRequired
| TagAdded
| TagAlreadyExists
| TagRemoved
| TagNotFound
| NoNotification
| AlbumNotFound.

(** [l.remove(x)]: the first occurrence. *)
Fixpoint remove_first (x : string) (l : list string) : list string :=
  match l with
  | [] => []
  | y :: r => if String.eqb y x then r else y :: remove_first x r
  end.

(** The body run on the album whose url matches. *)
Definition toggle (tag action : string) (album : album)
  : notification * Store.album :=
  let album := match tags album with
               | Some _ => album
               | None => set_tags album []
               end in
  let tags := match tags album with Some l => l | None => [] end in
  if String.eqb action "add"
  then if negb (Search.in_list tag tags)
       then (TagAdded, set_tags album (tags ++ [tag]))
       else (TagAlreadyExists, album)
  else if String.eqb action "remove"
       then if Search.in_list tag tags
            then (TagRemoved, set_tags album (remove_first tag tags))
            else (TagNotFound, album)
       else (NoNotification, album).

(** The search loop, with its [break]: [None] when no url matches. *)
Fixpoint find_and_update (url tag action : string) (albums : list album)
  : option (notification * list album) :=
  match albums with
  | [] => None
  | album :: rest =>
      if String.eqb (Store.url album) url
      then let (n, album') := toggle tag action album in
           Some (n, album' :: rest)
      else match find_and_update url tag action rest with
           | Some (n, rest') => Some (n, album :: rest')
           | None => None
           end
  end.

Definition main (url tag action : string) (d : disk)
  : notification * disk :=
  if negb (PyStr.truthy url) || negb (PyStr.truthy tag)
  then (UrlAndTagRequired, d)
  else
    let albums := read_database d in
    match find_and_update url tag action albums with
    | None => (AlbumNotFound, d)
    | Some (n, albums') => (n, write_database albums' d)
    end.

Definition applied (n : notification) : bool :=
  match n with
  | TagAdded | TagRemoved => true
  | _ => false
  end.

(** The albums read, the first one with the given url having gained an
    empty [tags] list if it had none. *)
Definition with_tags (a : album) : album :=
  match tags a with
  | Some _ => a
  | None => set_tags a []
  end.

Fixpoint ensure_tags_at (url : string) (albums : list album)
  : list album :=
  match albums with
  | [] => []
  | a :: rest =>
      if has_url url a then with_tags a :: rest
      else a :: ensure_tags_at url rest
  end.

End ToggleTag.

(** ** [edit_date.py] *)

Module EditDate.
Import Store.

Definition read_database (d : disk) : list album := Search.read_database d.

Definition validate_date (date_string : string) : bool :=
  match PyDate.strptime_Ymd date_string with
  | Some _ => true
  | None => false
  end.

(** Returns (start_date, end_date, date_range), or [None]. *)
Definition parse_date_input (date_input : string)
  : option (string * option string * string) :=
  let date_input := PyStr.strip date_input in
  if PyStr.str_in "--" date_input
  then
    match PyStr.split date_input "--" with
    | [p0; p1] =>
        let start_date := PyStr.strip p0 in
        let end_date := PyStr.strip p1 in
        if negb (validate_date start_date) || negb (validate_date end_date)
        then None
        else if PyStr.gt start_date end_date then None
             else Some (start_date, Some end_date,
                        (start_date ++ "--" ++ end_date)%string)
    | _ => None
    end
  else
    if negb (validate_date date_input) then None
    else Some (date_input, None, date_input).

(** The update loop of [main], with its [break]. *)
Fixpoint find_and_update (album_url start_date : string)
         (end_date : option string) (date_range : string)
         (albums : list album) : option (list album) :=
  match albums with
  | [] => None
  | album :: rest =>
      if has_url album_url album
      then
        let album := set_dateRange album (Some date_range) in
        let album := set_startDate album (Some start_date) in
        let album := if truthy end_date then set_endDate album end_date
                     else set_endDate album None in
        Some (album :: rest)
      else option_map (cons album)
             (find_and_update album_url start_date end_date date_range rest)
  end.

Inductive output : Type :=
| ErrInvalidDateFormat
| ErrNoUrl
| ErrAlbumNotFound
| DateUpdated (start_date : string) (end_date : option string)
              (date_range : string).

Definition main (album_url date_input : string) (d : disk)
  : output * disk :=
  match parse_date_input date_input with
  | None => (ErrInvalidDateFormat, d)
  | Some (start_date, end_date, date_range) =>
      if negb (PyStr.truthy album_url) then (ErrNoUrl, d)
      else
        match find_and_update album_url start_date end_date date_range
                              (read_database d) with
        | None => (ErrAlbumNotFound, d)
        | Some albums =>
            (DateUpdated start_date end_date date_range,
             write_database albums d)
        end
  end.

(** [format_date_for_display(date_string)], used in the notification of
    a single date: the display form, or the input when it does not
    parse. *)
Definition format_date_for_display (E : env) (date_string : string)
  : string :=
  match PyDate.strptime_Ymd date_string with
  | Some dt => PyDate.strftime_bdY E dt
  | None => date_string
  end.

End EditDate.

(** ** [delete_album.py] *)

Module DeleteAlbum.
Import Store.

Definition read_database (d : disk) : list album := Search.read_database d.

(** The loop of [main]: (album_found, albums_filtered). *)
Fixpoint scan (album_url : string) (albums : list album)
         (album_found : bool) (albums_filtered : list album)
  : bool * list album :=
  match albums with
  | [] => (album_found, albums_filtered)
  | album :: rest =>
      if has_url album_url album
      then scan album_url rest true albums_filtered
      else scan album_url rest album_found (albums_filtered ++ [album])
  end.

Inductive output : Type :=
| ErrNoUrl
| ErrAlbumNotFound
| ErrNotDeleted
| Deleted.

Definition main (album_url : string) (d : disk) : output * disk :=
  if negb (PyStr.truthy album_url) then (ErrNoUrl, d)
  else
    let albums := read_database d in
    let original_count := List.length albums in
    let (album_found, albums_filtered) := scan album_url albums false [] in
    if negb album_found then (ErrAlbumNotFound, d)
    else if Nat.eqb (List.length albums_filtered) original_count
         then (ErrNotDeleted, d)
         else (Deleted, write_database albums_filtered d).

End DeleteAlbum.

(** ** [edit_item_count.py] and [edit_album_title.py] *)

Module EditFields.
Import Store.

(** [read_database()] of these two scripts: [None] when a line raises
    (the script then exits with an error). *)
Definition read_database (d : disk) : option (list album) :=
  match db d with
  | None => Some []
  | Some ls =>
      let (albums, raised) := load [] ls in
      if raised then None else Some albums
  end.

Inductive output : Type :=
| ErrInvalidCount
| ErrEmptyTitle
| ErrNoUrl
| ErrReading
| ErrAlbumNotFound
| Updated.

(** The common tail of both [main]s: find the album, apply the edit,
    write. *)
Definition edit (album_url : string) (f : album -> album) (d : disk)
  : output * disk :=
  if negb (PyStr.truthy album_url) then (ErrNoUrl, d)
  else
    match read_database d with
    | None => (ErrReading, d)
    | Some albums =>
        match update_first album_url f albums with
        | None => (ErrAlbumNotFound, d)
        | Some albums' => (Updated, write_database albums' d)
        end
    end.

(** [main] of [edit_item_count.py]: [count_str] is [sys.argv[1]],
    [album_url] the url of the album in [albumToEdit]. *)
Definition edit_item_count (E : env) (count_str album_url : string)
           (d : disk) : output * disk :=
  match PyVal.int_of_str E (PyStr.strip count_str) with
  | None => (ErrInvalidCount, d)
  | Some new_count =>
      if new_count <? 0 then (ErrInvalidCount, d)
      else edit album_url (fun a => set_itemCount a (PInt new_count)) d
  end.

(** [main] of [edit_album_title.py]. *)
Definition edit_album_title (new_title album_url : string) (d : disk)
  : output * disk :=
  let new_title := PyStr.strip new_title in
  if negb (PyStr.truthy new_title) then (ErrEmptyTitle, d)
  else edit album_url (fun a => set_title a new_title) d.

End EditFields.

(** ** [sorted] with a key *)

Module PySort.

Section Sorted.

Variable A : Type.

(** [before x y]: the key of [x] is smaller than the key of [y]. *)
Variable before : A -> A -> bool.

Fixpoint insert (x : A) (l : list A) : list A :=
  match l with
  | [] => [x]
  | y :: r => if before y x then y :: insert x r else x :: y :: r
  end.

(** [sorted(l, key=...)]: a stable sort, modelled as in [Search.sort] by
    insertion from the right.  With [reverse=True], [before] is the
    reversed comparison of the keys: Python keeps elements with equal
    keys in their original order in that case as well. *)
Fixpoint sorted (l : list A) : list A :=
  match l with
  | [] => []
  | x :: r => insert x (sorted r)
  end.

End Sorted.

End PySort.

(** ** [list_tags.py] *)

Module ListTags.
Import Store.

Definition read_database (d : disk) : list album := Search.read_database d.

(** [album.get('tags', [])] *)
Definition tags_of (album : album) : list string :=
  match tags album with
  | Some l => l
  | None => []
  end.

(** The dict [tag_counts], in insertion order. *)
Definition tag_counts : Type := list (string * nat).

(** [tag_counts[tag] += 1], or [tag_counts[tag] = 1] for a new tag. *)
Fixpoint count_tag (tag : string) (counts : tag_counts) : tag_counts :=
  match counts with
  | [] => [(tag, 1%nat)]
  | (t, n) :: r =>
      if String.eqb tag t then (t, S n) :: r
      else (t, n) :: count_tag tag r
  end.

(** The two nested loops of [get_all_tags]. *)
Definition count_album (counts : tag_counts) (album : album) : tag_counts :=
  fold_left (fun counts tag => count_tag tag counts) (tags_of album) counts.

Definition count_tags (albums : list album) : tag_counts :=
  fold_left count_album albums [].

(** [a < b] on strings. *)
Definition str_lt (a b : string) : bool := PyStr.gt b a.

(** The order of the keys [(-count, tag.lower())]. *)
Definition key_lt (x y : string * nat) : bool :=
  (snd y <? snd x)%nat
  || ((snd x =? snd y)%nat
      && str_lt (PyStr.lower (fst x)) (PyStr.lower (fst y))).

Definition get_all_tags (albums : list album) : list (string * nat) :=
  PySort.sorted key_lt (count_tags albums).

Definition normalize_text (text : string) : string :=
  if negb (PyStr.truthy text) then ""
  else PyStr.strip (PyStr.lower text).

(** The test of the filtering loop of [main]. *)
Definition matches (search_query : string) (entry : string * nat) : bool :=
  negb (PyStr.truthy search_query
        && negb (PyStr.str_in (normalize_text search_query)
                              (normalize_text (fst entry)))).

Inductive output : Type :=
| NoAlbumsFound
| NoTagsFound
| NoTagsMatch
| Tags (matching_tags : list (string * nat)).

(** [main]: [search_query] is [sys.argv[1]]. *)
Definition main (search_query : string) (d : disk) : output :=
  let search_query := PyStr.strip search_query in
  match read_database d with
  | [] => NoAlbumsFound
  | albums =>
      match get_all_tags albums with
      | [] => NoTagsFound
      | all_tags =>
          match filter (matches search_query) all_tags with
          | [] => NoTagsMatch
          | matching_tags => Tags matching_tags
          end
      end
  end.

(** How often a tag occurs in the [tags] lists of the albums. *)
Fixpoint occurrences (tag : string) (albums : list album) : nat :=
  match albums with
  | [] => 0%nat
  | a :: rest =>
      (count_occ string_dec (tags_of a) tag + occurrences tag rest)%nat
  end.

(** "[x] is not after [y]" in the order of the keys. *)
Definition key_le (x y : string * nat) : Prop := key_lt y x = false.

(** [tag_counts.get(tag, 0)] *)
Fixpoint count_of (tag : string) (counts : tag_counts) : nat :=
  match counts with
  | [] => 0%nat
  | (t, n) :: r => if String.eqb tag t then n else count_of tag r
  end.

(** What holds of [tag_counts] while it is filled: one entry per tag, no
    entry with count zero. *)
Definition well_counted (counts : tag_counts) : Prop :=
  NoDup (map fst counts) /\ forall t n, In (t, n) counts -> (0 < n)%nat.

End ListTags.

(** ** [tag_menu.py] *)

Module TagMenu.
Import Store.

Definition read_database (d : disk) : list album :=
  ToggleTag.read_database d.

(** The order of [sorted(..., key=lambda x: x[1], reverse=True)]. *)
Definition more_albums (x y : string * nat) : bool := (snd y <? snd x)%nat.

Definition get_all_tags (albums : list album) : list (string * nat) :=
  PySort.sorted more_albums (ListTags.count_tags albums).

(** The entries of the menu.  Every entry that can be chosen carries the
    url, the title and the tags of the album it was built for, which are
    the same for all entries and are left out here. *)
Inductive item : Type :=
| Header
| TagItem (tag : string) (count : nat) (action : string)
| CreateTag (tag : string)
| NoTagsFound.

Definition shown (filter_query : string) (entry : string * nat) : bool :=
  negb (PyStr.truthy filter_query
        && negb (PyStr.str_in filter_query (PyStr.lower (fst entry)))).

Definition tag_item (current_tags : list string) (entry : string * nat)
  : item :=
  let (tag, count) := entry in
  TagItem tag count
          (if Search.in_list tag current_tags then "remove" else "add").

(** [main]: [current_tags] is [album_data.get("tags", [])] and
    [filter_query] is [sys.argv[2]]. *)
Definition main (current_tags : list string) (filter_query : string)
           (d : disk) : list item :=
  let filter_query := PyStr.strip (PyStr.lower filter_query) in
  let all_tags := get_all_tags (read_database d) in
  let items := if negb (PyStr.truthy filter_query) then [Header] else [] in
  let items :=
    items ++ map (tag_item current_tags)
                 (filter (shown filter_query) all_tags) in
  let items :=
    if PyStr.truthy filter_query
    then
      let existing_tags_lower :=
        map (fun entry => PyStr.lower (fst entry)) all_tags in
      if negb (Search.in_list filter_query existing_tags_lower)
      then items ++ [CreateTag filter_query]
      else items
    else items in
  match items with
  | [] => [NoTagsFound]
  | _ :: _ => items
  end.

(** The tag and the action that choosing an entry passes on to
    [toggle_tag.py]. *)
Definition request (i : item) : option (string * string) :=
  match i with
  | TagItem tag _ action => Some (tag, action)
  | CreateTag tag => Some (tag, "add")
  | _ => None
  end.

End TagMenu.

(** ** [list_album_stats.py] *)

Module AlbumStats.
Import Store.

Definition read_database (d : disk) : list album := Search.read_database d.

Definition is_missing_item_count (album : album) : bool :=
  let item_count := itemCount album in
  PyVal.is_none item_count || PyVal.py_eq item_count (PInt 0).

Definition is_missing_date (album : album) : bool :=
  negb (truthy (startDate album)) && negb (truthy (dateRange album)).

(** The lists that the loop of [main] fills. *)
Record stats : Type := mkStats {
  all_ids : list string;
  complete_ids : list string;
  incomplete_ids : list string;
  missing_count_ids : list string;
  missing_date_ids : list string;
  missing_both_ids : list string;
  with_tags_ids : list string;
  without_tags_ids : list string
}.

Definition has_tags (album : album) : bool :=
  match tags album with
  | Some (_ :: _) => true
  | _ => false
  end.

(** One iteration of the loop of [main]. *)
Definition classify (st : stats) (album : album) : stats :=
  let album_id := Search.get_or_empty (album_id album) in
  if negb (PyStr.truthy album_id) then st
  else
    let missing_count := is_missing_item_count album in
    let missing_date := is_missing_date album in
    let all := all_ids st ++ [album_id] in
    let st :=
      if missing_count && missing_date
      then mkStats all (complete_ids st)
                   (incomplete_ids st ++ [album_id])
                   (missing_count_ids st ++ [album_id])
                   (missing_date_ids st ++ [album_id])
                   (missing_both_ids st ++ [album_id])
                   (with_tags_ids st) (without_tags_ids st)
      else if missing_count
      then mkStats all (complete_ids st)
                   (incomplete_ids st ++ [album_id])
                   (missing_count_ids st ++ [album_id])
                   (missing_date_ids st) (missing_both_ids st)
                   (with_tags_ids st) (without_tags_ids st)
      else if missing_date
      then mkStats all (complete_ids st)
                   (incomplete_ids st ++ [album_id])
                   (missing_count_ids st)
                   (missing_date_ids st ++ [album_id])
                   (missing_both_ids st)
                   (with_tags_ids st) (without_tags_ids st)
      else mkStats all (complete_ids st ++ [album_id])
                   (incomplete_ids st) (missing_count_ids st)
                   (missing_date_ids st) (missing_both_ids st)
                   (with_tags_ids st) (without_tags_ids st) in
    if has_tags album
    then mkStats (all_ids st) (complete_ids st) (incomplete_ids st)
                 (missing_count_ids st) (missing_date_ids st)
                 (missing_both_ids st)
                 (with_tags_ids st ++ [album_id]) (without_tags_ids st)
    else mkStats (all_ids st) (complete_ids st) (incomplete_ids st)
                 (missing_count_ids st) (missing_date_ids st)
                 (missing_both_ids st)
                 (with_tags_ids st) (without_tags_ids st ++ [album_id]).

Definition no_stats : stats := mkStats [] [] [] [] [] [] [] [].

Definition collect (albums : list album) : stats :=
  fold_left classify albums no_stats.

(** The entries of the result: a category with its [ID_list] variable,
    or the summary line with its four numbers. *)
Inductive item : Type :=
| Incomplete (ID_list : string)
| WithTags (ID_list : string)
| WithoutTags (ID_list : string)
| MissingItemCount (ID_list : string)
| MissingDate (ID_list : string)
| MissingBoth (ID_list : string)
| Total (ID_list : string)
| Complete (ID_list : string)
| Summary (complete incomplete tagged untagged : nat).

(** An entry that is shown only when its list is not empty. *)
Definition category (make : string -> item) (ids : list string)
  : list item :=
  match ids with
  | [] => []
  | _ :: _ => [make (PyStr.join "," ids)]
  end.

Inductive output : Type :=
| NoAlbums
| Items (items : list item).

Definition main (d : disk) : output :=
  match read_database d with
  | [] => NoAlbums
  | albums =>
      let st := collect albums in
      Items (category Incomplete (incomplete_ids st)
             ++ category WithTags (with_tags_ids st)
             ++ category WithoutTags (without_tags_ids st)
             ++ category MissingItemCount (missing_count_ids st)
             ++ category MissingDate (missing_date_ids st)
             ++ category MissingBoth (missing_both_ids st)
             ++ [Total (PyStr.join "," (all_ids st))]
             ++ category Complete (complete_ids st)
             ++ [Summary (List.length (complete_ids st))
                         (List.length (incomplete_ids st))
                         (List.length (with_tags_ids st))
                         (List.length (without_tags_ids st))])
  end.

(** The albums that the loop counts, and their ids. *)
Definition identified (album : album) : bool :=
  PyStr.truthy (Search.get_or_empty (album_id album)).

Definition ids_where (p : album -> bool) (albums : list album)
  : list string :=
  map (fun a => Search.get_or_empty (album_id a))
      (filter (fun a => identified a && p a) albums).

End AlbumStats.

(** ** Sample data used by the examples of Part II *)

Module Samples.
Import Store.

(** A run on macOS with a current CPython, one on Linux, and one with
    an interpreter that has no limit on the digits of [int]. *)
Definition E0 : env := mkEnv 2026 (fun n => N.of_nat n) 4300 true.
Definition E_glibc : env := mkEnv 2026 (fun n => N.of_nat n) 4300 false.
Definition E_unlimited : env := mkEnv 2026 (fun n => N.of_nat n) 0 true.

(** The information separator U+001C, which [str.strip] removes and
    [int] does not skip. *)
Definition file_separator : ascii := ascii_of_N 28.

Definition many_ones : string := PyStr.str (repeat "1"%char 4301).

Definition url_a : string := "https://photos.example/a".
Definition url_b : string := "https://photos.example/b".
Definition url_c : string := "https://photos.example/c".

Definition trip : album :=
  mkAlbum (Some "id-a") url_a (Some "Trip") (Some ["trip"]) (PInt 5)
          (Some "2023-03-01--2023-03-03") (Some "2023-03-01")
          (Some "2023-03-03").

(** An album as the bulk import creates it, before any tag or date. *)
Definition bare : album :=
  mkAlbum (Some "id-b") url_b (Some "Family") None PNone None None None.

Definition spring : album :=
  mkAlbum (Some "id-c") url_c (Some "Spring") (Some []) (PInt 0)
          (Some "2024-03-01") (Some "2024-03-01") None.

Definition winter : album :=
  mkAlbum (Some "id-w") "https://photos.example/w" (Some "Winter")
          (Some []) PNone (Some "2023-01-01") (Some "2023-01-01") None.

(** The album of the specification's overlap example. *)
Definition long_span : album :=
  mkAlbum (Some "id-d") "https://photos.example/d" (Some "Years")
          (Some []) PNone (Some "2020-01-01--2025-01-01")
          (Some "2020-01-01") (Some "2025-01-01").

(** Scraped albums: one for the url of [trip] with another title and
    count, one for the url of [spring], whose count is 0, and a new one. *)
Definition scraped_trip : Ingest.candidate :=
  Ingest.mkCandidate url_a (Some "Trip (renamed) - Google Photos") (PInt 9)
                     None None.

Definition scraped_spring : Ingest.candidate :=
  Ingest.mkCandidate url_c (Some "Spring - Google Photos") (PInt 12)
                     None None.

Definition scraped_new : Ingest.candidate :=
  Ingest.mkCandidate "https://photos.example/n" (Some "New") (PStr "7")
                     None None.

Definition sample_dict : albums_dict :=
  [(url_b, bare); (url_a, trip); (url_c, spring)].

Definition disk_of (ls : list line) : disk := mkDisk (Some ls) 0.

Definition good_disk : disk := disk_of [Rec bare; Rec trip; Rec spring].
Definition bad_disk : disk := disk_of [Rec trip; Malformed; Rec spring].

End Samples.

(* ################################################################## *)
(** * Part II: properties *)
(* ################################################################## *)

(** ** Strings and built-ins *)

Module PyFacts.

Lemma chars_str (l : list ascii) : PyStr.chars (PyStr.str l) = l.
Proof. apply list_ascii_of_string_of_list_ascii. Qed.

Lemma isdecimal_digit_char (n : Z) :
  PyStr.isdecimal (PyDate.digit_char n) = true.
Proof.
  unfold PyDate.digit_char.
  assert (H : 0 <= n mod 10 < 10) by (apply Z.mod_pos_bound; lia).
  assert (C : n mod 10 = 0 \/ n mod 10 = 1 \/ n mod 10 = 2 \/ n mod 10 = 3
              \/ n mod 10 = 4 \/ n mod 10 = 5 \/ n mod 10 = 6
              \/ n mod 10 = 7 \/ n mod 10 = 8 \/ n mod 10 = 9) by lia.
  repeat (destruct C as [C | C]; [rewrite C; reflexivity |]).
  rewrite C; reflexivity.
Qed.

(** The year is printed with four digits where [%Y] is zero-padded, and
    everywhere from the year 1000 on. *)
Lemma strftime_Y_padded (E : env) (y : Z) :
  strftime_pads_year E = true \/ 1000 <= y ->
  PyDate.strftime_Y E y = PyDate.pad4 y.
Proof.
  intros H. unfold PyDate.strftime_Y.
  destruct (strftime_pads_year E); [reflexivity |].
  destruct H as [H | H]; [discriminate |].
  destruct (Z.leb_spec 1000 y); [reflexivity | lia].
Qed.

(** [strftime("%Y-%m-%d")] then has the canonical shape. *)
Lemma strftime_canonical (E : env) (y m d : Z) :
  strftime_pads_year E = true \/ 1000 <= y ->
  PyDate.is_canonical (PyDate.strftime_Ymd E (y, m, d)) = true.
Proof.
  intros H.
  unfold PyDate.is_canonical, PyDate.strftime_Ymd.
  rewrite chars_str, (strftime_Y_padded H).
  unfold PyDate.pad4, PyDate.pad2, PyStr.all_decimal.
  cbn [app forallb].
  rewrite !isdecimal_digit_char. reflexivity.
Qed.

(** In every case the year is printed as one to four decimal digits. *)
Lemma strftime_Y_digits (E : env) (y : Z) :
  exists c r, PyDate.strftime_Y E y = c :: r
              /\ Forall (fun x => PyStr.isdecimal x = true) (c :: r)
              /\ (List.length r <= 3)%nat.
Proof.
  unfold PyDate.strftime_Y, PyDate.pad4.
  destruct (strftime_pads_year E || (1000 <=? y));
    [| destruct (100 <=? y); [| destruct (10 <=? y)]];
    eexists _, _; (split; [reflexivity |]);
    (split; [repeat constructor; apply isdecimal_digit_char | simpl; lia]).
Qed.

(** [int] on strings: blanks around the numeral, a sign and single
    underscores are accepted; a separator that [str.strip] would remove
    is not; and a numeral longer than the limit is refused where there is
    a limit. *)
Example int_of_str_examples :
  PyVal.int_of_str Samples.E0 " +1_000 " = Some 1000
  /\ PyVal.int_of_str Samples.E0 "1__0" = None
  /\ PyStr.strip (String Samples.file_separator "0") = "0"
  /\ PyVal.int_of_str Samples.E0 (String Samples.file_separator "0") = None
  /\ PyVal.int_of_str Samples.E0 Samples.many_ones = None
  /\ PyVal.int_of_str Samples.E_unlimited Samples.many_ones <> None.
Proof. repeat split; vm_compute; congruence. Qed.

End PyFacts.

(** ** The readers of the store file *)

Module StoreFacts.
Import Store.

(** Reading back what [write_database] wrote gives the same albums. *)
Lemma load_recs (albums acc : list album) :
  load acc (map Rec albums) = (acc ++ albums, false).
Proof.
  revert acc. induction albums as [| a albums IH]; intros acc; simpl.
  - now rewrite app_nil_r.
  - rewrite IH. now rewrite <- app_assoc.
Qed.

(** A line that does not parse makes the reading loop end by an
    exception, whatever was read before it. *)
Lemma load_malformed (ls : list line) (acc : list album) :
  In Malformed ls -> snd (load acc ls) = true.
Proof.
  revert acc. induction ls as [| l ls IH]; intros acc H; simpl in *.
  - contradiction.
  - destruct l; simpl.
    + apply IH. destruct H as [H | H]; [discriminate | exact H].
    + reflexivity.
    + apply IH. destruct H as [H | H]; [discriminate | exact H].
Qed.

Lemma read_loop_malformed (E : env) (ls : list line)
      (acc : albums_dict) (rng : nat) :
  In Malformed ls -> fst (Ingest.read_loop E ls acc rng) = None.
Proof.
  revert acc rng. induction ls as [| l ls IH]; intros acc rng H;
    simpl in *.
  - contradiction.
  - destruct l.
    + apply IH. destruct H as [H | H]; [discriminate | exact H].
    + reflexivity.
    + assert (H' : In Malformed ls)
        by (destruct H as [H | H]; [discriminate | exact H]).
      destruct (PyStr.truthy (url a)); [| now apply IH].
      destruct (album_id a); [now apply IH |].
      destruct (generate_unique_id E rng). now apply IH.
Qed.

Lemma search_read_written (albums : list album) (d : disk) :
  Search.read_database (write_database albums d) = albums.
Proof.
  unfold Search.read_database, write_database. simpl.
  now rewrite load_recs.
Qed.

(** C10. On the ingest read path ([read_existing_albums]) and on the
    search read path ([read_database] of the search script), a store file
    with a non-empty line that [json.loads] rejects is read as the empty
    collection: the albums of all other lines, those before the bad line
    included, are dropped. *)
Theorem unparsable_line_drops_collection (E : env) (d : disk)
        (rng : nat) (ls : list line) :
  db d = Some ls ->
  In Malformed ls ->
  fst (Ingest.read_existing_albums E d rng) = []
  /\ Search.read_database d = [].
Proof.
  intros Hdb Hbad. split.
  - unfold Ingest.read_existing_albums. rewrite Hdb.
    pose proof (read_loop_malformed E [] rng Hbad) as H.
    destruct (Ingest.read_loop E ls [] rng) as [[dct |] rng'];
      simpl in *; [discriminate | reflexivity].
  - unfold Search.read_database. rewrite Hdb.
    pose proof (load_malformed [] Hbad) as H.
    destruct (load [] ls) as [albums raised]. simpl in H.
    now rewrite H.
Qed.

End StoreFacts.

Module StoreWitness.
Import Store Samples.

Lemma unparsable_line_drops_collection_witness :
  db bad_disk = Some [Rec trip; Malformed; Rec spring]
  /\ In Malformed [Rec trip; Malformed; Rec spring]
  /\ fst (Ingest.read_existing_albums E0 bad_disk 0) = []
  /\ Search.read_database bad_disk = [].
Proof.
  assert (Hdb : db bad_disk = Some [Rec trip; Malformed; Rec spring])
    by reflexivity.
  assert (Hin : In Malformed [Rec trip; Malformed; Rec spring])
    by (simpl; auto).
  split; [exact Hdb |]. split; [exact Hin |].
  exact (StoreFacts.unparsable_line_drops_collection E0 0 Hdb Hin).
Defined.

End StoreWitness.

(** ** Deleting an album *)

Module DeleteFacts.
Import Store DeleteAlbum.

Lemma scan_spec (u : string) (albums : list album) (found : bool)
      (acc : list album) :
  scan u albums found acc
  = (found || existsb (has_url u) albums, acc ++ filter (other_url u) albums).
Proof.
  revert found acc.
  induction albums as [| a albums IH]; intros found acc; simpl.
  - now rewrite orb_false_r, app_nil_r.
  - unfold other_url at 1.
    destruct (has_url u a); simpl; rewrite IH.
    + now rewrite orb_true_r.
    + now rewrite <- app_assoc.
Qed.

Lemma filter_split_length (p : album -> bool) (l : list album) :
  (List.length (filter p l)
   + List.length (filter (fun a => negb (p a)) l))%nat = List.length l.
Proof.
  induction l as [| a l IH]; simpl; [reflexivity |].
  destruct (p a); simpl; lia.
Qed.

Lemma existsb_filter_out (u : string) (l : list album) :
  existsb (has_url u) (filter (other_url u) l) = false.
Proof.
  induction l as [| a l IH]; simpl; [reflexivity |].
  unfold other_url at 1. destruct (has_url u a) eqn:H; simpl; [exact IH |].
  now rewrite H.
Qed.

Lemma filter_absent_url (u : string) (l : list album) :
  ~ In u (map url l) -> filter (has_url u) l = [].
Proof.
  induction l as [| b l IH]; simpl; intros Hn; [reflexivity |].
  destruct (has_url u b) eqn:Hb.
  - exfalso. apply Hn. left. unfold has_url in Hb.
    now apply String.eqb_eq in Hb.
  - apply IH. intros H. apply Hn. now right.
Qed.

(** With one record per url, a url of the store counts exactly once. *)
Lemma unique_url_count (u : string) (l : list album) :
  NoDup (map url l) -> In u (map url l) ->
  List.length (filter (has_url u) l) = 1%nat
  /\ existsb (has_url u) l = true.
Proof.
  induction l as [| a l IH]; simpl; intros Hnd Hin; [contradiction |].
  inversion Hnd as [| x xs Hnotin Hnd']; subst.
  destruct (has_url u a) eqn:Ha; simpl.
  - split; [| reflexivity]. f_equal.
    unfold has_url in Ha. apply String.eqb_eq in Ha.
    rewrite filter_absent_url; [reflexivity |]. now rewrite <- Ha.
  - destruct Hin as [Hin | Hin].
    + unfold has_url in Ha. rewrite Hin, String.eqb_refl in Ha.
      discriminate.
    + now apply IH.
Qed.

(** C9. In a store with one record per url that holds a record with the
    (non-empty) url [u], [deleteAlbum(u)] succeeds and rewrites the store
    without that record: exactly one record fewer, all records with
    another url kept as they were and in order.  Deleting [u] again reports
    "album not found" and leaves the store alone. *)
Theorem delete_removes_exactly_one (u : string) (d : disk) :
  PyStr.truthy u = true ->
  NoDup (map url (read_database d)) ->
  In u (map url (read_database d)) ->
  exists d',
    main u d = (Deleted, d')
    /\ read_database d' = filter (other_url u) (read_database d)
    /\ S (List.length (read_database d')) = List.length (read_database d)
    /\ main u d' = (ErrAlbumNotFound, d').
Proof.
  intros Hu Hnd Hin.
  destruct (unique_url_count Hnd Hin) as [Hcount Hex].
  pose proof (filter_split_length (has_url u) (read_database d)) as Hlen.
  rewrite Hcount in Hlen.
  change (fun a => negb (has_url u a)) with (other_url u) in Hlen.
  exists (write_database (filter (other_url u) (read_database d)) d).
  assert (Hread : read_database
                    (write_database
                       (filter (other_url u) (read_database d)) d)
                  = filter (other_url u) (read_database d))
    by apply StoreFacts.search_read_written.
  repeat split.
  - unfold main. rewrite Hu. simpl.
    rewrite scan_spec. simpl. rewrite Hex. simpl.
    replace (List.length (filter (other_url u) (read_database d))
             =? List.length (read_database d))%nat with false;
      [reflexivity |].
    symmetry. apply Nat.eqb_neq. lia.
  - exact Hread.
  - rewrite Hread. lia.
  - unfold main. rewrite Hu. simpl. rewrite Hread.
    rewrite scan_spec. simpl. now rewrite existsb_filter_out.
Qed.

End DeleteFacts.

Module DeleteWitness.
Import Store Samples DeleteAlbum.

Lemma delete_removes_exactly_one_witness :
  PyStr.truthy url_a = true
  /\ NoDup (map url (read_database good_disk))
  /\ In url_a (map url (read_database good_disk))
  /\ exists d',
      main url_a good_disk = (Deleted, d')
      /\ read_database d'
         = filter (other_url url_a) (read_database good_disk)
      /\ S (List.length (read_database d'))
         = List.length (read_database good_disk)
      /\ main url_a d' = (ErrAlbumNotFound, d').
Proof.
  assert (H1 : PyStr.truthy url_a = true) by reflexivity.
  assert (H2 : NoDup (map url (read_database good_disk))).
  { vm_compute. repeat constructor; simpl; intuition discriminate. }
  assert (H3 : In url_a (map url (read_database good_disk)))
    by (vm_compute; auto).
  split; [exact H1 |]. split; [exact H2 |]. split; [exact H3 |].
  exact (DeleteFacts.delete_removes_exactly_one H1 H2 H3).
Defined.

End DeleteWitness.

(** ** Toggling a tag *)

Module ToggleFacts.
Import Store ToggleTag.

(** Without a tag to add or remove, [toggle] only makes sure the album
    has a [tags] list. *)
Lemma toggle_not_applied (tag action : string) (a : album) :
  applied (fst (toggle tag action a)) = false ->
  snd (toggle tag action a) = with_tags a.
Proof.
  unfold toggle, with_tags.
  destruct (tags a) as [l |] eqn:Ht; simpl.
  - rewrite Ht.
    destruct (String.eqb action "add").
    + destruct (Search.in_list tag l); simpl; [reflexivity | discriminate].
    + destruct (String.eqb action "remove"); [| reflexivity].
      destruct (Search.in_list tag l); simpl; [discriminate | reflexivity].
  - destruct (String.eqb action "add"); simpl; [discriminate |].
    destruct (String.eqb action "remove"); reflexivity.
Qed.

Lemma find_and_update_found (u tag action : string) (albums : list album) :
  existsb (has_url u) albums = true ->
  exists n albums',
    find_and_update u tag action albums = Some (n, albums')
    /\ (applied n = false -> albums' = ensure_tags_at u albums).
Proof.
  unfold has_url.
  induction albums as [| a albums IH]; simpl; [discriminate |].
  unfold has_url.
  destruct (String.eqb (url a) u) eqn:Hu; simpl.
  - intros _.
    pose proof (@toggle_not_applied tag action a) as Hna.
    destruct (toggle tag action a) as [n a']. simpl in Hna.
    exists n, (a' :: albums). split; [reflexivity |].
    intros H. now rewrite (Hna H).
  - intros H. destruct (IH H) as (n & albums' & Hf & Hna).
    rewrite Hf. exists n, (a :: albums'). split; [reflexivity |].
    intros Hn. now rewrite (Hna Hn).
Qed.

(** C6, as the script behaves.  When the url is found, [main] rewrites the
    store file exactly once whatever the outcome, applied or not.  On an
    outcome that is not applied, the albums written are the albums read,
    except that the targeted album has gained an empty [tags] list if it had
    none. *)
Theorem toggle_found_always_rewrites (u tag action : string) (d : disk) :
  PyStr.truthy u = true ->
  PyStr.truthy tag = true ->
  existsb (has_url u) (read_database d) = true ->
  exists n albums',
    main u tag action d = (n, write_database albums' d)
    /\ n <> AlbumNotFound
    /\ writes (snd (main u tag action d)) = S (writes d)
    /\ (applied n = false -> albums' = ensure_tags_at u (read_database d)).
Proof.
  intros Hu Ht Hfound.
  destruct (find_and_update_found tag action Hfound)
    as (n & albums' & Hf & Hna).
  exists n, albums'.
  assert (Hmain : main u tag action d = (n, write_database albums' d)).
  { unfold main. rewrite Hu, Ht. simpl. now rewrite Hf. }
  repeat split.
  - exact Hmain.
  - clear Hmain Hna. revert n albums' Hf.
    generalize (read_database d) as albums.
    induction albums as [| a albums IH]; simpl; intros n albums' Hf;
      [discriminate |].
    unfold has_url in Hf.
    destruct (String.eqb (url a) u).
    + unfold toggle in Hf.
      destruct (String.eqb action "add");
        [destruct (negb _) |
         destruct (String.eqb action "remove");
         [destruct (Search.in_list _ _) |]];
        inversion Hf; discriminate.
    + destruct (find_and_update u tag action albums) as [[n0 r] |] eqn:Hr;
        [| discriminate].
      inversion Hf; subst. eapply IH; reflexivity.
  - rewrite Hmain. reflexivity.
  - exact Hna.
Qed.

End ToggleFacts.

Module ToggleWitness.
Import Store Samples ToggleTag.

(** C6 as stated fails: removing a tag that the album does not carry is
    not applied, yet the store file is rewritten, and here its content
    changes as well (the album gains an empty [tags] list). *)
Lemma toggle_rewrites_without_applying :
  applied (fst (main url_b "trip" "remove" good_disk)) = false
  /\ writes (snd (main url_b "trip" "remove" good_disk))
     = S (writes good_disk)
  /\ db (snd (main url_b "trip" "remove" good_disk)) <> db good_disk.
Proof.
  split; [reflexivity |]. split; [reflexivity |].
  vm_compute. discriminate.
Qed.

Lemma toggle_found_always_rewrites_witness :
  PyStr.truthy url_a = true
  /\ PyStr.truthy "trip" = true
  /\ existsb (has_url url_a) (read_database good_disk) = true
  /\ exists n albums',
      main url_a "trip" "add" good_disk = (n, write_database albums' good_disk)
      /\ n <> AlbumNotFound
      /\ writes (snd (main url_a "trip" "add" good_disk))
         = S (writes good_disk)
      /\ (applied n = false
          -> albums' = ensure_tags_at url_a (read_database good_disk)).
Proof.
  assert (H1 : PyStr.truthy url_a = true) by reflexivity.
  assert (H2 : PyStr.truthy "trip" = true) by reflexivity.
  assert (H3 : existsb (has_url url_a) (read_database good_disk)
               = true) by reflexivity.
  split; [exact H1 |]. split; [exact H2 |]. split; [exact H3 |].
  exact (ToggleFacts.toggle_found_always_rewrites "add" H1 H2 H3).
Defined.

End ToggleWitness.

(** ** Editing the date of an album *)

Module EditDateFacts.
Import Store Samples EditDate.

(** What [parse_date_input] guarantees about an accepted range: both
    dates passed [validate_date], the start is not after the end as
    strings, and the range is the two dates joined by [--]. *)
Lemma parse_date_input_range (date_input start_date end_date range : string) :
  parse_date_input date_input = Some (start_date, Some end_date, range) ->
  validate_date start_date = true
  /\ validate_date end_date = true
  /\ PyStr.gt start_date end_date = false
  /\ range = (start_date ++ "--" ++ end_date)%string.
Proof.
  unfold parse_date_input.
  destruct (PyStr.str_in "--" (PyStr.strip date_input)).
  - destruct (PyStr.split (PyStr.strip date_input) "--")
      as [| p0 [| p1 [| p2 ps]]]; try discriminate.
    destruct (validate_date (PyStr.strip p0)) eqn:Hv0; simpl;
      [| discriminate].
    destruct (validate_date (PyStr.strip p1)) eqn:Hv1; simpl;
      [| discriminate].
    destruct (PyStr.gt (PyStr.strip p0) (PyStr.strip p1)) eqn:Hgt;
      [discriminate |].
    intros H; inversion H; subst. auto.
  - destruct (validate_date (PyStr.strip date_input)); simpl; discriminate.
Qed.

Lemma parse_date_input_single (date_input start_date range : string) :
  parse_date_input date_input = Some (start_date, None, range) ->
  validate_date start_date = true /\ range = start_date.
Proof.
  unfold parse_date_input.
  destruct (PyStr.str_in "--" (PyStr.strip date_input)).
  - destruct (PyStr.split (PyStr.strip date_input) "--")
      as [| p0 [| p1 [| p2 ps]]]; try discriminate.
    destruct (validate_date (PyStr.strip p0)); simpl; [| discriminate].
    destruct (validate_date (PyStr.strip p1)); simpl; [| discriminate].
    destruct (PyStr.gt (PyStr.strip p0) (PyStr.strip p1)); discriminate.
  - destruct (validate_date (PyStr.strip date_input)) eqn:Hv; simpl;
      [| discriminate].
    intros H; inversion H; subst. auto.
Qed.

(** C8, where the script departs from it.  [validate_date] relies on
    [strptime], for which the leading zero of month and day is optional, so
    [editDate] accepts the range [2025-10-1--2025-9-1]: the dates it stores
    are not in yyyy-mm-dd form, and the start date, which sorts before the
    end date as a string, is the later day. *)
Theorem edit_date_accepts_unpadded_range :
  main url_a "2025-10-1--2025-9-1" good_disk
  = (DateUpdated "2025-10-1" (Some "2025-9-1") "2025-10-1--2025-9-1",
     write_database
       [bare;
        mkAlbum (Some "id-a") url_a (Some "Trip") (Some ["trip"]) (PInt 5)
                (Some "2025-10-1--2025-9-1") (Some "2025-10-1")
                (Some "2025-9-1");
        spring] good_disk)
  /\ PyDate.is_canonical "2025-10-1" = false
  /\ PyDate.is_canonical "2025-9-1" = false
  /\ PyDate.strptime_Ymd "2025-10-1" = Some (2025, 10, 1)
  /\ PyDate.strptime_Ymd "2025-9-1" = Some (2025, 9, 1).
Proof. repeat split; vm_compute; reflexivity. Qed.

End EditDateFacts.

(** ** Normalizing dates on ingest *)

Module DateFacts.
Import Store Samples Ingest.


(** What [strftime("%Y-%m-%d")] gives: the canonical shape, or, where
    the year is not zero-padded, a date before the year 1000 with its year
    in fewer than four digits. *)
Lemma strftime_shape (E : env) (dt : Z * Z * Z) :
  PyDate.is_canonical (PyDate.strftime_Ymd E dt) = true
  \/ (strftime_pads_year E = false
      /\ exists y m d, dt = (y, m, d) /\ y < 1000).
Proof.
  destruct dt as [[y m] d].
  destruct (strftime_pads_year E) eqn:Hp.
  - left. apply PyFacts.strftime_canonical. now left.
  - destruct (Z.le_gt_cases 1000 y) as [Hy | Hy].
    + left. apply PyFacts.strftime_canonical. now right.
    + right. split; [reflexivity |]. exists y, m, d. split; [reflexivity | lia].
Qed.


(** The third case occurs: where the year is not zero-padded, a date of
    the year 999 is stored as ["999-01-05"], which is neither canonical nor
    the input; where it is, the same input gives ["0999-01-05"]. *)
Example normalize_unpadded_year :
  convert_date_to_storage_format E_glibc (Some "Jan 05, 0999")
  = Some "999-01-05"
  /\ PyDate.is_canonical "999-01-05" = false
  /\ convert_date_to_storage_format E0 (Some "Jan 05, 0999")
     = Some "0999-01-05".
Proof. repeat split; vm_compute; reflexivity. Qed.

End DateFacts.

(** ** The year filter *)

Module YearFilterFacts.
Import Store Samples Search.

(** C5. With a year filter [(search_start, search_end)], an album matches
    exactly when it has a year span [(album_start, album_end)] (the end
    being the start for an album with a single date) and
    [album_start <= search_end] and [album_end >= search_start]; an album
    whose start date yields no year matches no filter. *)
Theorem year_filter_is_overlap (E : env) (album : album)
        (search_start search_end : Z) :
  (matches_year_filter E album (Some (search_start, search_end)) = true
   <-> exists album_start album_end,
        album_span E album = Some (album_start, album_end)
        /\ album_start <= search_end /\ album_end >= search_start)
  /\ (extract_year_from_date E (get_or_empty (startDate album)) = None ->
      matches_year_filter E album (Some (search_start, search_end)) = false)
  /\ (PyStr.truthy (get_or_empty (endDate album)) = false ->
      forall album_start album_end,
        album_span E album = Some (album_start, album_end) ->
        album_end = album_start).
Proof.
  unfold matches_year_filter, album_span.
  destruct (extract_year_from_date E (get_or_empty (startDate album)))
    as [ys |].
  - split; [split | split].
    + intros H.
      destruct (PyStr.truthy (get_or_empty (endDate album)));
        apply andb_true_iff in H; destruct H as [H1 H2];
        apply Z.leb_le in H1; apply Z.leb_le in H2;
        eexists _, _; (split; [reflexivity |]); split; lia.
    + intros (a & b & Hspan & H1 & H2).
      inversion Hspan; subst; clear Hspan.
      destruct (PyStr.truthy (get_or_empty (endDate album)));
        apply andb_true_iff; split; apply Z.leb_le; lia.
    + discriminate.
    + intros Hend a b Hspan. rewrite Hend in Hspan.
      now inversion Hspan.
  - split; [split | split].
    + discriminate.
    + intros (a & b & Hspan & _). discriminate.
    + reflexivity.
    + discriminate.
Qed.

(** The overlap example of the specification: an album spanning
    2020-01-01 to 2025-01-01 matches [y:2023] and does not match
    [y:2026]. *)
Example year_filter_overlap_example :
  fst (parse_search_filters "y:2023") = Some (2023, 2023)
  /\ matches_year_filter E0 long_span (Some (2023, 2023)) = true
  /\ matches_year_filter E0 long_span (Some (2026, 2026)) = false.
Proof. repeat split; vm_compute; reflexivity. Qed.

End YearFilterFacts.

(** ** The order of search results *)

Module SortFacts.
Import Store Samples Search.
















Lemma matching_loop_returns (E : env) (p : album -> bool)
      (albums : list album) :
  (exists l, matching_loop E p albums = Ok l)
  <-> forallb (fun a => displayable (itemCount a)) (filter p albums) = true.
Proof.
  induction albums as [| a albums IH]; simpl.
  - split; [reflexivity | eauto].
  - destruct (p a); [| exact IH]. simpl. unfold displayable at 1.
    destruct (display_title_check (itemCount a)) as [u |]; cbn [bind].
    + rewrite <- IH. cbn [andb].
      destruct (matching_loop E p albums) as [l' |]; cbn [bind].
      * split; eauto.
      * split; intros [l H]; discriminate.
    + cbn [andb]. split; [intros [l H] |]; discriminate.
Qed.

(** A search ends normally exactly when the store is empty or unreadable,
    or the count of every album that passes the filters can be displayed:
    it is absent, a number other than the float infinity, or a Boolean. *)
Lemma search_returns (E : env) (search_query searchTag ID_list : string)
      (d : disk) :
  (exists out, main E search_query searchTag ID_list d = Ok out)
  <-> forallb (fun a => displayable (itemCount a))
              (filter (passes E search_query searchTag ID_list)
                      (read_database d)) = true.
Proof.
  unfold main.
  destruct (read_database d) as [| a albums] eqn:Hread.
  - split; [reflexivity | eauto].
  - rewrite <- (matching_loop_returns E).
    destruct (matching_loop E (passes E search_query searchTag ID_list)
                            (a :: albums)) as [l |]; cbn [bind].
    + split; eauto.
    + split; intros [x H]; discriminate.
Qed.


(** The sort example of the specification: albums dated 2024-03-01 and
    2023-01-01 and an undated one, listed by [search("")], come out in
    that order, whatever their order in the store. *)
Example search_sort_example :
  match main E0 "" "" "" (disk_of [Rec bare; Rec winter; Rec spring]) with
  | Ok (Results results) =>
      map m_url results = [url spring; url winter; url bare]
  | _ => False
  end.
Proof. vm_compute. reflexivity. Qed.

(** A filter on ids selects the albums whose id is in the list, the first
    id included; and a search that keeps an album whose count is a string
    (as the ingest stores it for a new album scraped with one) ends with
    the [TypeError] of [item_count > 0]. *)
Example search_by_id_and_string_count :
  match main E0 "" "" "id-c" good_disk with
  | Ok (Results results) => map m_url results = [url spring]
  | _ => False
  end
  /\ main E0 "" "" ""
          (disk_of [Rec trip;
                    Rec (set_itemCount bare (PStr "7"))])
     = Raise TypeError.
Proof. split; vm_compute; reflexivity. Qed.

End SortFacts.

Module SortWitness.
Import Store Samples Search.


End SortWitness.

(** ** Ingest: the merge rule *)

Module MergeFacts.
Import Store Ingest.

Lemma dict_get_set (u k : string) (a : album) (d : albums_dict) :
  dict_get u (dict_set k a d)
  = if String.eqb u k then Some a else dict_get u d.
Proof.
  induction d as [| [k' a'] d IH]; simpl.
  - reflexivity.
  - destruct (String.eqb_spec k k') as [-> | Hk]; simpl.
    + destruct (String.eqb u k'); reflexivity.
    + rewrite IH.
      destruct (String.eqb_spec u k') as [-> | Hu];
        [| reflexivity].
      destruct (String.eqb_spec k' k) as [-> | _]; [congruence | reflexivity].
Qed.

Lemma py_eq_int_zero (z : Z) : PyVal.py_eq (PInt z) (PInt 0) = (z =? 0).
Proof.
  simpl. unfold PyVal.num_eq. simpl. now rewrite Z.mul_1_r.
Qed.

Lemma py_eq_ints (a b : Z) : PyVal.py_eq (PInt a) (PInt b) = (a =? b).
Proof.
  simpl. unfold PyVal.num_eq. simpl. now rewrite !Z.mul_1_r.
Qed.

(** A value that [int] rejects with a caught exception is not equal
    to 0. *)
Lemma caught_not_zero (E : env) (v : pyval) :
  PyVal.py_int E v = PyVal.IntValueError \/ PyVal.py_int E v = PyVal.IntTypeError ->
  PyVal.py_eq v (PInt 0) = false.
Proof.
  destruct v as [| b | n | f | s | l | fs]; simpl; try reflexivity;
    try (intros [H | H]; discriminate).
  destruct f; simpl; try reflexivity; intros [H | H]; discriminate.
Qed.

Lemma update_item_count_merged (E : env) (a : album) (new : pyval) :
  update_item_count E a new
  = (p <- merged_count E (itemCount a) new ;;
     Ok (if snd p then set_itemCount a (fst p) else a, snd p)).
Proof.
  unfold update_item_count, merged_count.
  destruct (PyVal.is_none new); [reflexivity |].
  destruct (coerce_counts E new (itemCount a)) as [[n e] |]; simpl;
    [| reflexivity].
  destruct (PyVal.is_none e || PyVal.py_eq e (PInt 0)); simpl;
    [destruct (PyVal.py_ne e n) |]; reflexivity.
Qed.

(** A count reported as not overwritten is the existing count. *)
Lemma merged_unchanged (E : env) (e new v : pyval) :
  merged_count E e new = Ok (v, false) -> v = e.
Proof.
  unfold merged_count.
  destruct (PyVal.is_none new); [intros H; now inversion H |].
  destruct (coerce_counts E new e) as [[n e'] |]; simpl; [| discriminate].
  destruct ((PyVal.is_none e' || PyVal.py_eq e' (PInt 0))
            && PyVal.py_ne e' n); intros H; now inversion H.
Qed.

(** The two sides that the script compares are those of the rule. *)
Lemma coerce_counts_compared (E : env) (new e n' e' : pyval) :
  new <> PNone ->
  coerce_counts E new e = Ok (n', e') ->
  compared E new e = (n', e').
Proof.
  intros Hnew. unfold coerce_counts, compared.
  assert (Hn : as_integer E new
               = match PyVal.py_int E new with
                 | PyVal.IntOk n => Some (PInt n)
                 | _ => None
                 end)
    by (destruct new; [contradiction | reflexivity ..]).
  rewrite Hn. clear Hn.
  destruct (PyVal.py_int E new) as [n | | |].
  - destruct e as [| eb | en | ef | es | el | efs];
      try (intros H; inversion H; subst; reflexivity);
      unfold as_integer;
      match goal with
      | |- context [PyVal.py_int E ?x] => destruct (PyVal.py_int E x)
      end; intros H; inversion H; subst; reflexivity.
  - intros H. now inversion H.
  - intros H. now inversion H.
  - discriminate.
Qed.

(** The count is overwritten only under the three conditions, and by the
    new count as it was compared. *)
Lemma merged_overwrites_only_if (E : env) (e new v : pyval) :
  merged_count E e new = Ok (v, true) ->
  supplied new /\ absent_or_zero E new e /\ differs E new e
  /\ v = fst (compared E new e).
Proof.
  unfold merged_count, supplied, absent_or_zero, differs.
  destruct (PyVal.is_none new) eqn:Hnew; [discriminate |].
  assert (Hsupplied : new <> PNone) by (intros ->; discriminate).
  destruct (coerce_counts E new e) as [[n' e'] |] eqn:Hc; cbn [bind];
    [| discriminate].
  rewrite (coerce_counts_compared Hsupplied Hc). cbn [fst snd].
  destruct (PyVal.is_none e' || PyVal.py_eq e' (PInt 0)) eqn:Hz;
    cbn [andb]; [| discriminate].
  destruct (PyVal.py_ne e' n') eqn:Hne; [| discriminate].
  intros H. inversion H; subst v. split; [exact Hsupplied |].
  split; [| split; [| reflexivity]].
  - apply orb_true_iff in Hz. destruct Hz as [Hz | Hz]; [left | now right].
    destruct e'; simpl in Hz; congruence.
  - unfold PyVal.py_ne in Hne. now apply negb_true_iff in Hne.
Qed.

(** Under the three conditions the count is overwritten, when the
    conversions do not overflow. *)
Lemma merged_overwrites_if (E : env) (e new v : pyval) (b : bool) :
  merged_count E e new = Ok (v, b) ->
  supplied new -> absent_or_zero E new e -> differs E new e ->
  b = true /\ v = fst (compared E new e).
Proof.
  unfold merged_count, supplied, absent_or_zero, differs.
  intros Hm Hsupplied.
  assert (Hnew : PyVal.is_none new = false)
    by (destruct new; [contradiction | reflexivity ..]).
  rewrite Hnew in Hm.
  destruct (coerce_counts E new e) as [[n' e'] |] eqn:Hc; cbn [bind] in Hm;
    [| discriminate].
  rewrite (coerce_counts_compared Hsupplied Hc). cbn [fst snd].
  intros Hz Hd.
  assert (Hz' : PyVal.is_none e' || PyVal.py_eq e' (PInt 0) = true).
  { destruct Hz as [-> | Hz]; [reflexivity |].
    rewrite Hz. apply orb_true_r. }
  rewrite Hz' in Hm. unfold PyVal.py_ne in Hm. rewrite Hd in Hm.
  cbn [andb negb] in Hm. inversion Hm; subst. auto.
Qed.

(** The ways out of the [try] block. *)
Lemma coerce_counts_cases (E : env) (new e : pyval) :
  coerce_counts E new e = Raise OverflowError
  \/ ((PyVal.py_int E new = PyVal.IntValueError
       \/ PyVal.py_int E new = PyVal.IntTypeError)
      /\ coerce_counts E new e = Ok (new, e))
  \/ (e <> PNone
      /\ (PyVal.py_int E e = PyVal.IntValueError
          \/ PyVal.py_int E e = PyVal.IntTypeError)
      /\ coerce_counts E new e = Ok (new, e))
  \/ (exists n, PyVal.py_int E new = PyVal.IntOk n /\ e = PNone
                /\ coerce_counts E new e = Ok (PInt n, PNone))
  \/ (exists n z, PyVal.py_int E new = PyVal.IntOk n /\ e <> PNone
                  /\ PyVal.py_int E e = PyVal.IntOk z
                  /\ coerce_counts E new e = Ok (PInt n, PInt z)).
Proof.
  unfold coerce_counts.
  destruct (PyVal.py_int E new) as [n | | |] eqn:Hn.
  - destruct e as [| eb | en | ef | es | el | efs].
    + right; right; right; left. exists n. auto.
    + right; right; right; right. exists n, (if eb then 1 else 0).
      repeat split; discriminate.
    + right; right; right; right. exists n, en. repeat split; discriminate.
    + destruct (PyVal.py_int E (PFloat ef)) as [z | | |] eqn:Hz.
      * right; right; right; right. exists n, z. repeat split; discriminate.
      * right; right; left. repeat split; auto; discriminate.
      * right; right; left. repeat split; auto; discriminate.
      * now left.
    + destruct (PyVal.py_int E (PStr es)) as [z | | |] eqn:Hz.
      * right; right; right; right. exists n, z. repeat split; discriminate.
      * right; right; left. repeat split; auto; discriminate.
      * right; right; left. repeat split; auto; discriminate.
      * now left.
    + right; right; left. repeat split; auto; discriminate.
    + right; right; left. repeat split; auto; discriminate.
  - right; left. auto.
  - right; left. auto.
  - now left.
Qed.

(** A count that is present and not zero is never overwritten. *)
Lemma merged_keeps_nonzero (E : env) (e new v : pyval) (b : bool) :
  present_nonzero E e = true ->
  merged_count E e new = Ok (v, b) ->
  b = false /\ v = e.
Proof.
  intros Hp Hm.
  assert (Hb : b = false).
  { revert Hm. unfold merged_count.
    destruct (PyVal.is_none new); [intros H; now inversion H |].
    unfold present_nonzero in Hp.
    apply andb_true_iff in Hp. destruct Hp as [Hp Hint].
    apply andb_true_iff in Hp. destruct Hp as [Hnone Hzero].
    apply negb_true_iff in Hnone. apply negb_true_iff in Hzero.
    destruct (coerce_counts_cases E new e)
      as [H | [[_ H] | [(_ & _ & H) | [(n & _ & He & H)
                                      | (n & z & _ & _ & Hz & H)]]]];
      rewrite H; cbn [bind].
    - discriminate.
    - rewrite Hnone, Hzero. simpl. intros H'. now inversion H'.
    - rewrite Hnone, Hzero. simpl. intros H'. now inversion H'.
    - subst e. discriminate.
    - rewrite Hz in Hint. apply negb_true_iff in Hint.
      rewrite py_eq_int_zero, Hint. simpl. intros H'. now inversion H'. }
  split; [exact Hb |]. subst b. eapply merged_unchanged; eassumption.
Qed.

Lemma ensure_id_frame (E : env) (a a' : album) (i : string) (rng rng' : nat) :
  ensure_id E a rng = (i, a', rng') ->
  title a' = title a /\ url a' = url a /\ itemCount a' = itemCount a
  /\ PyStr.truthy i = true.
Proof.
  assert (Hgen : forall n, PyStr.truthy (fst (generate_unique_id E n)) = true).
  { intros n. unfold generate_unique_id, uuid_str. simpl.
    destruct (firstn 8 (hex_digits 32 (uuid4 E n) [])); reflexivity. }
  unfold ensure_id.
  destruct (album_id a) as [j |] eqn:Hid.
  - destruct (PyStr.truthy j) eqn:Hj.
    + intros H; inversion H; subst. auto.
    + pose proof (Hgen rng) as Hg.
      destruct (generate_unique_id E rng) as [k r].
      intros H; inversion H; subst. simpl in *. auto.
  - pose proof (Hgen rng) as Hg.
    destruct (generate_unique_id E rng) as [k r].
    intros H; inversion H; subst. simpl in *. auto.
Qed.

(** What one iteration of the bulk loop does to the dictionary. *)
Lemma bulk_body_spec (E : env) (c : candidate) (st st' : bulk_state) :
  bulk_body E c st = Ok st' ->
  let u := PyStr.strip (c_url c) in
  (PyStr.truthy u = false /\ st' = st)
  \/ (PyStr.truthy u = true
      /\ exists a a' v b i,
          dict_get u (dict st) = Some a
          /\ merged_count E (itemCount a) (c_itemCount c) = Ok (v, b)
          /\ itemCount a' = v /\ title a' = title a /\ url a' = url a
          /\ dict st' = dict_set u a' (dict st)
          /\ added_ids st' = added_ids st
          /\ updated_ids st' = (if b then updated_ids st ++ [i]
                                else updated_ids st))
  \/ (PyStr.truthy u = true
      /\ dict_get u (dict st) = None
      /\ exists a' i,
          url a' = u /\ itemCount a' = c_itemCount c
          /\ dict st' = dict_set u a' (dict st)
          /\ added_ids st' = added_ids st ++ [i]
          /\ updated_ids st' = updated_ids st).
Proof.
  unfold bulk_body. cbv zeta.
  destruct (PyStr.truthy (PyStr.strip (c_url c))) eqn:Hu; simpl.
  2: { intros H; inversion H; subst. left. auto. }
  destruct (dict_get (PyStr.strip (c_url c)) (dict st)) as [a |] eqn:Hget.
  - destruct (ensure_id E a (seed st)) as [[i a0] rng'] eqn:Hid.
    apply ensure_id_frame in Hid. destruct Hid as (Ht & Hurl & Hcount & _).
    rewrite update_item_count_merged, Hcount.
    destruct (merged_count E (itemCount a) (c_itemCount c)) as [[v b] |] eqn:Hm;
      simpl; [| discriminate].
    intros H. right. left. split; [reflexivity |].
    exists a, (if b then set_itemCount a0 v else a0), v, b, i.
    split; [reflexivity |]. split; [exact Hm |].
    destruct b; inversion H; subst; simpl.
    + repeat split; auto.
    + apply merged_unchanged in Hm. subst v. repeat split; auto.
  - unfold generate_unique_id.
    intros H. inversion H; subst; simpl. right. right.
    split; [reflexivity |]. split; [reflexivity |].
    eexists _, _.
    split; [| split; [| split; [reflexivity | split; reflexivity]]];
      reflexivity.
Qed.

End MergeFacts.

Module IngestFacts.
Import Store Ingest MergeFacts.

(** What the single-album import does to the dictionary. *)
Lemma single_spec (E : env) (c : candidate) (dct dct' : albums_dict)
      (rng rng' : nat) (o : outcome) :
  process_single_album E c dct rng = Ok (o, dct', rng') ->
  let u := PyStr.strip (c_url c) in
  (PyStr.truthy u = false /\ dct' = dct)
  \/ (PyStr.truthy u = true
      /\ exists a a' v b,
          dict_get u dct = Some a
          /\ merged_count E (itemCount a) (c_itemCount c) = Ok (v, b)
          /\ itemCount a' = v /\ title a' = title a /\ url a' = url a
          /\ dct' = dict_set u a' dct)
  \/ (PyStr.truthy u = true
      /\ dict_get u dct = None
      /\ exists a',
          url a' = u /\ itemCount a' = c_itemCount c
          /\ dct' = dict_set u a' dct).
Proof.
  unfold process_single_album. cbv zeta.
  destruct (PyStr.truthy (PyStr.strip (c_url c))) eqn:Hu; cbn [negb].
  2: { intros H; inversion H; subst. left. auto. }
  set (start_date := if truthy (c_startDate c) then _ else None).
  set (end_date := if truthy (c_endDate c) then _ else None).
  set (date_range := if truthy start_date then _ else None).
  clearbody date_range. clearbody start_date end_date.
  destruct (dict_get (PyStr.strip (c_url c)) dct) as [a |] eqn:Hget.
  - destruct (ensure_id E a rng) as [[i a0] rng0] eqn:Hid.
    apply ensure_id_frame in Hid. destruct Hid as (Ht & Hurl & Hcount & _).
    rewrite update_item_count_merged, Hcount.
    destruct (merged_count E (itemCount a) (c_itemCount c)) as [[v b] |] eqn:Hm;
      cbn [bind fst snd]; [| discriminate].
    set (a1 := if b then set_itemCount a0 v else a0).
    assert (H1 : title a1 = title a /\ url a1 = url a /\ itemCount a1 = v).
    { subst a1. destruct b; simpl; [auto |].
      apply merged_unchanged in Hm. subst v. auto. }
    clearbody a1.
    set (r1 := if truthy date_range then _ else (a1, b)).
    assert (H2 : title (fst r1) = title a /\ url (fst r1) = url a
                 /\ itemCount (fst r1) = v).
    { subst r1. destruct (truthy date_range); [destruct (negb _) |];
        simpl; auto. }
    clearbody r1. destruct r1 as [a2 u2]. cbv beta iota zeta. simpl in H2.
    set (r2 := if truthy start_date then _ else (a2, u2)).
    assert (H3 : title (fst r2) = title a /\ url (fst r2) = url a
                 /\ itemCount (fst r2) = v).
    { subst r2. destruct (truthy start_date); [destruct (negb _) |];
        simpl; auto. }
    clearbody r2. destruct r2 as [a3 u3]. cbv beta iota zeta. simpl in H3.
    set (r3 := if truthy end_date then _ else (a3, u3)).
    assert (H4 : title (fst r3) = title a /\ url (fst r3) = url a
                 /\ itemCount (fst r3) = v).
    { subst r3. destruct (truthy end_date); [destruct (negb _) |];
        simpl; auto. }
    clearbody r3. destruct r3 as [a4 u4]. simpl in H4.
    destruct H4 as (H4t & H4u & H4c).
    intros H. right. left. split; [reflexivity |].
    exists a, a4, v, b.
    destruct u4; inversion H; subst; auto 10.
  - unfold generate_unique_id.
    intros H. inversion H; subst; simpl. right. right.
    split; [reflexivity |]. split; [reflexivity |].
    eexists.
    split; [| split; [| reflexivity]]; reflexivity.
Qed.

Section Kept.

(** A relation between the album found under a url before an ingest and
    the one found there afterwards, which every merge step respects. *)
Variable E : env.
Variable P : album -> album -> Prop.
Hypothesis P_refl : forall a, P a a.
Hypothesis P_trans : forall a b c, P a b -> P b c -> P a c.
Hypothesis P_merge :
  forall a a' new v b,
    merged_count E (itemCount a) new = Ok (v, b) ->
    itemCount a' = v -> title a' = title a -> P a a'.

Lemma kept_refl (d : albums_dict) : kept P d d.
Proof. intros u a H. exists a. auto. Qed.

Lemma kept_trans (d1 d2 d3 : albums_dict) :
  kept P d1 d2 -> kept P d2 d3 -> kept P d1 d3.
Proof.
  intros H12 H23 u a H.
  destruct (H12 u a H) as (a' & H' & Hp).
  destruct (H23 u a' H') as (a'' & H'' & Hp').
  exists a''. split; [exact H'' |]. eapply P_trans; eassumption.
Qed.

Lemma kept_existing (d : albums_dict) (u : string) (a a' : album) :
  dict_get u d = Some a -> P a a' -> kept P d (dict_set u a' d).
Proof.
  intros Hget Hp w x Hw. rewrite dict_get_set.
  destruct (String.eqb_spec w u) as [-> | Hne].
  - rewrite Hget in Hw. inversion Hw; subst. exists a'. auto.
  - exists x. auto.
Qed.

Lemma kept_new (d : albums_dict) (u : string) (a' : album) :
  dict_get u d = None -> kept P d (dict_set u a' d).
Proof.
  intros Hget w x Hw. rewrite dict_get_set.
  destruct (String.eqb_spec w u) as [-> | Hne].
  - rewrite Hget in Hw. discriminate.
  - exists x. auto.
Qed.

Lemma single_kept (c : candidate) (dct dct' : albums_dict)
      (rng rng' : nat) (o : outcome) :
  process_single_album E c dct rng = Ok (o, dct', rng') -> kept P dct dct'.
Proof.
  intros H. apply single_spec in H. cbv zeta in H.
  destruct H as [[_ ->] | [(_ & a & a' & v & b & Hget & Hm & Hv & Ht & _ & ->)
                          | (_ & Hget & a' & _ & _ & ->)]].
  - apply kept_refl.
  - eapply kept_existing; [exact Hget |]. eapply P_merge; eassumption.
  - now apply kept_new.
Qed.

Lemma bulk_body_kept (c : candidate) (st st' : bulk_state) :
  bulk_body E c st = Ok st' -> kept P (dict st) (dict st').
Proof.
  intros H. apply bulk_body_spec in H. cbv zeta in H.
  destruct H as [[_ ->] | [(_ & a & a' & v & b & i & Hget & Hm & Hv & Ht
                            & _ & -> & _)
                          | (_ & Hget & a' & i & _ & _ & -> & _)]].
  - apply kept_refl.
  - eapply kept_existing; [exact Hget |]. eapply P_merge; eassumption.
  - now apply kept_new.
Qed.

Lemma bulk_loop_kept (batch : list candidate)
      (st st' : bulk_state) :
  bulk_loop E batch st = Ok st' -> kept P (dict st) (dict st').
Proof.
  revert st. induction batch as [| c batch IH]; intros st; simpl.
  - intros H; inversion H; subst. apply kept_refl.
  - destruct (bulk_body E c st) as [st1 |] eqn:Hb; simpl; [| discriminate].
    intros H. eapply kept_trans.
    + eapply bulk_body_kept; eassumption.
    + now apply IH.
Qed.

Lemma ingested_kept (data : input) (dct dct' : albums_dict)
      (rng : nat) :
  ingested E data dct rng = Ok dct' -> kept P dct dct'.
Proof.
  unfold ingested. destruct data as [| | c | batch |].
  - intros H; inversion H; subst. apply kept_refl.
  - intros H; inversion H; subst. apply kept_refl.
  - destruct (process_single_album E c dct rng) as [[[o d1] r1] |] eqn:Hs;
      simpl; [| discriminate].
    intros H; inversion H; subst. eapply single_kept; eassumption.
  - unfold process_bulk_albums.
    destruct (bulk_loop E batch _) as [st |] eqn:Hl; simpl; [| discriminate].
    intros H; inversion H; subst.
    apply bulk_loop_kept in Hl. exact Hl.
  - intros H; inversion H; subst. apply kept_refl.
Qed.

End Kept.

(** No ingest changes the title of an album of the store. *)
Lemma ingested_keeps_title (E : env) (data : input)
      (dct dct' : albums_dict) (rng : nat) (u : string) (a : album) :
  ingested E data dct rng = Ok dct' ->
  dict_get u dct = Some a ->
  exists a', dict_get u dct' = Some a' /\ title a' = title a.
Proof.
  intros H Hget.
  refine (@ingested_kept E (fun a a' => title a' = title a) _ _ _
                         data dct dct' rng H u a Hget).
  - reflexivity.
  - intros x y z Hxy Hyz. congruence.
  - intros x y new v b _ _ Ht. exact Ht.
Qed.

(** C1. When a candidate meets an existing album under its url, in the
    single import or in an iteration of the bulk import, the album's
    itemCount is overwritten only if the candidate supplies a count, the
    existing count is absent or zero, and the new count differs from it
    (both as integers, or both as they are when one does not convert); the
    count stored is then the new one as it was compared.  In particular no
    ingest, single or batch, changes a count that is present and not
    zero. *)
Theorem item_count_fill_only (E : env) :
  (forall c dct rng o dct' rng' a,
      process_single_album E c dct rng = Ok (o, dct', rng') ->
      dict_get (PyStr.strip (c_url c)) dct = Some a ->
      overwrite_rule E c a dct')
  /\ (forall c st st' a,
         bulk_body E c st = Ok st' ->
         dict_get (PyStr.strip (c_url c)) (dict st) = Some a ->
         overwrite_rule E c a (dict st'))
  /\ (forall data dct rng dct' u a,
         ingested E data dct rng = Ok dct' ->
         dict_get u dct = Some a ->
         present_nonzero E (itemCount a) = true ->
         exists a', dict_get u dct' = Some a'
                    /\ itemCount a' = itemCount a).
Proof.
  assert (Hrule : forall c a a' v b d,
             dict_get (PyStr.strip (c_url c)) d = Some a ->
             merged_count E (itemCount a) (c_itemCount c) = Ok (v, b) ->
             itemCount a' = v ->
             overwrite_rule E c a (dict_set (PyStr.strip (c_url c)) a' d)).
  { intros c a a' v b d Hget Hm Hv. exists a'.
    rewrite dict_get_set, String.eqb_refl. split; [reflexivity |].
    split; [| split].
    - intros Hne. destruct b.
      + destruct (merged_overwrites_only_if Hm) as (H1 & H2 & H3 & H4).
        split; [exact H1 | split; [exact H2 | split; [exact H3 |]]].
        congruence.
      + apply merged_unchanged in Hm. congruence.
    - intros _ H1 H2 H3.
      destruct (merged_overwrites_if Hm H1 H2 H3) as [_ H4]. congruence.
    - intros Hp. destruct (merged_keeps_nonzero Hp Hm) as [_ ->].
      exact Hv. }
  assert (Hsame : forall c a d,
             PyStr.truthy (PyStr.strip (c_url c)) = false ->
             dict_get (PyStr.strip (c_url c)) d = Some a ->
             overwrite_rule E c a d).
  { intros c a d Hu Hget. exists a. split; [exact Hget |].
    split; [congruence | split; [congruence | reflexivity]]. }
  split; [| split].
  - intros c dct rng o dct' rng' a H Hget.
    apply single_spec in H. cbv zeta in H.
    destruct H as [[Hu ->] | [(_ & a0 & a' & v & b & Hget' & Hm & Hv & _ & _
                                & ->)
                             | (_ & Hnone & _)]].
    + now apply Hsame.
    + rewrite Hget in Hget'. inversion Hget'; subst a0.
      eapply Hrule; eassumption.
    + congruence.
  - intros c st st' a H Hget.
    apply bulk_body_spec in H. cbv zeta in H.
    destruct H as [[Hu ->] | [(_ & a0 & a' & v & b & i & Hget' & Hm & Hv & _
                                & _ & -> & _)
                             | (_ & Hnone & _)]].
    + now apply Hsame.
    + rewrite Hget in Hget'. inversion Hget'; subst a0.
      eapply Hrule; eassumption.
    + congruence.
  - intros data dct rng dct' u a H Hget Hp.
    destruct (@ingested_kept E
                (fun a a' => present_nonzero E (itemCount a) = true ->
                             itemCount a' = itemCount a)
                (fun _ _ => eq_refl)
                (fun x y z Hxy Hyz Hx =>
                   eq_trans (Hyz (eq_ind_r
                                    (fun t => present_nonzero E t = true)
                                    Hx (Hxy Hx)))
                            (Hxy Hx))
                (fun x y new v b Hm Hv _ Hx =>
                   eq_trans Hv (proj2 (merged_keeps_nonzero Hx Hm)))
                data dct dct' rng H u a Hget) as (a' & Hget' & Hkeep).
    exists a'. auto.
Qed.

(** A count of 0 meets a candidate count that [int] refuses: the two
    are compared as they are, they differ, and the string is stored.  A
    count of 0 meets the string ["0"]: both are 0 as integers, and nothing
    is stored. *)
Example merge_with_unconvertible_count :
  update_item_count Samples.E0 Samples.spring
                    (PStr (String Samples.file_separator "0"))
  = Ok (set_itemCount Samples.spring
                      (PStr (String Samples.file_separator "0")), true)
  /\ compared Samples.E0 (PStr (String Samples.file_separator "0")) (PInt 0)
     = (PStr (String Samples.file_separator "0"), PInt 0)
  /\ update_item_count Samples.E0 Samples.spring (PStr "0")
     = Ok (Samples.spring, false)
  /\ compared Samples.E0 (PStr "0") (PInt 0) = (PInt 0, PInt 0).
Proof. repeat split; vm_compute; reflexivity. Qed.

End IngestFacts.

Module IngestWitness.
Import Store Samples Ingest.

Lemma item_count_fill_only_witness :
  (exists o dct' rng',
      process_single_album E0 scraped_spring sample_dict 0
      = Ok (o, dct', rng')
      /\ overwrite_rule E0 scraped_spring spring dct')
  /\ (exists dct',
         ingested E0 (Bulk [scraped_trip; scraped_new; scraped_spring])
                  sample_dict 0 = Ok dct'
         /\ present_nonzero E0 (itemCount trip) = true
         /\ exists a', dict_get url_a dct' = Some a'
                       /\ itemCount a' = itemCount trip).
Proof.
  destruct (IngestFacts.item_count_fill_only E0) as (Hsingle & _ & Hbatch).
  split.
  - destruct (process_single_album E0 scraped_spring sample_dict 0)
      as [[[o dct'] rng'] |] eqn:Hs; [| vm_compute in Hs; discriminate].
    exists o, dct', rng'. split; [reflexivity |].
    exact (Hsingle scraped_spring sample_dict 0%nat o dct' rng' spring Hs
                   (eq_refl : dict_get (PyStr.strip (c_url scraped_spring))
                                       sample_dict = Some spring)).
  - destruct (ingested E0 (Bulk [scraped_trip; scraped_new; scraped_spring])
                       sample_dict 0) as [dct' |] eqn:Hb;
      [| vm_compute in Hb; discriminate].
    exists dct'. split; [reflexivity |]. split; [reflexivity |].
    exact (Hbatch _ sample_dict 0%nat dct' url_a trip Hb
                  (eq_refl : dict_get url_a sample_dict = Some trip)
                  (eq_refl : present_nonzero E0 (itemCount trip) = true)).
Defined.

End IngestWitness.

(** ** Ingest: idempotence *)

Module IdempotenceFacts.
Import Store Ingest MergeFacts.

(** *** Counts that a later ingest leaves alone *)

Lemma settled_none (E : env) (e : pyval) : settled E PNone e.
Proof. intros v b H. unfold merged_count in H. simpl in H. now inversion H. Qed.

Lemma settled_overflow (E : env) (new e : pyval) :
  PyVal.py_int E new = PyVal.IntOverflowError -> settled E new e.
Proof.
  intros Hn v b H. unfold merged_count in H.
  destruct (PyVal.is_none new); [now inversion H |].
  unfold coerce_counts in H. rewrite Hn in H. discriminate.
Qed.

(** A non-zero integer is left alone by every candidate. *)
Lemma settled_nonzero_int (E : env) (new : pyval) (k : Z) :
  k <> 0 -> settled E new (PInt k).
Proof.
  intros Hk v b H.
  assert (Hp : present_nonzero E (PInt k) = true).
  { unfold present_nonzero. simpl PyVal.is_none. simpl PyVal.py_int.
    rewrite py_eq_int_zero.
    destruct (Z.eqb_spec k 0); [contradiction | reflexivity]. }
  now destruct (merged_keeps_nonzero Hp H).
Qed.

(** So is a value that [int] rejects with a caught exception. *)
Lemma settled_caught (E : env) (new e : pyval) :
  e <> PNone ->
  PyVal.py_int E e = PyVal.IntValueError \/ PyVal.py_int E e = PyVal.IntTypeError ->
  settled E new e.
Proof.
  intros Hne Hc v b H.
  assert (Hp : present_nonzero E e = true).
  { unfold present_nonzero. rewrite (caught_not_zero Hc).
    destruct Hc as [Hc | Hc]; rewrite Hc; destruct e; simpl; congruence. }
  now destruct (merged_keeps_nonzero Hp H).
Qed.

(** What an overwrite leaves in the album. *)
Lemma overwritten_value (E : env) (e new v : pyval) :
  merged_count E e new = Ok (v, true) ->
  (forall new', settled E new' v)
  \/ (e = PNone /\ v = PInt 0 /\ PyVal.py_int E new = PyVal.IntOk 0).
Proof.
  unfold merged_count.
  destruct (PyVal.is_none new) eqn:Hnew; [discriminate |].
  destruct (coerce_counts_cases E new e)
    as [H | [[Hc H] | [(Hne & Hc & H) | [(n & Hn & He & H)
                                        | (n & z & Hn & Hne & Hz & H)]]]];
    rewrite H; cbn [bind].
  - discriminate.
  - destruct ((PyVal.is_none e || PyVal.py_eq e (PInt 0)) && PyVal.py_ne e new);
      [| discriminate].
    intros H'. inversion H'; subst. left. intros new'.
    apply settled_caught; [| exact Hc].
    intros ->. discriminate.
  - rewrite (caught_not_zero Hc).
    destruct e; try contradiction; simpl; discriminate.
  - simpl. intros H'. inversion H'; subst.
    destruct (Z.eq_dec n 0) as [-> | Hn0].
    + right. auto.
    + left. intros new'. now apply settled_nonzero_int.
  - simpl PyVal.is_none. rewrite py_eq_int_zero. cbn [orb].
    unfold PyVal.py_ne. rewrite py_eq_ints.
    destruct (Z.eqb_spec z 0) as [-> | Hz0]; cbn [andb]; [| discriminate].
    destruct (Z.eqb_spec 0 n) as [<- | Hn0]; cbn [negb]; [discriminate |].
    intros H'. inversion H'; subst. left. intros new'.
    apply settled_nonzero_int. congruence.
Qed.

(** A candidate that would leave an absent count alone supplies none, or
    makes the conversion overflow. *)
Lemma settled_absent (E : env) (new : pyval) :
  settled E new PNone ->
  new = PNone \/ PyVal.py_int E new = PyVal.IntOverflowError.
Proof.
  intros Hs. unfold settled, merged_count in Hs.
  destruct (PyVal.is_none new) eqn:Hnew;
    [left; destruct new; simpl in Hnew; congruence |].
  right.
  assert (Hne : PyVal.py_ne PNone new = true)
    by (unfold PyVal.py_ne; destruct new; simpl in *; congruence).
  destruct (coerce_counts_cases E new PNone)
    as [H | [[Hc H] | [(Hn & _) | [(n0 & Hn & _ & H)
                                  | (n0 & z & _ & Hn & _)]]]];
    try contradiction.
  - unfold coerce_counts in H.
    destruct (PyVal.py_int E new); try discriminate. reflexivity.
  - rewrite H in Hs. cbn [bind] in Hs. simpl PyVal.is_none in Hs.
    rewrite Hne in Hs. specialize (Hs _ _ eq_refl). discriminate.
  - rewrite H in Hs. cbn [bind] in Hs. simpl in Hs.
    specialize (Hs _ _ eq_refl). discriminate.
Qed.

(** Once a candidate has been merged, merging it again changes nothing. *)
Lemma settled_after_merge (E : env) (e new v : pyval) (b : bool) :
  merged_count E e new = Ok (v, b) -> settled E new v.
Proof.
  intros Hm. destruct b.
  - destruct (overwritten_value Hm) as [Hf | (-> & -> & Hn)];
      [apply Hf |].
    intros v' b' H. unfold merged_count in H.
    destruct (PyVal.is_none new); [now inversion H |].
    unfold coerce_counts in H. rewrite Hn in H. simpl in H.
    now inversion H.
  - pose proof (merged_unchanged Hm) as Hv. subst v.
    intros v' b' H. rewrite Hm in H. now inversion H.
Qed.

(** Merging another candidate does not unsettle a settled one. *)
Lemma settled_preserved (E : env) (e new0 new v : pyval) (b : bool) :
  settled E new0 e -> merged_count E e new = Ok (v, b) -> settled E new0 v.
Proof.
  intros Hs Hm. destruct b.
  - destruct (overwritten_value Hm) as [Hf | (-> & -> & Hn)];
      [apply Hf |].
    destruct (settled_absent Hs) as [-> | Ho].
    + apply settled_none.
    + now apply settled_overflow.
  - apply merged_unchanged in Hm. now subst v.
Qed.

(** A new album stores the candidate's count as it is; the candidate
    leaves that count alone. *)
Lemma settled_self (E : env) (new : pyval) : settled E new new.
Proof.
  intros v b H. unfold merged_count in H.
  destruct (PyVal.is_none new) eqn:Hnew; [now inversion H |].
  destruct (coerce_counts_cases E new new)
    as [Hc | [[Hc Hr] | [(_ & Hc & Hr) | [(n & _ & -> & _)
                                        | (n & z & Hn & _ & Hz & Hr)]]]].
  - rewrite Hc in H. discriminate.
  - rewrite Hr in H. cbn [bind] in H.
    rewrite Hnew, (caught_not_zero Hc) in H. simpl in H. now inversion H.
  - rewrite Hr in H. cbn [bind] in H.
    rewrite Hnew, (caught_not_zero Hc) in H. simpl in H. now inversion H.
  - discriminate.
  - rewrite Hr in H. cbn [bind] in H.
    assert (n = z) by congruence. subst z. cbv beta iota in H.
    unfold PyVal.py_ne in H. rewrite (py_eq_ints n n), Z.eqb_refl in H.
    rewrite andb_false_r in H. now inversion H.
Qed.


(** *** The bulk loop seen through the counts *)

Lemma counts_at_set (w u : string) (a : album) (d : albums_dict) :
  counts_at w (dict_set u a d)
  = if String.eqb w u then Some (itemCount a) else counts_at w d.
Proof.
  unfold counts_at. rewrite dict_get_set.
  destruct (String.eqb w u); reflexivity.
Qed.

Lemma touched_step (st st' : bulk_state) (l : list string) :
  added_ids st' = added_ids st ->
  updated_ids st' = updated_ids st ++ l ->
  touched st' = (touched st + List.length l)%nat.
Proof.
  intros Ha Hu. unfold touched. rewrite Ha, Hu, length_app. lia.
Qed.

(** One iteration, as far as counts and outcomes go. *)
Lemma bulk_body_counts (E : env) (c : candidate) (st st' : bulk_state) :
  bulk_body E c st = Ok st' ->
  let u := PyStr.strip (c_url c) in
  (PyStr.truthy u = false /\ st' = st)
  \/ (PyStr.truthy u = true
      /\ exists e v b,
          counts_at u (dict st) = Some e
          /\ merged_count E e (c_itemCount c) = Ok (v, b)
          /\ (forall w, counts_at w (dict st')
                        = if String.eqb w u then Some v
                          else counts_at w (dict st))
          /\ touched st' = (touched st + if b then 1 else 0)%nat)
  \/ (PyStr.truthy u = true
      /\ counts_at u (dict st) = None
      /\ (forall w, counts_at w (dict st')
                    = if String.eqb w u then Some (c_itemCount c)
                      else counts_at w (dict st))
      /\ touched st' = S (touched st)).
Proof.
  intros H. apply bulk_body_spec in H. cbv zeta in *.
  destruct H as [H | [(Hu & a & a' & v & b & i & Hget & Hm & Hv & _ & _
                       & Hd & Ha & Hup)
                     | (Hu & Hget & a' & i & _ & Hc & Hd & Ha & Hup)]].
  - now left.
  - right. left. split; [exact Hu |]. exists (itemCount a), v, b.
    unfold counts_at at 1. rewrite Hget. split; [reflexivity |].
    split; [exact Hm |]. split.
    + intros w. rewrite Hd, counts_at_set, Hv. reflexivity.
    + destruct b.
      * rewrite (@touched_step st st' [i] Ha Hup). reflexivity.
      * rewrite (@touched_step st st' [] Ha); simpl; [lia |].
        now rewrite app_nil_r.
  - right. right. split; [exact Hu |].
    unfold counts_at at 1. rewrite Hget. split; [reflexivity |]. split.
    + intros w. rewrite Hd, counts_at_set, Hc. reflexivity.
    + unfold touched. rewrite Ha, Hup, length_app. simpl. lia.
Qed.

(** When an iteration raises. *)
Lemma bulk_body_raises (E : env) (c : candidate) (st : bulk_state)
      (err : pyerror) :
  bulk_body E c st = Raise err <->
  PyStr.truthy (PyStr.strip (c_url c)) = true
  /\ exists e, counts_at (PyStr.strip (c_url c)) (dict st) = Some e
               /\ merged_count E e (c_itemCount c) = Raise err.
Proof.
  unfold bulk_body, counts_at.
  destruct (PyStr.truthy (PyStr.strip (c_url c))); simpl.
  2: { split; [discriminate | intros [H _]; discriminate]. }
  destruct (dict_get (PyStr.strip (c_url c)) (dict st)) as [a |]; simpl.
  - destruct (ensure_id E a (seed st)) as [[i a0] rng'] eqn:Hid.
    apply ensure_id_frame in Hid. destruct Hid as (_ & _ & Hcount & _).
    rewrite update_item_count_merged, Hcount.
    destruct (merged_count E (itemCount a) (c_itemCount c)) as [[v b] |] eqn:Hm;
      simpl.
    + split.
      * destruct b; discriminate.
      * intros [_ (e & He & Hr)]. inversion He; subst. congruence.
    + split.
      * intros H. inversion H; subst. split; [reflexivity |].
        exists (itemCount a). auto.
      * intros [_ (e1 & He & Hr)]. inversion He; subst. congruence.
  - destruct (generate_unique_id E (seed st)).
    split; [discriminate | intros [_ (e & He & _)]; discriminate].
Qed.


(** Two runs of an iteration from dictionaries with the same counts end
    alike: both raise, or both go on with the same counts again and the
    same number of albums touched. *)
Lemma bulk_body_bisim (E : env) (c : candidate) (st st2 : bulk_state) :
  same_counts (dict st) (dict st2) ->
  match bulk_body E c st, bulk_body E c st2 with
  | Ok s, Ok s2 =>
      same_counts (dict s) (dict s2)
      /\ (touched s + touched st2 = touched s2 + touched st)%nat
  | Raise _, Raise _ => True
  | _, _ => False
  end.
Proof.
  intros Hsame.
  pose proof (Hsame (PyStr.strip (c_url c))) as Hu.
  destruct (bulk_body E c st) as [s | err] eqn:H1,
           (bulk_body E c st2) as [s2 | err2] eqn:H2.
  - apply bulk_body_counts in H1. apply bulk_body_counts in H2.
    cbv zeta in *.
    destruct H1 as [[Ht1 ->] | [(Ht1 & e1 & v1 & b1 & He1 & Hm1 & Hc1 & Hn1)
                               | (Ht1 & He1 & Hc1 & Hn1)]];
      destruct H2 as [[Ht2 ->] | [(Ht2 & e2 & v2 & b2 & He2 & Hm2 & Hc2 & Hn2)
                                 | (Ht2 & He2 & Hc2 & Hn2)]];
      try congruence.
    + split; [exact Hsame | lia].
    + assert (e1 = e2) by congruence. subst e2.
      assert (Heq : (v1, b1) = (v2, b2)) by congruence.
      inversion Heq; subst. split; [| lia].
      intros w. rewrite Hc1, Hc2, (Hsame w). reflexivity.
    + split; [| lia].
      intros w. rewrite Hc1, Hc2, (Hsame w). reflexivity.
  - apply bulk_body_raises in H2. destruct H2 as (Ht2 & e2 & He2 & Hm2).
    apply bulk_body_counts in H1. cbv zeta in *.
    destruct H1 as [[Ht1 _] | [(_ & e1 & v1 & b1 & He1 & Hm1 & _)
                              | (_ & He1 & _)]]; congruence.
  - apply bulk_body_raises in H1. destruct H1 as (Ht1 & e1 & He1 & Hm1).
    apply bulk_body_counts in H2. cbv zeta in *.
    destruct H2 as [[Ht2 _] | [(_ & e2 & v2 & b2 & He2 & Hm2 & _)
                              | (_ & He2 & _)]]; congruence.
  - exact I.
Qed.

Lemma bulk_loop_bisim (E : env) (batch : list candidate)
      (st st2 : bulk_state) :
  same_counts (dict st) (dict st2) ->
  match bulk_loop E batch st, bulk_loop E batch st2 with
  | Ok s, Ok s2 =>
      same_counts (dict s) (dict s2)
      /\ (touched s + touched st2 = touched s2 + touched st)%nat
  | Raise _, Raise _ => True
  | _, _ => False
  end.
Proof.
  revert st st2. induction batch as [| c batch IH]; intros st st2 Hsame.
  - simpl. split; [exact Hsame | lia].
  - simpl. pose proof (bulk_body_bisim E c Hsame) as Hb.
    destruct (bulk_body E c st) as [s |], (bulk_body E c st2) as [s2 |];
      simpl; try contradiction; [| exact I].
    destruct Hb as [Hs Ht]. specialize (IH s s2 Hs).
    destruct (bulk_loop E batch s) as [s' |],
             (bulk_loop E batch s2) as [s2' |]; try contradiction;
      [| exact I].
    destruct IH as [Hs' Ht']. split; [exact Hs' | lia].
Qed.

(** *** Candidates already merged are stable *)

Lemma stable_after_body (E : env) (c : candidate) (st st' : bulk_state) :
  bulk_body E c st = Ok st' -> stable E c (dict st').
Proof.
  intros H. apply bulk_body_counts in H. cbv zeta in H. unfold stable.
  destruct H as [[Ht _] | [(_ & e & v & b & _ & Hm & Hc & _)
                          | (_ & _ & Hc & _)]].
  - now left.
  - right. exists v. rewrite Hc, String.eqb_refl. split; [reflexivity |].
    eapply settled_after_merge; eassumption.
  - right. exists (c_itemCount c). rewrite Hc, String.eqb_refl.
    split; [reflexivity | apply settled_self].
Qed.

Lemma stable_body (E : env) (c0 c : candidate) (st st' : bulk_state) :
  stable E c0 (dict st) -> bulk_body E c st = Ok st' -> stable E c0 (dict st').
Proof.
  intros Hs H. apply bulk_body_counts in H. cbv zeta in H.
  destruct Hs as [Hs | (e0 & He0 & Hs0)]; [now left |].
  destruct H as [[_ ->] | [(_ & e & v & b & He & Hm & Hc & _)
                          | (_ & He & Hc & _)]].
  - right. exists e0. auto.
  - right. rewrite Hc.
    destruct (String.eqb_spec (PyStr.strip (c_url c0))
                              (PyStr.strip (c_url c))) as [Heq | Hne].
    + exists v. split; [reflexivity |].
      rewrite Heq in He0. assert (e0 = e) by congruence. subst e0.
      eapply settled_preserved; eassumption.
    + exists e0. auto.
  - right. rewrite Hc.
    destruct (String.eqb_spec (PyStr.strip (c_url c0))
                              (PyStr.strip (c_url c))) as [Heq | Hne].
    + rewrite Heq in He0. congruence.
    + exists e0. auto.
Qed.

Lemma stable_loop (E : env) (c0 : candidate) (batch : list candidate)
      (st st' : bulk_state) :
  stable E c0 (dict st) -> bulk_loop E batch st = Ok st' ->
  stable E c0 (dict st').
Proof.
  revert st. induction batch as [| c batch IH]; intros st Hs; simpl.
  - intros H; inversion H; subst. exact Hs.
  - destruct (bulk_body E c st) as [s |] eqn:Hb; simpl; [| discriminate].
    apply IH. eapply stable_body; eassumption.
Qed.

(** After a run of the loop, every candidate of the batch is stable. *)
Lemma stable_after_loop (E : env) (batch : list candidate)
      (st st' : bulk_state) :
  bulk_loop E batch st = Ok st' ->
  Forall (fun c => stable E c (dict st')) batch.
Proof.
  revert st. induction batch as [| c batch IH]; intros st; simpl.
  - constructor.
  - destruct (bulk_body E c st) as [s |] eqn:Hb; simpl; [| discriminate].
    intros H. constructor.
    + eapply stable_loop; [| exact H]. eapply stable_after_body; eassumption.
    + eapply IH; eassumption.
Qed.

(** A run of the loop over stable candidates touches nothing. *)
Lemma stable_run (E : env) (batch : list candidate) (st st' : bulk_state) :
  Forall (fun c => stable E c (dict st)) batch ->
  bulk_loop E batch st = Ok st' ->
  touched st' = touched st.
Proof.
  revert st. induction batch as [| c batch IH]; intros st Hall; simpl.
  - intros H; inversion H; subst. reflexivity.
  - destruct (bulk_body E c st) as [s |] eqn:Hb; simpl; [| discriminate].
    inversion Hall as [| c' l' Hc Hrest]; subst.
    intros H.
    assert (Ht : touched s = touched st).
    { pose proof Hb as Hb'. apply bulk_body_counts in Hb'. cbv zeta in Hb'.
      destruct Hb' as [[_ ->] | [(Hu & e & v & b & He & Hm & _ & Hn)
                                | (Hu & He & _)]].
      - reflexivity.
      - destruct Hc as [Hc | (e0 & He0 & Hs)]; [congruence |].
        assert (e0 = e) by congruence. subst e0.
        rewrite (Hs _ _ Hm) in Hn. lia.
      - destruct Hc as [Hc | (e0 & He0 & Hs)]; congruence. }
    rewrite <- Ht. apply IH; [| exact H].
    eapply Forall_impl; [| exact Hrest].
    intros c0 Hc0. cbv beta in *. exact (stable_body Hc0 Hb).
Qed.


(** *** Reading the store file *)

(** The album that [read_existing_albums] files for a line: the album of
    the line, given an id if it had none. *)
Lemma read_loop_rec (E : env) (a : album) (r : list line)
      (acc : albums_dict) (rng : nat) :
  PyStr.truthy (url a) = true ->
  exists a' rng',
    read_loop E (Rec a :: r) acc rng
    = read_loop E r (dict_set (url a) a' acc) rng'
    /\ url a' = url a /\ itemCount a' = itemCount a.
Proof.
  intros Hu. simpl. rewrite Hu.
  destruct (album_id a).
  - exists a, rng. auto.
  - unfold generate_unique_id. eexists _, _. simpl.
    split; [reflexivity |]. auto.
Qed.

Lemma read_loop_same (E : env) (ls : list line) (acc acc2 : albums_dict)
      (rng rng2 : nat) :
  same_counts acc acc2 ->
  match fst (read_loop E ls acc rng), fst (read_loop E ls acc2 rng2) with
  | Some d, Some d2 => same_counts d d2
  | None, None => True
  | _, _ => False
  end.
Proof.
  revert acc acc2 rng rng2.
  induction ls as [| l ls IH]; intros acc acc2 rng rng2 Hsame.
  - exact Hsame.
  - destruct l as [| | a].
    + simpl. now apply IH.
    + exact I.
    + destruct (PyStr.truthy (url a)) eqn:Hu.
      * destruct (@read_loop_rec E a ls acc rng Hu)
          as (a1 & r1 & -> & Hu1 & Hc1).
        destruct (@read_loop_rec E a ls acc2 rng2 Hu)
          as (a2 & r2 & -> & Hu2 & Hc2).
        apply IH. intros w. rewrite !counts_at_set, Hc1, Hc2, (Hsame w).
        reflexivity.
      * simpl. rewrite Hu. now apply IH.
Qed.

(** Two readings of one file agree on the counts, whatever ids they
    draw. *)
Lemma read_same (E : env) (d : disk) (rng rng2 : nat) :
  same_counts (fst (read_existing_albums E d rng))
              (fst (read_existing_albums E d rng2)).
Proof.
  unfold read_existing_albums. destruct (db d) as [ls |];
    [| intros w; reflexivity].
  assert (H0 : same_counts [] []) by (intros w; reflexivity).
  pose proof (@read_loop_same E ls [] [] rng rng2 H0) as H.
  destruct (read_loop E ls [] rng) as [[d1 |] r1],
           (read_loop E ls [] rng2) as [[d2 |] r2];
    simpl in *; try contradiction; auto.
Qed.

Lemma dict_get_absent (k : string) (d : albums_dict) :
  ~ In k (map fst d) -> dict_get k d = None.
Proof.
  induction d as [| [k' a] d IH]; simpl; intros H; [reflexivity |].
  destruct (String.eqb_spec k k') as [-> | Hne].
  - exfalso. apply H. now left.
  - apply IH. intros Hin. apply H. now right.
Qed.

Lemma dict_get_in (k : string) (a : album) (d : albums_dict) :
  dict_get k d = Some a -> In (k, a) d.
Proof.
  induction d as [| [k' a'] d IH]; simpl; [discriminate |].
  destruct (String.eqb_spec k k') as [-> | Hne].
  - intros H; inversion H; subst. now left.
  - intros H. right. now apply IH.
Qed.

(** Reading a file written from a well-keyed dictionary. *)
Lemma read_loop_written (E : env) (r acc : albums_dict) (rng : nat) :
  NoDup (map fst r) ->
  (forall k a, In (k, a) r -> url a = k /\ PyStr.truthy k = true) ->
  exists acc' rng',
    read_loop E (map Rec (dict_values r)) acc rng = (Some acc', rng')
    /\ forall u, counts_at u acc'
                 = match counts_at u r with
                   | Some v => Some v
                   | None => counts_at u acc
                   end.
Proof.
  revert acc rng. induction r as [| [k a] r IH]; intros acc rng Hnd Hk.
  - exists acc, rng. split; [reflexivity |]. intros u. reflexivity.
  - inversion Hnd as [| x xs Hnotin Hnd']; subst.
    destruct (Hk k a (or_introl eq_refl)) as [Hurl Htruthy].
    assert (Hu : PyStr.truthy (url a) = true) by now rewrite Hurl.
    unfold dict_values. cbn [map snd].
    destruct (@read_loop_rec E a (map Rec (map snd r)) acc rng Hu)
      as (a1 & r1 & -> & Hu1 & Hc1).
    destruct (IH (dict_set (url a) a1 acc) r1 Hnd')
      as (acc' & rng' & Hread & Hcounts).
    { intros k' a' Hin. apply Hk. now right. }
    exists acc', rng'. split; [exact Hread |].
    intros u. rewrite Hcounts, counts_at_set, Hc1, Hurl.
    unfold counts_at at 3. cbn [dict_get].
    destruct (String.eqb_spec u k) as [-> | Hne]; cbn [option_map].
    + unfold counts_at. now rewrite (dict_get_absent Hnotin).
    + reflexivity.
Qed.

Lemma read_written (E : env) (dct : albums_dict) (d : disk) (rng : nat) :
  well_keyed dct ->
  same_counts (fst (read_existing_albums E (write_albums_database dct d) rng))
              dct.
Proof.
  intros [Hnd Hk].
  unfold read_existing_albums, write_albums_database, write_database.
  cbn [db].
  destruct (@read_loop_written E dct [] rng Hnd Hk)
    as (acc' & rng' & Hread & Hcounts).
  rewrite Hread. cbn [fst].
  intros u. rewrite Hcounts. destruct (counts_at u dct); reflexivity.
Qed.

(** *** Dictionaries stay well keyed *)

Lemma in_dict_set (k k' : string) (a a' : album) (d : albums_dict) :
  In (k', a') (dict_set k a d) -> (k' = k /\ a' = a) \/ In (k', a') d.
Proof.
  induction d as [| [k0 a0] d IH]; simpl.
  - intros [H | []]. inversion H; subst. now left.
  - destruct (String.eqb_spec k k0) as [-> | Hne]; simpl.
    + intros [H | H]; [inversion H; subst; now left | right; now right].
    + intros [H | H]; [right; now left |].
      destruct (IH H) as [Hl | Hr]; [now left | right; now right].
Qed.

Lemma dict_set_keys (k : string) (a : album) (d : albums_dict) :
  (In k (map fst d) /\ map fst (dict_set k a d) = map fst d)
  \/ (~ In k (map fst d) /\ map fst (dict_set k a d) = map fst d ++ [k]).
Proof.
  induction d as [| [k0 a0] d IH]; simpl.
  - right. split; [intros [] | reflexivity].
  - destruct (String.eqb_spec k k0) as [-> | Hne]; simpl.
    + left. split; [now left | reflexivity].
    + destruct IH as [[Hin Heq] | [Hnin Heq]].
      * left. split; [now right | now rewrite Heq].
      * right. split; [| now rewrite Heq].
        intros [H | H]; [congruence | contradiction].
Qed.

Lemma well_keyed_set (k : string) (a : album) (d : albums_dict) :
  well_keyed d -> url a = k -> PyStr.truthy k = true ->
  well_keyed (dict_set k a d).
Proof.
  intros [Hnd Hk] Hurl Ht. split.
  - destruct (dict_set_keys k a d) as [[_ ->] | [Hnin ->]]; [exact Hnd |].
    apply NoDup_rev in Hnd. rewrite <- (rev_involutive (map fst d ++ [k])).
    apply NoDup_rev. rewrite rev_app_distr. simpl. constructor; [| exact Hnd].
    now rewrite <- in_rev.
  - intros k' a' Hin. apply in_dict_set in Hin.
    destruct Hin as [[-> ->] | Hin]; [auto | now apply Hk].
Qed.

Lemma well_keyed_read_loop (E : env) (ls : list line) (acc acc' : albums_dict)
      (rng rng' : nat) :
  well_keyed acc -> read_loop E ls acc rng = (Some acc', rng') ->
  well_keyed acc'.
Proof.
  revert acc rng. induction ls as [| l ls IH]; intros acc rng Hw.
  - simpl. intros H; inversion H; subst. exact Hw.
  - destruct l as [| | a].
    + simpl. now apply IH.
    + simpl. discriminate.
    + destruct (PyStr.truthy (url a)) eqn:Hu.
      * destruct (@read_loop_rec E a ls acc rng Hu)
          as (a1 & r1 & -> & Hu1 & _).
        apply IH. apply well_keyed_set; [exact Hw | exact Hu1 | exact Hu].
      * simpl. rewrite Hu. now apply IH.
Qed.

Lemma well_keyed_read (E : env) (d : disk) (rng : nat) :
  well_keyed (fst (read_existing_albums E d rng)).
Proof.
  assert (H0 : well_keyed []).
  { split; [constructor | intros k a []]. }
  unfold read_existing_albums. destruct (db d) as [ls |]; [| exact H0].
  destruct (read_loop E ls [] rng) as [[acc' |] rng'] eqn:Hr; [| exact H0].
  eapply well_keyed_read_loop; eassumption.
Qed.

Lemma well_keyed_loop (E : env) (batch : list candidate)
      (st st' : bulk_state) :
  well_keyed (dict st) -> bulk_loop E batch st = Ok st' ->
  well_keyed (dict st').
Proof.
  revert st. induction batch as [| c batch IH]; intros st Hw; simpl.
  - intros H; inversion H; subst. exact Hw.
  - destruct (bulk_body E c st) as [s |] eqn:Hb; simpl; [| discriminate].
    apply IH. apply bulk_body_spec in Hb. cbv zeta in Hb.
    destruct Hb as [[_ ->] | [(Hu & a & a' & v & b & i & Hget & _ & _ & _
                               & Hurl & -> & _)
                             | (Hu & _ & a' & i & Hurl & _ & -> & _)]].
    + exact Hw.
    + apply well_keyed_set; auto.
      rewrite Hurl. apply dict_get_in in Hget.
      destruct Hw as [_ Hk]. now destruct (Hk _ _ Hget).
    + apply well_keyed_set; auto.
Qed.


(** *** Two runs of [main] *)

Lemma touched_zero (st : bulk_state) :
  nonempty (updated_ids st) || nonempty (added_ids st) = false
  <-> touched st = 0%nat.
Proof.
  unfold touched.
  destruct (updated_ids st), (added_ids st); simpl; split;
    try reflexivity; try discriminate.
Qed.

Lemma touched_zero_lists (st : bulk_state) :
  touched st = 0%nat -> updated_ids st = [] /\ added_ids st = [].
Proof.
  unfold touched.
  destruct (updated_ids st), (added_ids st); simpl; auto; discriminate.
Qed.

(** A second bulk run over the result of a first one. *)
Lemma second_run (E : env) (batch : list candidate) (dct0 dct : albums_dict)
      (rng0 rng : nat) (st1 : bulk_state) :
  process_bulk_albums E batch dct0 rng0 = Ok st1 ->
  (same_counts dct (dict st1)
   \/ (touched st1 = 0%nat /\ same_counts dct dct0)) ->
  match process_bulk_albums E batch dct rng with
  | Ok st2 => touched st2 = 0%nat
  | Raise _ => True
  end.
Proof.
  unfold process_bulk_albums. intros H1 [Hsame | [Hzero Hsame]].
  - pose proof (stable_after_loop H1) as Hst.
    pose proof (@bulk_loop_bisim E batch (mkBulk [] [] [] dct rng)
                  (mkBulk [] [] [] (dict st1) 0) Hsame) as Hb.
    destruct (bulk_loop E batch (mkBulk [] [] [] dct rng)) as [st2 |];
      [| exact I].
    destruct (bulk_loop E batch (mkBulk [] [] [] (dict st1) 0))
      as [st' |] eqn:H'; [| contradiction].
    destruct Hb as [_ Ht].
    pose proof (@stable_run E batch (mkBulk [] [] [] (dict st1) 0) st'
                  Hst H') as Hz.
    unfold touched in *. simpl in *. lia.
  - pose proof (@bulk_loop_bisim E batch (mkBulk [] [] [] dct rng)
                  (mkBulk [] [] [] dct0 rng0) Hsame) as Hb.
    rewrite H1 in Hb.
    destruct (bulk_loop E batch (mkBulk [] [] [] dct rng)) as [st2 |];
      [| exact I].
    destruct Hb as [_ Ht]. unfold touched in *. simpl in *. lia.
Qed.

(** Whether a bulk run raises depends on the counts only. *)
Lemma raises_again (E : env) (batch : list candidate) (dct0 dct : albums_dict)
      (rng0 rng : nat) (err : pyerror) :
  process_bulk_albums E batch dct0 rng0 = Raise err ->
  same_counts dct dct0 ->
  exists err', process_bulk_albums E batch dct rng = Raise err'.
Proof.
  unfold process_bulk_albums. intros H1 Hsame.
  pose proof (@bulk_loop_bisim E batch (mkBulk [] [] [] dct rng)
                (mkBulk [] [] [] dct0 rng0) Hsame) as Hb.
  rewrite H1 in Hb.
  destruct (bulk_loop E batch (mkBulk [] [] [] dct rng)) as [st2 | err'];
    [contradiction | now exists err'].
Qed.

Lemma bulk_main_idempotent (E : env) (batch : list candidate) (d d1 d2 : disk)
      (rng rng1 rng2 : nat) (o1 o2 : output) :
  main E (Bulk batch) d rng = (o1, d1, rng1) ->
  main E (Bulk batch) d1 rng1 = (o2, d2, rng2) ->
  created_of o2 = [] /\ updated_of o2 = [] /\ d2 = d1.
Proof.
  unfold main.
  destruct (read_existing_albums E d rng) as [dct0 rngA] eqn:Hr1.
  destruct batch as [| c l].
  { intros H1; inversion H1; subst.
    destruct (read_existing_albums E d1 rng1).
    intros H2; inversion H2; subst. auto. }
  set (batch := c :: l) in *.
  destruct (process_bulk_albums E batch dct0 rngA) as [st1 | err] eqn:Hp1.
  - unfold finish.
    destruct (nonempty (updated_ids st1) || nonempty (added_ids st1))
             eqn:Hne.
    + intros H1; inversion H1; subst; clear H1.
      destruct (read_existing_albums E _ (seed st1))
        as [dctR rngR] eqn:Hr2.
      assert (Hw : well_keyed (dict st1)).
      { unfold process_bulk_albums in Hp1.
        eapply well_keyed_loop; [| exact Hp1]. simpl.
        pose proof (well_keyed_read E d rng) as Hw0.
        now rewrite Hr1 in Hw0. }
      pose proof (@read_written E (dict st1) d (seed st1) Hw) as Hsame.
      rewrite Hr2 in Hsame. simpl in Hsame.
      pose proof (@second_run E batch dct0 dctR rngA rngR st1 Hp1
                    (or_introl Hsame)) as H2.
      destruct (process_bulk_albums E batch dctR rngR) as [st2 | err2].
      * destruct (touched_zero_lists H2) as [Hu Ha].
        apply touched_zero in H2. rewrite H2.
        intros H; inversion H; subst. simpl. auto.
      * intros H; inversion H; subst. simpl. auto.
    + intros H1; inversion H1; subst; clear H1.
      destruct (read_existing_albums E d1 (seed st1))
        as [dctR rngR] eqn:Hr2.
      pose proof (read_same E d1 (seed st1) rng) as Hsame.
      rewrite Hr1, Hr2 in Hsame. simpl in Hsame.
      apply touched_zero in Hne.
      pose proof (@second_run E batch dct0 dctR rngA rngR st1 Hp1
                    (or_intror (conj Hne Hsame))) as H2.
      destruct (process_bulk_albums E batch dctR rngR) as [st2 | err2].
      * destruct (touched_zero_lists H2) as [Hu Ha].
        apply touched_zero in H2. rewrite H2.
        intros H; inversion H; subst. simpl. auto.
      * intros H; inversion H; subst. simpl. auto.
  - intros H1; inversion H1; subst; clear H1.
    destruct (read_existing_albums E d1 rng1) as [dctR rngR] eqn:Hr2.
    pose proof (read_same E d1 rng1 rng) as Hsame.
    rewrite Hr1, Hr2 in Hsame. simpl in Hsame.
    destruct (@raises_again E batch dct0 dctR rng1 rngR err Hp1 Hsame)
      as [err' ->].
    intros H; inversion H; subst. simpl. auto.
Qed.

(** [main] writes exactly when it reports an added or updated album. *)
Lemma main_writes (E : env) (data : input) (d d' : disk) (rng rng' : nat)
      (o : output) :
  main E data d rng = (o, d', rng') ->
  (created_of o = [] /\ updated_of o = [] /\ d' = d)
  \/ ((created_of o <> [] \/ updated_of o <> [])
      /\ writes d' = S (writes d)).
Proof.
  assert (Hfin : forall un up ad dct o d',
             finish un up ad dct d = (o, d') ->
             (created_of o = [] /\ updated_of o = [] /\ d' = d)
             \/ ((created_of o <> [] \/ updated_of o <> [])
                 /\ writes d' = S (writes d))).
  { intros un up ad dct o0 d0. unfold finish.
    destruct up as [| x up]; destruct ad as [| y ad]; simpl;
      intros H; inversion H; subst; simpl;
      [left; auto | right | right | right];
      (split; [| reflexivity]); [left | right | left]; discriminate. }
  unfold main. destruct data as [| | c | batch |].
  - intros H; inversion H; subst. left. auto.
  - intros H; inversion H; subst. left. auto.
  - destruct (read_existing_albums E d rng) as [dct0 rngA].
    destruct (process_single_album E c dct0 rngA)
      as [[[[[un up] ad] dct1] rng1] | err].
    + destruct (finish _ _ _ dct1 d) as [o0 d0] eqn:Hf.
      intros H; inversion H; subst. eapply Hfin; eassumption.
    + intros H; inversion H; subst. left. auto.
  - destruct (read_existing_albums E d rng) as [dct0 rngA].
    destruct batch as [| c l].
    + intros H; inversion H; subst. left. auto.
    + destruct (process_bulk_albums E (c :: l) dct0 rngA) as [st | err].
      * destruct (finish _ _ _ (dict st) d) as [o0 d0] eqn:Hf.
        intros H; inversion H; subst. eapply Hfin; eassumption.
      * intros H; inversion H; subst. left. auto.
  - destruct (read_existing_albums E d rng) as [dct0 rngA].
    intros H; inversion H; subst. left. auto.
Qed.

(** C3. Running the batch ingest a second time with the input of the
    first run reports no created and no updated album and does not write
    the store file.  More generally a run of [main] rewrites the file (once)
    exactly when it reports at least one created or updated album; a run
    whose outcomes are all "unchanged" leaves the file as it was. *)
Theorem ingest_batch_idempotent (E : env) :
  (forall (batch : list candidate) (d : disk) (rng : nat),
      let '(o1, d1, rng1) := main E (Bulk batch) d rng in
      let '(o2, d2, _) := main E (Bulk batch) d1 rng1 in
      created_of o2 = [] /\ updated_of o2 = [] /\ d2 = d1)
  /\ (forall (data : input) (d : disk) (rng : nat),
         let '(o, d', _) := main E data d rng in
         (created_of o = [] /\ updated_of o = [] /\ d' = d)
         \/ ((created_of o <> [] \/ updated_of o <> [])
             /\ writes d' = S (writes d))).
Proof.
  split.
  - intros batch d rng.
    destruct (main E (Bulk batch) d rng) as [[o1 d1] rng1] eqn:H1.
    destruct (main E (Bulk batch) d1 rng1) as [[o2 d2] rng2] eqn:H2.
    eapply bulk_main_idempotent; eassumption.
  - intros data d rng.
    destruct (main E data d rng) as [[o d'] rng'] eqn:H.
    eapply main_writes; eassumption.
Qed.

End IdempotenceFacts.

Module ScenarioFacts.
Import Store Samples Ingest.

(** The end-to-end scenario of the specification: a single album with
    display dates, ingested into an empty store, is created with the
    canonical range; ingesting it again reports it unchanged and does not
    write. *)
Example end_to_end_scenario :
  let album_data :=
    mkCandidate "a" (Some "Trip") (PInt 5) (Some "Mar 1, 2023")
                (Some "Mar 3, 2023") in
  let '(o1, d1, rng1) := main E0 (Single album_data) (mkDisk None 0) 0 in
  let '(o2, d2, _) := main E0 (Single album_data) d1 rng1 in
  map dateRange (Search.read_database d1) = [Some "2023-03-01--2023-03-03"]
  /\ created_of o1 = [uuid_str 0]
  /\ o2 = Report [uuid_str 0] [] []
  /\ d2 = d1.
Proof. vm_compute. repeat split. Qed.

(** A bulk import run twice over a store of three albums: the first run
    fills the zero count of one album and adds a new one; the second run
    finds the three candidates unchanged and does not write. *)
Example bulk_twice_example :
  let batch := [scraped_trip; scraped_new; scraped_spring] in
  let '(o1, d1, rng1) := main E0 (Bulk batch) good_disk 0 in
  let '(o2, d2, _) := main E0 (Bulk batch) d1 rng1 in
  o1 = Report ["id-a"] ["id-c"] [uuid_str 0]
  /\ o2 = Report ["id-a"; uuid_str 0; "id-c"] [] []
  /\ writes d1 = 1%nat /\ d2 = d1
  /\ map itemCount (Search.read_database d2)
     = [PNone; PInt 5; PInt 12; PStr "7"]
  /\ map title (Search.read_database d2)
     = [Some "Family"; Some "Trip"; Some "Spring"; Some "New"].
Proof. vm_compute. repeat split. Qed.

End ScenarioFacts.

Module YearFilterWitness.
Import Store Samples Search.

Lemma year_filter_is_overlap_witness :
  matches_year_filter E0 long_span (Some (2023, 2023)) = true
  /\ exists album_start album_end,
      album_span E0 long_span = Some (album_start, album_end)
      /\ album_start <= 2023 /\ album_end >= 2023.
Proof.
  assert (H : matches_year_filter E0 long_span (Some (2023, 2023)) = true)
    by reflexivity.
  split; [exact H |].
  exact (proj1 (proj1 (YearFilterFacts.year_filter_is_overlap
                         E0 long_span 2023 2023)) H).
Defined.

End YearFilterWitness.

(** ** Who changes a title *)

Module TitleFacts.
Import Store Ingest.

Lemma update_first_titles (u : string) (f : album -> album)
      (albums albums' : list album) :
  (forall a, title (f a) = title a) ->
  update_first u f albums = Some albums' ->
  map title albums' = map title albums.
Proof.
  intros Hf. revert albums'.
  induction albums as [| a albums IH]; intros albums'; simpl;
    [discriminate |].
  destruct (has_url u a).
  - intros H; inversion H; subst. simpl. now rewrite Hf.
  - destruct (update_first u f albums) as [r |]; simpl; [| discriminate].
    intros H; inversion H; subst. simpl. now rewrite (IH r eq_refl).
Qed.

Lemma toggle_titles (u tag action : string) (albums albums' : list album)
      (n : ToggleTag.notification) :
  ToggleTag.find_and_update u tag action albums = Some (n, albums') ->
  map title albums' = map title albums.
Proof.
  revert n albums'.
  induction albums as [| a albums IH]; intros n albums'; simpl;
    [discriminate |].
  unfold has_url. destruct (String.eqb (url a) u).
  - assert (Ht : title (snd (ToggleTag.toggle tag action a)) = title a).
    { unfold ToggleTag.toggle.
      destruct (tags a); destruct (String.eqb action "add");
        try destruct (negb _); try destruct (String.eqb action "remove");
        try destruct (Search.in_list _ _); reflexivity. }
    destruct (ToggleTag.toggle tag action a) as [n0 a'].
    intros H; inversion H; subst. simpl in *. congruence.
  - destruct (ToggleTag.find_and_update u tag action albums)
      as [[n0 r] |]; [| discriminate].
    intros H; inversion H; subst. simpl. now rewrite (IH n r eq_refl).
Qed.

Lemma edit_date_titles (u start_date range : string)
      (end_date : option string) (albums albums' : list album) :
  EditDate.find_and_update u start_date end_date range albums
  = Some albums' ->
  map title albums' = map title albums.
Proof.
  revert albums'.
  induction albums as [| a albums IH]; intros albums'; simpl;
    [discriminate |].
  unfold has_url. destruct (String.eqb (url a) u).
  - intros H; inversion H; subst. simpl.
    destruct (truthy end_date); reflexivity.
  - destruct (EditDate.find_and_update u start_date end_date range albums)
      as [r |]; simpl; [| discriminate].
    intros H; inversion H; subst. simpl. now rewrite (IH r eq_refl).
Qed.

(** C2. Whatever is ingested -- one scraped album or a batch -- every
    album that the store held under a url before is still held under that
    url afterwards with the same title, whatever title the candidates
    carry.  Nor do the other operations that write the store change a
    title: toggling a tag, editing the date and editing the item count
    write back the titles they read, and a deletion only drops albums.
    That leaves [edit_album_title.py], which assigns the title. *)
Theorem title_changed_only_by_edit_title :
  (forall (E : env) (data : input) (dct dct' : albums_dict) (rng : nat)
          (u : string) (a : album),
      ingested E data dct rng = Ok dct' ->
      dict_get u dct = Some a ->
      exists a', dict_get u dct' = Some a' /\ title a' = title a)
  /\ (forall u tag action d,
         snd (ToggleTag.main u tag action d) = d
         \/ exists albums',
             snd (ToggleTag.main u tag action d) = write_database albums' d
             /\ map title albums' = map title (ToggleTag.read_database d))
  /\ (forall u date_input d,
         snd (EditDate.main u date_input d) = d
         \/ exists albums',
             snd (EditDate.main u date_input d) = write_database albums' d
             /\ map title albums' = map title (EditDate.read_database d))
  /\ (forall E count_str u d,
         snd (EditFields.edit_item_count E count_str u d) = d
         \/ exists albums albums',
             EditFields.read_database d = Some albums
             /\ snd (EditFields.edit_item_count E count_str u d)
                = write_database albums' d
             /\ map title albums' = map title albums)
  /\ (forall u d,
         snd (DeleteAlbum.main u d) = d
         \/ snd (DeleteAlbum.main u d)
            = write_database (filter (other_url u) (DeleteAlbum.read_database d))
                             d).
Proof.
  split; [| split; [| split; [| split]]].
  - intros E data dct dct' rng u a H Hget.
    eapply IngestFacts.ingested_keeps_title; eassumption.
  - intros u tag action d. unfold ToggleTag.main.
    destruct (negb (PyStr.truthy u) || negb (PyStr.truthy tag));
      [now left |].
    destruct (ToggleTag.find_and_update u tag action
                                        (ToggleTag.read_database d))
      as [[n albums'] |] eqn:Hf; [| now left].
    right. exists albums'. split; [reflexivity |].
    eapply toggle_titles; eassumption.
  - intros u date_input d. unfold EditDate.main.
    destruct (EditDate.parse_date_input date_input)
      as [[[start_date end_date] range] |]; [| now left].
    destruct (negb (PyStr.truthy u)); [now left |].
    destruct (EditDate.find_and_update u start_date end_date range
                                       (EditDate.read_database d))
      as [albums' |] eqn:Hf; [| now left].
    right. exists albums'. split; [reflexivity |].
    eapply edit_date_titles; eassumption.
  - intros E count_str u d. unfold EditFields.edit_item_count.
    destruct (PyVal.int_of_str E (PyStr.strip count_str)) as [n |];
      [| now left].
    destruct (n <? 0); [now left |].
    unfold EditFields.edit.
    destruct (negb (PyStr.truthy u)); [now left |].
    destruct (EditFields.read_database d) as [albums |]; [| now left].
    destruct (update_first u _ albums) as [albums' |] eqn:Hf; [| now left].
    right. exists albums, albums'. split; [reflexivity |].
    split; [reflexivity |].
    eapply update_first_titles; [| exact Hf]. reflexivity.
  - intros u d. unfold DeleteAlbum.main.
    destruct (negb (PyStr.truthy u)); [now left |].
    rewrite DeleteFacts.scan_spec. simpl.
    destruct (existsb (has_url u) (DeleteAlbum.read_database d));
      simpl; [| now left].
    destruct (Nat.eqb _ _); [now left | now right].
Qed.

End TitleFacts.

Module TitleWitness.
Import Store Samples Ingest.

Lemma title_changed_only_by_edit_title_witness :
  exists dct',
    ingested E0 (Bulk [scraped_trip; scraped_new; scraped_spring])
             sample_dict 0 = Ok dct'
    /\ dict_get url_a sample_dict = Some trip
    /\ exists a', dict_get url_a dct' = Some a' /\ title a' = title trip.
Proof.
  destruct (ingested E0 (Bulk [scraped_trip; scraped_new; scraped_spring])
                     sample_dict 0) as [dct' |] eqn:Hd;
    [| vm_compute in Hd; discriminate].
  exists dct'. split; [reflexivity |]. split; [reflexivity |].
  exact (proj1 TitleFacts.title_changed_only_by_edit_title
               E0 _ sample_dict dct' 0%nat url_a trip Hd
               (eq_refl : dict_get url_a sample_dict = Some trip)).
Defined.

End TitleWitness.

Module StringFacts.
Import PyStr.

Lemma is_prefix_app (p l : list ascii) : is_prefix p (p ++ l) = true.
Proof.
  induction p as [| c p IH]; simpl; [reflexivity |].
  now rewrite Ascii.eqb_refl, IH.
Qed.

Lemma contains_app (sub pre post : list ascii) :
  contains sub (pre ++ sub ++ post) = true.
Proof.
  induction pre as [| c pre IH].
  - simpl app. destruct (sub ++ post) eqn:E; simpl;
      rewrite <- E, is_prefix_app; reflexivity.
  - simpl. rewrite IH. apply orb_true_r.
Qed.

Lemma contains_self (l : list ascii) : contains l l = true.
Proof.
  pose proof (contains_app l [] []) as H. simpl in H.
  now rewrite app_nil_r in H.
Qed.

End StringFacts.

Module ToggleMoreFacts.
Import Store ToggleTag.

Lemma toggle_read_written (albums : list album) (d : disk) :
  read_database (write_database albums d) = albums.
Proof.
  unfold read_database, write_database. simpl.
  now rewrite StoreFacts.load_recs.
Qed.

(** The loop of [main] as an update of the first album with the url. *)
Lemma toggle_loop_first (u tag action : string) (albums : list album) :
  find_and_update u tag action albums
  = match find (has_url u) albums with
    | Some a =>
        option_map (fun l => (fst (toggle tag action a), l))
                   (update_first u (fun a => snd (toggle tag action a)) albums)
    | None => None
    end.
Proof.
  induction albums as [| a albums IH]; simpl; [reflexivity |].
  unfold has_url at 1 3. unfold has_url in IH.
  destruct (String.eqb (url a) u) eqn:Hu.
  - destruct (toggle tag action a); reflexivity.
  - rewrite IH. unfold has_url.
    destruct (find (fun a0 => String.eqb (url a0) u) albums); [| reflexivity].
    destruct (update_first u _ albums); reflexivity.
Qed.


Lemma find_split (u : string) (albums : list album) (a : album) :
  find (has_url u) albums = Some a ->
  exists pre post,
    albums = pre ++ a :: post
    /\ existsb (has_url u) pre = false /\ has_url u a = true.
Proof.
  induction albums as [| b albums IH]; simpl; [discriminate |].
  destruct (has_url u b) eqn:Hb; intros H.
  - inversion H; subst. exists [], albums. auto.
  - destruct (IH H) as (pre & post & -> & Hp & Ha).
    exists (b :: pre), post. simpl. rewrite Hb. auto.
Qed.

Lemma find_first (u : string) (pre post : list album) (a : album) :
  existsb (has_url u) pre = false -> has_url u a = true ->
  find (has_url u) (pre ++ a :: post) = Some a.
Proof.
  intros Hp Ha. induction pre as [| b pre IH]; simpl in *.
  - now rewrite Ha.
  - apply orb_false_iff in Hp. destruct Hp as [Hb Hp]. rewrite Hb. auto.
Qed.

Lemma update_first_split (u : string) (f : album -> album)
      (pre post : list album) (a : album) :
  existsb (has_url u) pre = false -> has_url u a = true ->
  update_first u f (pre ++ a :: post) = Some (pre ++ f a :: post).
Proof.
  intros Hp Ha. induction pre as [| b pre IH]; simpl in *.
  - now rewrite Ha.
  - apply orb_false_iff in Hp. destruct Hp as [Hb Hp]. rewrite Hb.
    now rewrite (IH Hp).
Qed.

Lemma existsb_find (u : string) (albums : list album) :
  existsb (has_url u) albums = true ->
  exists a, find (has_url u) albums = Some a.
Proof.
  induction albums as [| b albums IH]; simpl; [discriminate |].
  destruct (has_url u b); simpl; eauto.
Qed.

Lemma toggle_url (tag action : string) (a : album) :
  url (snd (toggle tag action a)) = url a.
Proof.
  unfold toggle.
  destruct (tags a); simpl;
    destruct (String.eqb action "add");
    repeat match goal with
           | |- context [if ?c then _ else _] => destruct c
           end; reflexivity.
Qed.

(** What [main] does once the album is found. *)
Lemma main_found (u tag action : string) (d : disk)
      (pre post : list album) (a : album) :
  PyStr.truthy u = true ->
  PyStr.truthy tag = true ->
  read_database d = pre ++ a :: post ->
  existsb (has_url u) pre = false -> has_url u a = true ->
  main u tag action d
  = (fst (toggle tag action a),
     write_database (pre ++ snd (toggle tag action a) :: post) d).
Proof.
  intros Hu Ht Hr Hp Ha.
  unfold main. rewrite Hu, Ht. simpl.
  rewrite toggle_loop_first, Hr, (find_first post Hp Ha).
  now rewrite (update_first_split _ post Hp Ha).
Qed.

Lemma toggle_add (tag : string) (a : album) :
  toggle tag "add" a
  = if Search.in_list tag (ListTags.tags_of a)
    then (TagAlreadyExists, with_tags a)
    else (TagAdded, set_tags a (ListTags.tags_of a ++ [tag])).
Proof.
  unfold toggle, with_tags, ListTags.tags_of.
  destruct (tags a) as [l |] eqn:Ht; simpl.
  - rewrite Ht. destruct (Search.in_list tag l); reflexivity.
  - reflexivity.
Qed.

Lemma toggle_remove (tag : string) (a : album) :
  toggle tag "remove" a
  = if Search.in_list tag (ListTags.tags_of a)
    then (TagRemoved, set_tags a (remove_first tag (ListTags.tags_of a)))
    else (TagNotFound, with_tags a).
Proof.
  unfold toggle, with_tags, ListTags.tags_of.
  destruct (tags a) as [l |] eqn:Ht; simpl.
  - rewrite Ht. destruct (Search.in_list tag l); reflexivity.
  - reflexivity.
Qed.

Lemma in_list_app (x : string) (l1 l2 : list string) :
  Search.in_list x (l1 ++ l2) = Search.in_list x l1 || Search.in_list x l2.
Proof. unfold Search.in_list. apply existsb_app. Qed.

Lemma in_list_self (x : string) : Search.in_list x [x] = true.
Proof. unfold Search.in_list. simpl. now rewrite String.eqb_refl. Qed.

Lemma in_list_In (x : string) (l : list string) :
  Search.in_list x l = true <-> In x l.
Proof.
  unfold Search.in_list. rewrite existsb_exists. split.
  - intros (y & Hy & He). apply String.eqb_eq in He. now subst.
  - intros H. exists x. split; [exact H | apply String.eqb_refl].
Qed.

Lemma in_list_false (x : string) (l : list string) :
  Search.in_list x l = false <-> ~ In x l.
Proof.
  rewrite <- in_list_In. destruct (Search.in_list x l); split;
    intros; congruence.
Qed.

Lemma tags_of_with_tags (a : album) :
  ListTags.tags_of (with_tags a) = ListTags.tags_of a.
Proof.
  unfold with_tags, ListTags.tags_of. destruct (tags a) eqn:H; simpl.
  - now rewrite H.
  - reflexivity.
Qed.

Lemma with_tags_idem (a : album) : with_tags (with_tags a) = with_tags a.
Proof.
  unfold with_tags. destruct (tags a) eqn:H; simpl.
  - now rewrite H.
  - reflexivity.
Qed.

Lemma with_tags_url (a : album) : url (with_tags a) = url a.
Proof. unfold with_tags. destruct (tags a); reflexivity. Qed.

Lemma remove_first_last (x : string) (l : list string) :
  ~ In x l -> remove_first x (l ++ [x]) = l.
Proof.
  induction l as [| y l IH]; simpl; intros H.
  - now rewrite String.eqb_refl.
  - destruct (String.eqb y x) eqn:E.
    + apply String.eqb_eq in E. subst. tauto.
    + rewrite IH; [reflexivity | tauto].
Qed.

Lemma remove_first_In (x y : string) (l : list string) :
  In y (remove_first x l) -> In y l.
Proof.
  induction l as [| z l IH]; simpl; [tauto |].
  destruct (String.eqb z x); simpl; tauto.
Qed.

Lemma remove_first_NoDup (x : string) (l : list string) :
  NoDup l -> NoDup (remove_first x l) /\ ~ In x (remove_first x l).
Proof.
  induction 1 as [| y l Hy Hl IH]; simpl.
  - split; [constructor | tauto].
  - destruct (String.eqb y x) eqn:E.
    + apply String.eqb_eq in E. subst. split; assumption.
    + destruct IH as [IH1 IH2]. split.
      * constructor; [| exact IH1]. intros H. apply Hy.
        eapply remove_first_In; eassumption.
      * simpl. intros [H | H]; [| tauto]. subst.
        now rewrite String.eqb_refl in E.
Qed.

Lemma ensure_tags_split (u : string) (pre post : list album) (a : album) :
  existsb (has_url u) pre = false -> has_url u a = true ->
  ensure_tags_at u (pre ++ a :: post) = pre ++ with_tags a :: post.
Proof.
  intros Hp Ha. induction pre as [| b pre IH]; simpl in *.
  - now rewrite Ha.
  - apply orb_false_iff in Hp. destruct Hp as [Hb Hp]. rewrite Hb.
    now rewrite (IH Hp).
Qed.

Lemma has_url_toggle (u tag action : string) (a : album) :
  has_url u (snd (toggle tag action a)) = has_url u a.
Proof. unfold has_url. now rewrite toggle_url. Qed.

(** X1. Adding a tag to an album that is found leaves the album carrying
    the tag, whether the tag was added or was there already; adding the
    same tag again is then reported as already existing and leaves the
    content of the store file as it is. *)
Theorem toggle_add_twice (u tag : string) (d : disk) :
  PyStr.truthy u = true ->
  PyStr.truthy tag = true ->
  existsb (has_url u) (read_database d) = true ->
  exists n1 d1 d2 a1,
    main u tag "add" d = (n1, d1)
    /\ (n1 = TagAdded \/ n1 = TagAlreadyExists)
    /\ find (has_url u) (read_database d1) = Some a1
    /\ In tag (ListTags.tags_of a1)
    /\ main u tag "add" d1 = (TagAlreadyExists, d2)
    /\ db d2 = db d1.
Proof.
  intros Hu Ht Hfound.
  destruct (existsb_find Hfound) as (a & Ha).
  destruct (find_split Ha) as (pre & post & Hr & Hp & Hua).
  pose proof (@main_found u tag "add" d pre post a Hu Ht Hr Hp Hua) as Hm.
  set (a1 := snd (toggle tag "add" a)) in *.
  assert (Hu1 : has_url u a1 = true)
    by (subst a1; now rewrite has_url_toggle).
  assert (Hin : Search.in_list tag (ListTags.tags_of a1) = true).
  { subst a1. rewrite toggle_add.
    destruct (Search.in_list tag (ListTags.tags_of a)) eqn:E; simpl.
    - now rewrite tags_of_with_tags.
    - unfold ListTags.tags_of at 1. simpl.
      now rewrite in_list_app, in_list_self, orb_true_r. }
  assert (Hw : with_tags a1 = a1).
  { subst a1. rewrite toggle_add.
    destruct (Search.in_list tag (ListTags.tags_of a)); simpl.
    - apply with_tags_idem.
    - reflexivity. }
  set (d1 := write_database (pre ++ a1 :: post) d) in *.
  assert (Hr1 : read_database d1 = pre ++ a1 :: post)
    by apply toggle_read_written.
  pose proof (@main_found u tag "add" d1 pre post a1 Hu Ht Hr1 Hp Hu1) as Hm2.
  rewrite toggle_add, Hin in Hm2. simpl in Hm2. rewrite Hw in Hm2.
  exists (fst (toggle tag "add" a)), d1,
         (write_database (pre ++ a1 :: post) d1), a1.
  split; [exact Hm |]. split.
  { rewrite toggle_add.
    destruct (Search.in_list tag (ListTags.tags_of a)); simpl; auto. }
  split; [rewrite Hr1; now apply find_first |].
  split; [now apply in_list_In |].
  split; [exact Hm2 | reflexivity].
Qed.

(** X2. Adding a tag that the album does not carry and then removing it
    gives back the albums as they were, the album keeping the list of tags
    it had (an empty list if it had no [tags] key). *)
Theorem toggle_add_remove_round_trip (u tag : string) (d : disk) (a : album) :
  PyStr.truthy u = true ->
  PyStr.truthy tag = true ->
  find (has_url u) (read_database d) = Some a ->
  ~ In tag (ListTags.tags_of a) ->
  exists d1 d2,
    main u tag "add" d = (TagAdded, d1)
    /\ main u tag "remove" d1 = (TagRemoved, d2)
    /\ read_database d2 = ensure_tags_at u (read_database d).
Proof.
  intros Hu Ht Ha Hnot.
  destruct (find_split Ha) as (pre & post & Hr & Hp & Hua).
  pose proof (@main_found u tag "add" d pre post a Hu Ht Hr Hp Hua) as Hm.
  apply in_list_false in Hnot.
  rewrite toggle_add, Hnot in Hm. simpl in Hm.
  set (a1 := set_tags a (ListTags.tags_of a ++ [tag])) in *.
  set (d1 := write_database (pre ++ a1 :: post) d) in *.
  assert (Hr1 : read_database d1 = pre ++ a1 :: post) by apply toggle_read_written.
  assert (Hu1 : has_url u a1 = true) by exact Hua.
  pose proof (@main_found u tag "remove" d1 pre post a1 Hu Ht Hr1 Hp Hu1)
    as Hm2.
  rewrite toggle_remove in Hm2.
  assert (Ht1 : ListTags.tags_of a1 = ListTags.tags_of a ++ [tag])
    by reflexivity.
  rewrite Ht1, in_list_app, in_list_self, orb_true_r in Hm2. simpl in Hm2.
  rewrite remove_first_last in Hm2 by now apply in_list_false.
  exists d1, (write_database
                (pre ++ set_tags a1 (ListTags.tags_of a) :: post) d1).
  split; [exact Hm |]. split; [exact Hm2 |].
  rewrite toggle_read_written, Hr, (ensure_tags_split post Hp Hua).
  f_equal. f_equal. unfold with_tags, ListTags.tags_of, a1, set_tags.
  destruct a as [i ur t tg c dr sd ed]; simpl. destruct tg; reflexivity.
Qed.

Lemma find_and_update_Forall (P : album -> Prop) (u tag action : string)
      (albums albums' : list album) (n : notification) :
  (forall x, P x -> P (snd (toggle tag action x))) ->
  Forall P albums ->
  find_and_update u tag action albums = Some (n, albums') ->
  Forall P albums'.
Proof.
  intros Hf Hall. revert n albums'.
  induction Hall as [| b albums Hb Hall IH]; simpl; intros n albums' H;
    [discriminate |].
  destruct (String.eqb (url b) u).
  - specialize (Hf b Hb). destruct (toggle tag action b) as [n0 b'].
    inversion H; subst. constructor; auto.
  - destruct (find_and_update u tag action albums) as [[n0 l] |];
      [| discriminate].
    inversion H; subst. constructor; eauto.
Qed.

Lemma toggle_NoDup (tag action : string) (a : album) :
  NoDup (ListTags.tags_of a) ->
  NoDup (ListTags.tags_of (snd (toggle tag action a))).
Proof.
  intros Hnd. unfold toggle.
  assert (Hw : ListTags.tags_of
                 match tags a with Some _ => a | None => set_tags a [] end
               = ListTags.tags_of a).
  { unfold ListTags.tags_of. destruct (tags a) eqn:E; simpl;
      [now rewrite E | reflexivity]. }
  change (match tags match tags a with Some _ => a | None => set_tags a [] end
          with Some l => l | None => [] end)
    with (ListTags.tags_of
            match tags a with Some _ => a | None => set_tags a [] end).
  rewrite Hw.
  destruct (String.eqb action "add").
  - destruct (Search.in_list tag (ListTags.tags_of a)) eqn:E; simpl.
    + now rewrite Hw.
    + unfold ListTags.tags_of at 1. simpl.
      apply NoDup_app; [exact Hnd | repeat constructor; simpl; tauto |].
      intros x Hx [Hy | []]. subst. now apply in_list_false in E.
  - destruct (String.eqb action "remove"); simpl.
    + destruct (Search.in_list tag (ListTags.tags_of a)); simpl.
      * unfold ListTags.tags_of at 1. simpl.
        now apply remove_first_NoDup.
      * now rewrite Hw.
    + now rewrite Hw.
Qed.

(** X3. Toggling never makes an album carry a tag twice: if no album of
    the store carries a tag twice before a run, none does after it; and
    after a removal that is reported as done the album no longer carries
    the tag. *)
Theorem toggle_keeps_tags_distinct (u tag action : string) (d : disk) :
  Forall (fun a => NoDup (ListTags.tags_of a)) (read_database d) ->
  Forall (fun a => NoDup (ListTags.tags_of a))
         (read_database (snd (main u tag action d)))
  /\ (fst (main u tag action d) = TagRemoved ->
      exists a', find (has_url u) (read_database (snd (main u tag action d)))
                 = Some a'
                 /\ ~ In tag (ListTags.tags_of a')).
Proof.
  intros Hall.
  destruct (negb (PyStr.truthy u) || negb (PyStr.truthy tag)) eqn:Hg.
  { unfold main. rewrite Hg. simpl. split; [exact Hall | discriminate]. }
  destruct (find (has_url u) (read_database d)) as [a |] eqn:Ha.
  2:{ unfold main. rewrite Hg, toggle_loop_first, Ha. simpl.
      split; [exact Hall | discriminate]. }
  destruct (find_split Ha) as (pre & post & Hr & Hp & Hua).
  apply orb_false_iff in Hg. destruct Hg as [Hu Ht].
  apply negb_false_iff in Hu, Ht.
  rewrite (@main_found u tag action d pre post a Hu Ht Hr Hp Hua). simpl.
  rewrite toggle_read_written.
  assert (Hna : NoDup (ListTags.tags_of a)).
  { rewrite Hr in Hall. apply Forall_app in Hall. destruct Hall as [_ H].
    now inversion H. }
  split.
  - rewrite Hr in Hall. apply Forall_app in Hall. destruct Hall as [H1 H2].
    apply Forall_app. split; [exact H1 |]. inversion H2; subst.
    constructor; [now apply toggle_NoDup | assumption].
  - intros Hn. exists (snd (toggle tag action a)). split.
    + apply find_first; [exact Hp | now rewrite has_url_toggle].
    + revert Hn. unfold toggle.
      destruct (String.eqb action "add").
      { destruct (negb _); simpl; discriminate. }
      destruct (String.eqb action "remove"); [| simpl; discriminate].
      assert (Hw : match tags match tags a with
                               | Some _ => a | None => set_tags a [] end
                   with Some l => l | None => [] end = ListTags.tags_of a).
      { unfold ListTags.tags_of. destruct (tags a) eqn:E; simpl;
          [now rewrite E | reflexivity]. }
      rewrite Hw.
      destruct (Search.in_list tag (ListTags.tags_of a)); simpl;
        [| discriminate].
      intros _. unfold ListTags.tags_of at 1. simpl.
      now apply remove_first_NoDup.
Qed.

End ToggleMoreFacts.

Module CorruptStoreFacts.
Import Store.

Lemma load_stops (ls1 rest : list line) (acc : list album) :
  load acc (ls1 ++ Malformed :: rest) = (fst (load acc ls1), true).
Proof.
  revert acc. induction ls1 as [| l ls1 IH]; intros acc; simpl.
  - reflexivity.
  - destruct l; simpl; [apply IH | | apply IH].
    (* a bad line met earlier ends the loop there *)
    reflexivity.
Qed.

Lemma toggle_urls (u tag action : string) (albums albums' : list album)
      (n : ToggleTag.notification) :
  ToggleTag.find_and_update u tag action albums = Some (n, albums') ->
  map url albums' = map url albums.
Proof.
  revert n albums'.
  induction albums as [| a albums IH]; simpl; intros n albums' H;
    [discriminate |].
  destruct (String.eqb (url a) u).
  - pose proof (ToggleMoreFacts.toggle_url tag action a) as Hu.
    destruct (ToggleTag.toggle tag action a) as [n0 a']. simpl in Hu.
    inversion H; subst. simpl. now rewrite Hu.
  - destruct (ToggleTag.find_and_update u tag action albums)
      as [[n0 l] |] eqn:Hl; [| discriminate].
    inversion H; subst. simpl. now rewrite (IH _ _ eq_refl).
Qed.

(** X4. When a line of the store file does not parse, [toggle_tag.py]
    works on the albums read before that line, and on finding the album
    among them it rewrites the file from those albums alone: the urls
    written are the urls read before the unparsable line, and the lines
    after it are gone. *)
Theorem toggle_drops_lines_after_unparsable (u tag action : string)
        (d : disk) (ls1 rest : list line) :
  db d = Some (ls1 ++ Malformed :: rest) ->
  PyStr.truthy u = true ->
  PyStr.truthy tag = true ->
  existsb (has_url u) (fst (load [] ls1)) = true ->
  exists n albums',
    ToggleTag.main u tag action d
    = (n, mkDisk (Some (map Rec albums')) (S (writes d)))
    /\ map url albums' = map url (fst (load [] ls1)).
Proof.
  intros Hdb Hu Ht Hfound.
  assert (Hr : ToggleTag.read_database d = fst (load [] ls1)).
  { unfold ToggleTag.read_database. rewrite Hdb. now rewrite load_stops. }
  destruct (ToggleFacts.find_and_update_found tag action Hfound)
    as (n & albums' & Hf & _).
  exists n, albums'. split.
  - unfold ToggleTag.main. rewrite Hu, Ht. simpl. rewrite Hr, Hf.
    reflexivity.
  - eapply toggle_urls; eassumption.
Qed.

Lemma search_read_malformed (d : disk) (ls : list line) :
  db d = Some ls -> In Malformed ls -> Search.read_database d = [].
Proof.
  intros Hdb Hin. unfold Search.read_database. rewrite Hdb.
  pose proof (StoreFacts.load_malformed [] Hin) as H.
  destruct (load [] ls) as [albums raised]. simpl in H. now rewrite H.
Qed.

(** X5. When a line of the store file does not parse,
    [edit_item_count.py], [edit_album_title.py], [edit_date.py] and
    [delete_album.py] leave the file as it is, and none of those that
    report an outcome reports success. *)
Theorem unparsable_line_blocks_edits (E : env) (d : disk) (ls : list line) :
  db d = Some ls ->
  In Malformed ls ->
  (forall count_str u,
      snd (EditFields.edit_item_count E count_str u d) = d
      /\ fst (EditFields.edit_item_count E count_str u d)
         <> EditFields.Updated)
  /\ (forall new_title u,
         snd (EditFields.edit_album_title new_title u d) = d
         /\ fst (EditFields.edit_album_title new_title u d)
            <> EditFields.Updated)
  /\ (forall u date_input,
         snd (EditDate.main u date_input d) = d)
  /\ (forall u,
         snd (DeleteAlbum.main u d) = d
         /\ fst (DeleteAlbum.main u d) <> DeleteAlbum.Deleted).
Proof.
  intros Hdb Hin.
  pose proof (search_read_malformed Hdb Hin) as Hs.
  assert (He : EditFields.read_database d = None).
  { unfold EditFields.read_database. rewrite Hdb.
    pose proof (StoreFacts.load_malformed [] Hin) as H.
    destruct (load [] ls) as [albums raised]. simpl in H. now rewrite H. }
  assert (Hedit : forall u f, snd (EditFields.edit u f d) = d
                              /\ fst (EditFields.edit u f d)
                                 <> EditFields.Updated).
  { intros u f. unfold EditFields.edit. rewrite He.
    destruct (negb (PyStr.truthy u)); simpl; split;
      (reflexivity || discriminate). }
  split; [| split; [| split]].
  - intros c u. unfold EditFields.edit_item_count.
    destruct (PyVal.int_of_str E (PyStr.strip c)) as [n |];
      [destruct (n <? 0) |]; simpl;
      try (split; [reflexivity | discriminate]).
    apply Hedit.
  - intros t u. unfold EditFields.edit_album_title.
    destruct (negb (PyStr.truthy (PyStr.strip t))); simpl;
      [split; [reflexivity | discriminate] | apply Hedit].
  - intros u i. unfold EditDate.main, EditDate.read_database. rewrite Hs.
    destruct (EditDate.parse_date_input i) as [[[s e] r] |]; simpl;
      [| reflexivity].
    destruct (negb (PyStr.truthy u)); reflexivity.
  - intros u. unfold DeleteAlbum.main, DeleteAlbum.read_database.
    rewrite Hs. simpl.
    destruct (negb (PyStr.truthy u)); simpl; split;
      (reflexivity || discriminate).
Qed.

End CorruptStoreFacts.

Module DeleteMoreFacts.
Import Store DeleteAlbum.

Lemma filter_out_length (u : string) (l : list album) :
  existsb (has_url u) l = true ->
  (List.length (filter (other_url u) l) < List.length l)%nat.
Proof.
  induction l as [| a l IH]; simpl; [discriminate |].
  unfold other_url at 1.
  destruct (has_url u a) eqn:Ha; simpl.
  - intros _. pose proof (filter_length_le (other_url u) l). lia.
  - intros H. specialize (IH H). lia.
Qed.

(** X6. [delete_album.py] never reports "Album not deleted"; it reports
    the deletion exactly when the url is not empty and some record has it;
    it then removes every record with that url and keeps the others in
    their order; in every other case the store is left as it is. *)
Theorem delete_removes_every_record_with_url (u : string) (d : disk) :
  fst (main u d) <> ErrNotDeleted
  /\ (fst (main u d) = Deleted
      <-> PyStr.truthy u = true
          /\ existsb (has_url u) (read_database d) = true)
  /\ (fst (main u d) = Deleted ->
      read_database (snd (main u d))
      = filter (other_url u) (read_database d))
  /\ (fst (main u d) <> Deleted -> snd (main u d) = d).
Proof.
  unfold main.
  destruct (PyStr.truthy u) eqn:Hu; simpl.
  2:{ repeat split; try discriminate; try tauto. intros [H _]; discriminate. }
  rewrite DeleteFacts.scan_spec. simpl.
  destruct (existsb (has_url u) (read_database d)) eqn:Hf; simpl.
  2:{ repeat split; try discriminate; try tauto. intros [_ H]; discriminate. }
  pose proof (filter_out_length Hf) as Hlt.
  destruct (Nat.eqb_spec (List.length (filter (other_url u) (read_database d)))
                         (List.length (read_database d))) as [E | E];
    [lia |].
  simpl. repeat split; try discriminate; try tauto.
  intros _. unfold read_database. apply StoreFacts.search_read_written.
Qed.

End DeleteMoreFacts.

Module IngestMoreFacts.
Import Store Ingest MergeFacts.

Lemma generated_truthy (E : env) (n : nat) :
  PyStr.truthy (fst (generate_unique_id E n)) = true.
Proof.
  unfold generate_unique_id, uuid_str. simpl.
  destruct (firstn 8 (hex_digits 32 (uuid4 E n) [])); reflexivity.
Qed.

Lemma ensure_id_cases (E : env) (a a0 : album) (i : string) (rng rng0 : nat) :
  ensure_id E a rng = (i, a0, rng0) ->
  (truthy (album_id a) = true /\ album_id a = Some i /\ a0 = a /\ rng0 = rng)
  \/ (truthy (album_id a) = false /\ a0 = set_id a i /\ rng0 = S rng).
Proof.
  unfold ensure_id, generate_unique_id.
  destruct (album_id a) as [j |] eqn:Hid; simpl.
  - destruct (PyStr.truthy j) eqn:Hj; intros H; inversion H; subst; auto.
  - intros H; inversion H; subst; auto.
Qed.

(** One iteration of the bulk loop, in full. *)
Lemma bulk_body_step (E : env) (c : candidate) (st st' : bulk_state) :
  bulk_body E c st = Ok st' ->
  let u := PyStr.strip (c_url c) in
  (PyStr.truthy u = false /\ st' = st)
  \/ (PyStr.truthy u = true
      /\ exists a i a0 rng0 v b,
          dict_get u (dict st) = Some a
          /\ ensure_id E a (seed st) = (i, a0, rng0)
          /\ merged_count E (itemCount a) (c_itemCount c) = Ok (v, b)
          /\ st' = mkBulk
                     (if b then unchanged_ids st else unchanged_ids st ++ [i])
                     (if b then updated_ids st ++ [i] else updated_ids st)
                     (added_ids st)
                     (dict_set u (if b then set_itemCount a0 v else a0)
                               (dict st))
                     rng0)
  \/ (PyStr.truthy u = true
      /\ dict_get u (dict st) = None
      /\ exists i t,
          st' = mkBulk (unchanged_ids st) (updated_ids st)
                       (added_ids st ++ [i])
                       (dict_set u (mkAlbum (Some i) u (Some t) (Some [])
                                            (c_itemCount c) None None None)
                                 (dict st))
                       (S (seed st))).
Proof.
  unfold bulk_body. cbv zeta.
  destruct (PyStr.truthy (PyStr.strip (c_url c))) eqn:Hu; simpl.
  2: { intros H; inversion H; subst. left. auto. }
  destruct (dict_get (PyStr.strip (c_url c)) (dict st)) as [a |] eqn:Hget.
  - destruct (ensure_id E a (seed st)) as [[i a0] rng'] eqn:Hid.
    pose proof (ensure_id_frame Hid) as (Ht & Hurl & Hcount & _).
    rewrite update_item_count_merged, Hcount.
    destruct (merged_count E (itemCount a) (c_itemCount c)) as [[v b] |] eqn:Hm;
      simpl; [| discriminate].
    intros H. right. left. split; [reflexivity |].
    exists a, i, a0, rng', v, b.
    split; [reflexivity |]. split; [exact Hid |]. split; [exact Hm |].
    destruct b; inversion H; subst; reflexivity.
  - unfold generate_unique_id.
    intros H. inversion H; subst; simpl. right. right.
    split; [reflexivity |]. split; [reflexivity |].
    eexists _, _. reflexivity.
Qed.

(** The single-album import, in full but for the dates of an album that
    exists. *)
Lemma single_step (E : env) (c : candidate) (dct dct' : albums_dict)
      (rng rng' : nat) (o : outcome) :
  process_single_album E c dct rng = Ok (o, dct', rng') ->
  let u := PyStr.strip (c_url c) in
  (PyStr.truthy u = false /\ dct' = dct /\ o = ((None, None, None) : outcome))
  \/ (PyStr.truthy u = true
      /\ exists a i a0 v b a' (b' : bool),
          dict_get u dct = Some a
          /\ ensure_id E a rng = (i, a0, rng')
          /\ merged_count E (itemCount a) (c_itemCount c) = Ok (v, b)
          /\ album_id a' = album_id a0 /\ url a' = url a0
          /\ title a' = title a0 /\ tags a' = tags a0
          /\ itemCount a' = (if b then v else itemCount a0)
          /\ dct' = dict_set u a' dct
          /\ o = (if b' then ((None, Some i, None) : outcome)
                    else (Some i, None, None)))
  \/ (PyStr.truthy u = true
      /\ dict_get u dct = None
      /\ exists i a',
          album_id a' = Some i /\ url a' = u /\ tags a' = Some []
          /\ itemCount a' = c_itemCount c
          /\ dct' = dict_set u a' dct
          /\ o = ((None, None, Some i) : outcome)
          /\ PyStr.truthy i = true).
Proof.
  unfold process_single_album. cbv zeta.
  destruct (PyStr.truthy (PyStr.strip (c_url c))) eqn:Hu; cbn [negb].
  2: { intros H; inversion H; subst. left. auto. }
  set (start_date := if truthy (c_startDate c) then _ else None).
  set (end_date := if truthy (c_endDate c) then _ else None).
  set (date_range := if truthy start_date then _ else None).
  clearbody date_range. clearbody start_date end_date.
  destruct (dict_get (PyStr.strip (c_url c)) dct) as [a |] eqn:Hget.
  - destruct (ensure_id E a rng) as [[i a0] rng0] eqn:Hid.
    pose proof (ensure_id_frame Hid) as (Ht & Hurl & Hcount & _).
    rewrite update_item_count_merged, Hcount.
    destruct (merged_count E (itemCount a) (c_itemCount c)) as [[v b] |] eqn:Hm;
      cbn [bind fst snd]; [| discriminate].
    set (a1 := if b then set_itemCount a0 v else a0).
    assert (H1 : album_id a1 = album_id a0 /\ url a1 = url a0
                 /\ title a1 = title a0 /\ tags a1 = tags a0
                 /\ itemCount a1 = (if b then v else itemCount a0)).
    { subst a1. destruct b; simpl; auto. }
    clearbody a1.
    set (r1 := if truthy date_range then _ else (a1, b)).
    assert (H2 : album_id (fst r1) = album_id a0 /\ url (fst r1) = url a0
                 /\ title (fst r1) = title a0 /\ tags (fst r1) = tags a0
                 /\ itemCount (fst r1) = (if b then v else itemCount a0)).
    { subst r1. destruct (truthy date_range); [destruct (negb _) |];
        simpl; auto. }
    clearbody r1. destruct r1 as [a2 u2]. cbv beta iota zeta. simpl in H2.
    set (r2 := if truthy start_date then _ else (a2, u2)).
    assert (H3 : album_id (fst r2) = album_id a0 /\ url (fst r2) = url a0
                 /\ title (fst r2) = title a0 /\ tags (fst r2) = tags a0
                 /\ itemCount (fst r2) = (if b then v else itemCount a0)).
    { subst r2. destruct (truthy start_date); [destruct (negb _) |];
        simpl; auto. }
    clearbody r2. destruct r2 as [a3 u3]. cbv beta iota zeta. simpl in H3.
    set (r3 := if truthy end_date then _ else (a3, u3)).
    assert (H4 : album_id (fst r3) = album_id a0 /\ url (fst r3) = url a0
                 /\ title (fst r3) = title a0 /\ tags (fst r3) = tags a0
                 /\ itemCount (fst r3) = (if b then v else itemCount a0)).
    { subst r3. destruct (truthy end_date); [destruct (negb _) |];
        simpl; auto. }
    clearbody r3. destruct r3 as [a4 u4]. simpl in H4.
    destruct H4 as (H4i & H4u & H4t & H4g & H4c).
    intros H. right. left. split; [reflexivity |].
    exists a, i, a0, v, b, a4, u4.
    destruct u4; inversion H; subst; repeat split; auto.
  - pose proof (generated_truthy E rng) as Hi.
    destruct (generate_unique_id E rng) as [i r] eqn:Hgen. simpl in Hi.
    intros H. inversion H; subst; simpl. right. right.
    split; [reflexivity |]. split; [reflexivity |].
    eexists _, _.
    repeat split; try reflexivity. exact Hi.
Qed.


(** *** What the ingest leaves alone *)

Lemma same_identity_refl (a : album) : same_identity a a.
Proof. unfold same_identity. auto. Qed.

Lemma same_identity_trans (a b c : album) :
  same_identity a b -> same_identity b c -> same_identity a c.
Proof.
  unfold same_identity. intros (H1 & H2 & H3) (H4 & H5 & H6).
  split; [congruence |]. split; [congruence |].
  intros H. rewrite <- (H3 H). apply H6. now rewrite (H3 H).
Qed.

Lemma same_dates_refl (a : album) : same_dates a a.
Proof. unfold same_dates. auto. Qed.

Lemma same_dates_trans (a b c : album) :
  same_dates a b -> same_dates b c -> same_dates a c.
Proof.
  unfold same_dates. intros (H1 & H2 & H3) (H4 & H5 & H6).
  repeat split; congruence.
Qed.

Lemma ensure_id_same (E : env) (a a0 : album) (i : string) (rng rng0 : nat) :
  ensure_id E a rng = (i, a0, rng0) ->
  same_identity a a0 /\ same_dates a a0.
Proof.
  intros H. apply ensure_id_cases in H.
  destruct H as [(_ & _ & -> & _) | (Hf & -> & _)].
  - split; [apply same_identity_refl | apply same_dates_refl].
  - unfold same_identity, same_dates. simpl. rewrite Hf.
    repeat split; auto; discriminate.
Qed.

Lemma bulk_body_same (E : env) (c : candidate) (st st' : bulk_state) :
  bulk_body E c st = Ok st' ->
  kept (fun a a' => same_identity a a' /\ same_dates a a')
       (dict st) (dict st').
Proof.
  set (R := fun a a' => same_identity a a' /\ same_dates a a').
  assert (Hrefl : forall a, R a a)
    by (intros a; split; [apply same_identity_refl | apply same_dates_refl]).
  intros H. apply bulk_body_step in H. cbv zeta in H.
  destruct H as [[_ ->] | [(Hu & a & i & a0 & rng0 & v & b & Hget & Hid & Hm
                             & ->)
                          | (Hu & Hnone & i & t & ->)]]; simpl.
  - now apply IngestFacts.kept_refl.
  - apply IngestFacts.kept_existing with (a := a); auto.
    apply ensure_id_same in Hid. destruct Hid as [Hi Hd].
    destruct b; [| now split].
    unfold R, same_identity, same_dates in *. simpl. tauto.
  - now apply IngestFacts.kept_new.
Qed.

Lemma bulk_loop_same (E : env) (batch : list candidate)
      (st st' : bulk_state) :
  bulk_loop E batch st = Ok st' ->
  kept (fun a a' => same_identity a a' /\ same_dates a a')
       (dict st) (dict st').
Proof.
  set (R := fun a a' => same_identity a a' /\ same_dates a a').
  assert (Htrans : forall a b c, R a b -> R b c -> R a c).
  { intros a b c [H1 H2] [H3 H4]. split;
      [eapply same_identity_trans | eapply same_dates_trans]; eassumption. }
  revert st. induction batch as [| c batch IH]; intros st; simpl.
  - intros H; inversion H; subst. apply IngestFacts.kept_refl.
    intros a; split; [apply same_identity_refl | apply same_dates_refl].
  - destruct (bulk_body E c st) as [s |] eqn:Hb; simpl; [| discriminate].
    intros H. eapply IngestFacts.kept_trans; [exact Htrans | |].
    + eapply bulk_body_same; eassumption.
    + now apply IH.
Qed.

Lemma single_same (E : env) (c : candidate) (dct dct' : albums_dict)
      (rng rng' : nat) (o : outcome) :
  process_single_album E c dct rng = Ok (o, dct', rng') ->
  kept same_identity dct dct'.
Proof.
  intros H. apply single_step in H. cbv zeta in H.
  destruct H as [(_ & -> & _)
                | [(Hu & a & i & a0 & v & b & a' & b' & Hget & Hid & Hm
                    & Hi & Hurl & Ht & Hg & Hc & -> & _)
                  | (Hu & Hnone & i & a' & _ & _ & _ & _ & -> & _)]].
  - apply IngestFacts.kept_refl, same_identity_refl.
  - apply IngestFacts.kept_existing with (a := a);
      [apply same_identity_refl | exact Hget |].
    apply ensure_id_same in Hid. destruct Hid as [(H1 & H2 & H3) _].
    unfold same_identity. rewrite Hurl, Hg, Hi. auto.
  - apply IngestFacts.kept_new; [apply same_identity_refl | exact Hnone].
Qed.

(** X7. Ingest never removes an album from the dictionary, never changes
    the url or the tags of an album, and never replaces an id that is not
    empty; a bulk import never changes the three date fields either. *)
Theorem ingest_keeps_identity (E : env) (data : input)
        (dct dct' : albums_dict) (rng : nat) (u : string) (a : album) :
  ingested E data dct rng = Ok dct' ->
  dict_get u dct = Some a ->
  exists a',
    dict_get u dct' = Some a'
    /\ same_identity a a'
    /\ (forall batch, data = Bulk batch -> same_dates a a').
Proof.
  intros H Hget. destruct data as [| | c | batch |]; simpl in H;
    try (inversion H; subst; exists a;
         split; [exact Hget |];
         split; [apply same_identity_refl | discriminate]).
  - destruct (process_single_album E c dct rng)
      as [[[o d1] r1] | err] eqn:Hp; simpl in H; [| discriminate].
    inversion H; subst. apply single_same in Hp.
    destruct (Hp u a Hget) as (a' & Hget' & Hs).
    exists a'. split; [exact Hget' |]. split; [exact Hs | discriminate].
  - destruct (process_bulk_albums E batch dct rng) as [st |] eqn:Hp;
      simpl in H; [| discriminate].
    inversion H; subst. apply bulk_loop_same in Hp. simpl in Hp.
    destruct (Hp u a Hget) as (a' & Hget' & Hs & Hd).
    exists a'. split; [exact Hget' |]. split; [exact Hs |]. intros; exact Hd.
Qed.

(** *** Counting what the bulk import did *)

Lemma dict_set_length (k : string) (a : album) (d : albums_dict) :
  List.length (dict_set k a d)
  = match dict_get k d with
    | Some _ => List.length d
    | None => S (List.length d)
    end.
Proof.
  induction d as [| [k' a'] d IH]; simpl; [reflexivity |].
  destruct (String.eqb k k'); simpl; [reflexivity |].
  rewrite IH. destruct (dict_get k d); reflexivity.
Qed.

Lemma dict_set_keys_prefix (k : string) (a : album) (d : albums_dict) :
  exists new, map fst (dict_set k a d) = map fst d ++ new.
Proof.
  destruct (IdempotenceFacts.dict_set_keys k a d) as [[_ H] | [_ H]];
    rewrite H; [exists [] | exists [k]]; [now rewrite app_nil_r | reflexivity].
Qed.

Lemma bulk_loop_account (E : env) (batch : list candidate)
      (st st' : bulk_state) :
  bulk_loop E batch st = Ok st' ->
  (List.length (unchanged_ids st') + List.length (updated_ids st')
   + List.length (added_ids st')
   = List.length (unchanged_ids st) + List.length (updated_ids st)
     + List.length (added_ids st)
     + List.length (filter with_url batch))%nat
  /\ (List.length (dict st') + List.length (added_ids st)
      = List.length (dict st) + List.length (added_ids st'))%nat
  /\ exists new, map fst (dict st') = map fst (dict st) ++ new.
Proof.
  revert st. induction batch as [| c batch IH]; intros st; simpl.
  - intros H; inversion H; subst. split; [lia |]. split; [lia |].
    exists []. now rewrite app_nil_r.
  - destruct (bulk_body E c st) as [s |] eqn:Hb; simpl; [| discriminate].
    intros H. destruct (IH _ H) as (H1 & H2 & new & H3).
    apply bulk_body_step in Hb. cbv zeta in Hb. unfold with_url at 1.
    destruct Hb as [[Hu ->] | [(Hu & a & i & a0 & rng0 & v & b & Hget & Hid
                                & Hm & ->)
                              | (Hu & Hnone & i & t & ->)]];
      rewrite Hu; simpl in *.
    + split; [lia |]. split; [lia |]. now exists new.
    + rewrite dict_set_length, Hget in H2.
      destruct (dict_set_keys_prefix (PyStr.strip (c_url c))
                  (if b then set_itemCount a0 v else a0) (dict st))
        as (n0 & Hn0).
      destruct b; rewrite ?length_app in *; simpl in *;
        (split; [lia |]; split; [lia |]);
        exists (n0 ++ new); rewrite H3, Hn0, app_assoc; reflexivity.
    + rewrite dict_set_length, Hnone in H2.
      match type of H3 with
      | context [dict_set ?k ?x ?dd] =>
          destruct (dict_set_keys_prefix k x dd) as (n0 & Hn0)
      end.
      rewrite ?length_app in *; simpl in *.
      split; [lia |]. split; [lia |].
      exists (n0 ++ new). rewrite H3, Hn0, app_assoc. reflexivity.
Qed.

(** X8. The bulk import reports every scraped album whose url is not
    empty exactly once, as unchanged, updated or added; the dictionary
    grows by the number of added albums, and its keys keep their places,
    the new ones being appended. *)
Theorem bulk_import_accounts_for_every_album (E : env)
        (albums_data : list candidate) (albums_dict : Store.albums_dict)
        (rng : nat) (st : bulk_state) :
  process_bulk_albums E albums_data albums_dict rng = Ok st ->
  (List.length (unchanged_ids st) + List.length (updated_ids st)
   + List.length (added_ids st)
   = List.length (filter with_url albums_data))%nat
  /\ List.length (dict st)
     = (List.length albums_dict + List.length (added_ids st))%nat
  /\ exists new,
      map fst (dict st) = map fst albums_dict ++ new
      /\ List.length new = List.length (added_ids st).
Proof.
  intros H. unfold process_bulk_albums in H.
  destruct (bulk_loop_account H) as (H1 & H2 & new & H3). simpl in *.
  split; [lia |]. split; [lia |].
  exists new. split; [exact H3 |].
  apply (f_equal (@List.length string)) in H3.
  rewrite length_app, !length_map in H3. lia.
Qed.

End IngestMoreFacts.

Module IngestStoreFacts.
Import Store Ingest MergeFacts IngestMoreFacts.

(** What a run of [main] does to the store file. *)
Lemma main_cases (E : env) (data : input) (d d' : disk) (rng rng' : nat)
      (o : output) :
  main E data d rng = (o, d', rng') ->
  (d' = d /\ created_of o = [] /\ updated_of o = [])
  \/ ((created_of o <> [] \/ updated_of o <> [])
      /\ exists dct',
          ingested E data (fst (read_existing_albums E d rng))
                   (snd (read_existing_albums E d rng)) = Ok dct'
          /\ d' = write_albums_database dct' d).
Proof.
  assert (Hfin : forall un up ad dct o d',
             finish un up ad dct d = (o, d') ->
             (d' = d /\ created_of o = [] /\ updated_of o = [])
             \/ ((created_of o <> [] \/ updated_of o <> [])
                 /\ d' = write_albums_database dct d)).
  { intros un up ad dct o0 d0. unfold finish.
    destruct up as [| x up]; destruct ad as [| y ad]; simpl;
      intros H; inversion H; subst; simpl;
      [left; auto | right | right | right];
      (split; [| reflexivity]); [left | right | left]; discriminate. }
  unfold main, ingested. destruct data as [| | c | batch |].
  - intros H; inversion H; subst. left. auto.
  - intros H; inversion H; subst. left. auto.
  - destruct (read_existing_albums E d rng) as [dct0 rngA]. cbn [fst snd].
    destruct (process_single_album E c dct0 rngA)
      as [[[[[un up] ad] dct1] rng1] | err]; cbn [bind fst snd].
    + destruct (finish _ _ _ dct1 d) as [o0 d0] eqn:Hf.
      intros H; inversion H; subst.
      destruct (Hfin _ _ _ _ _ _ Hf) as [? | [? ?]]; [left; auto |].
      right. split; [assumption |]. eexists; split; [reflexivity | auto].
    + intros H; inversion H; subst. left. auto.
  - destruct (read_existing_albums E d rng) as [dct0 rngA]. cbn [fst snd].
    destruct batch as [| c l].
    + intros H; inversion H; subst. left. auto.
    + destruct (process_bulk_albums E (c :: l) dct0 rngA) as [st | err];
        cbn [bind fst snd].
      * destruct (finish _ _ _ (dict st) d) as [o0 d0] eqn:Hf.
        intros H; inversion H; subst.
        destruct (Hfin _ _ _ _ _ _ Hf) as [? | [? ?]]; [left; auto |].
        right. split; [assumption |]. eexists; split; [reflexivity | auto].
      * intros H; inversion H; subst. left. auto.
  - destruct (read_existing_albums E d rng) as [dct0 rngA].
    intros H; inversion H; subst. left. auto.
Qed.

(** *** The dictionary stays well keyed, and every album in it has an id *)

Lemma has_ids_set (k : string) (a : album) (d : albums_dict) :
  has_ids d -> album_id a <> None -> has_ids (dict_set k a d).
Proof.
  intros Hd Ha k' a' Hin.
  apply IdempotenceFacts.in_dict_set in Hin.
  destruct Hin as [[_ ->] | Hin]; [exact Ha | eapply Hd; eassumption].
Qed.

Lemma has_ids_read_loop (E : env) (ls : list line) (acc acc' : albums_dict)
      (rng rng' : nat) :
  has_ids acc -> read_loop E ls acc rng = (Some acc', rng') -> has_ids acc'.
Proof.
  revert acc rng. induction ls as [| l ls IH]; intros acc rng Hw; simpl.
  - intros H; inversion H; subst. exact Hw.
  - destruct l as [| | a].
    + now apply IH.
    + discriminate.
    + destruct (PyStr.truthy (url a)); [| now apply IH].
      destruct (album_id a) as [i |] eqn:Hi.
      * apply IH. apply has_ids_set; [exact Hw | congruence].
      * unfold generate_unique_id. apply IH.
        apply has_ids_set; [exact Hw | discriminate].
Qed.

Lemma has_ids_read (E : env) (d : disk) (rng : nat) :
  has_ids (fst (read_existing_albums E d rng)).
Proof.
  assert (H0 : has_ids []) by (intros k a []).
  unfold read_existing_albums. destruct (db d) as [ls |]; [| exact H0].
  destruct (read_loop E ls [] rng) as [[acc' |] rng'] eqn:Hr; [| exact H0].
  eapply has_ids_read_loop; eassumption.
Qed.

Lemma ensure_id_has_id (E : env) (a a0 : album) (i : string)
      (rng rng0 : nat) :
  ensure_id E a rng = (i, a0, rng0) -> album_id a0 <> None.
Proof.
  intros H. apply ensure_id_cases in H.
  destruct H as [(_ & Hi & -> & _) | (_ & -> & _)];
    [congruence | discriminate].
Qed.

Lemma filed_loop (E : env) (batch : list candidate) (st st' : bulk_state) :
  has_ids (dict st) -> bulk_loop E batch st = Ok st' -> has_ids (dict st').
Proof.
  revert st. induction batch as [| c batch IH]; intros st Hw; simpl.
  - intros H; inversion H; subst. exact Hw.
  - destruct (bulk_body E c st) as [s |] eqn:Hb; simpl; [| discriminate].
    apply IH. apply bulk_body_step in Hb. cbv zeta in Hb.
    destruct Hb as [[_ ->] | [(Hu & a & i & a0 & rng0 & v & b & Hget & Hid
                               & Hm & ->)
                             | (Hu & Hnone & i & t & ->)]]; simpl.
    + exact Hw.
    + apply has_ids_set; [exact Hw |].
      apply ensure_id_has_id in Hid. now destruct b.
    + apply has_ids_set; [exact Hw | discriminate].
Qed.

Lemma ingested_filed (E : env) (data : input) (dct dct' : albums_dict)
      (rng : nat) :
  well_keyed dct -> has_ids dct ->
  ingested E data dct rng = Ok dct' ->
  well_keyed dct' /\ has_ids dct'.
Proof.
  intros Hw Hi H. destruct data as [| | c | batch |]; simpl in H;
    try (inversion H; subst; now split).
  - destruct (process_single_album E c dct rng)
      as [[[o d1] r1] | err] eqn:Hp; simpl in H; [| discriminate].
    inversion H; subst. apply single_step in Hp. cbv zeta in Hp.
    destruct Hp as [(_ & -> & _)
                   | [(Hu & a & i & a0 & v & b & a' & b' & Hget & Hid & Hm
                       & Hid' & Hurl & Ht & Hg & Hc & -> & _)
                     | (Hu & Hnone & i & a' & Hid' & Hurl & _ & _ & -> & _)]].
    + now split.
    + split.
      * apply IdempotenceFacts.well_keyed_set; auto.
        rewrite Hurl. apply ensure_id_frame in Hid.
        destruct Hid as (_ & -> & _).
        apply IdempotenceFacts.dict_get_in in Hget.
        destruct Hw as [_ Hk]. now destruct (Hk _ _ Hget).
      * apply has_ids_set; [exact Hi |]. rewrite Hid'.
        eapply ensure_id_has_id; eassumption.
    + split.
      * apply IdempotenceFacts.well_keyed_set; auto.
      * apply has_ids_set; [exact Hi | congruence].
  - destruct (process_bulk_albums E batch dct rng) as [st |] eqn:Hp;
      simpl in H; [| discriminate].
    inversion H; subst. unfold process_bulk_albums in Hp. split.
    + eapply IdempotenceFacts.well_keyed_loop; [| exact Hp]. exact Hw.
    + eapply filed_loop; [| exact Hp]. exact Hi.
Qed.

Lemma well_keyed_urls (d : albums_dict) :
  well_keyed d -> map url (dict_values d) = map fst d.
Proof.
  intros [_ Hk]. unfold dict_values. rewrite map_map.
  apply map_ext_in. intros [k a] Hin. simpl.
  now destruct (Hk _ _ Hin).
Qed.

(** X9. When a run of the ingest reports a created or an updated album,
    the store file it has written holds one record per url, every url
    being non-empty and every record having an [id] key. *)
Theorem ingest_writes_one_record_per_url (E : env) (data : input)
        (d d' : disk) (rng rng' : nat) (o : output) :
  main E data d rng = (o, d', rng') ->
  created_of o <> [] \/ updated_of o <> [] ->
  NoDup (map url (Search.read_database d'))
  /\ Forall (fun a => PyStr.truthy (url a) = true /\ album_id a <> None)
            (Search.read_database d').
Proof.
  intros Hmain Hsome.
  destruct (main_cases Hmain) as [(_ & Hc & Hu) | (_ & dct' & Hing & ->)].
  { destruct Hsome; contradiction. }
  unfold write_albums_database. rewrite StoreFacts.search_read_written.
  destruct (ingested_filed (IdempotenceFacts.well_keyed_read E d rng)
                           (@has_ids_read E d rng) Hing) as [Hw Hi].
  split.
  - rewrite (well_keyed_urls Hw). now destruct Hw.
  - apply Forall_forall. intros a Ha. unfold dict_values in Ha.
    apply in_map_iff in Ha. destruct Ha as ([k a0] & <- & Hin). simpl.
    destruct Hw as [_ Hk]. destruct (Hk _ _ Hin) as [-> Ht].
    split; [exact Ht | eapply Hi; eassumption].
Qed.

(** *** Where the keys of the dictionary come from *)

Lemma dict_set_key_in (k k' : string) (a : album) (d : albums_dict) :
  In k' (map fst (dict_set k a d)) -> k' = k \/ In k' (map fst d).
Proof.
  destruct (IdempotenceFacts.dict_set_keys k a d) as [[_ ->] | [_ ->]];
    [auto |].
  rewrite in_app_iff. simpl. intuition.
Qed.

Lemma bulk_loop_keys (E : env) (batch : list candidate)
      (st st' : bulk_state) (k : string) :
  bulk_loop E batch st = Ok st' ->
  In k (map fst (dict st')) ->
  In k (map fst (dict st))
  \/ exists c, In c batch /\ k = PyStr.strip (c_url c).
Proof.
  revert st. induction batch as [| c batch IH]; intros st; simpl.
  - intros H; inversion H; subst. auto.
  - destruct (bulk_body E c st) as [s |] eqn:Hb; simpl; [| discriminate].
    intros H Hin. destruct (IH _ H Hin) as [Hk | (c' & Hc' & ->)].
    2:{ right. exists c'. auto. }
    apply bulk_body_step in Hb. cbv zeta in Hb.
    destruct Hb as [[_ ->] | [(Hu & a & i & a0 & rng0 & v & b & Hget & Hid
                               & Hm & ->)
                             | (Hu & Hnone & i & t & ->)]]; simpl in Hk.
    + auto.
    + apply dict_set_key_in in Hk. destruct Hk as [-> | Hk]; [| auto].
      right. exists c. auto.
    + apply dict_set_key_in in Hk. destruct Hk as [-> | Hk]; [| auto].
      right. exists c. auto.
Qed.

Lemma ingested_keys (E : env) (data : input) (dct dct' : albums_dict)
      (rng : nat) (k : string) :
  ingested E data dct rng = Ok dct' ->
  In k (map fst dct') ->
  In k (map fst dct)
  \/ exists c, In c (offered data) /\ k = PyStr.strip (c_url c).
Proof.
  intros H Hin. destruct data as [| | c | batch |]; simpl in H;
    try (inversion H; subst; now left).
  - destruct (process_single_album E c dct rng)
      as [[[o d1] r1] | err] eqn:Hp; simpl in H; [| discriminate].
    inversion H; subst. apply single_step in Hp. cbv zeta in Hp.
    destruct Hp as [(_ & -> & _)
                   | [(Hu & a & i & a0 & v & b & a' & b' & Hget & Hid & Hm
                       & Hid' & Hurl & Ht & Hg & Hc & -> & _)
                     | (Hu & Hnone & i & a' & Hid' & Hurl & _ & _ & -> & _)]].
    + auto.
    + apply dict_set_key_in in Hin. destruct Hin as [-> | Hk]; [| auto].
      right. exists c. simpl. auto.
    + apply dict_set_key_in in Hin. destruct Hin as [-> | Hk]; [| auto].
      right. exists c. simpl. auto.
  - destruct (process_bulk_albums E batch dct rng) as [st |] eqn:Hp;
      simpl in H; [| discriminate].
    inversion H; subst. unfold process_bulk_albums in Hp.
    eapply bulk_loop_keys in Hp; [| exact Hin]. exact Hp.
Qed.

(** X10. After an ingest over a store file one line of which does not
    parse, every record that can be read from the store has the url of a
    scraped album of that run: what the file held before is not carried
    over. *)
Theorem ingest_over_unparsable_store (E : env) (data : input)
        (d d' : disk) (ls : list line) (rng rng' : nat) (o : output) :
  db d = Some ls ->
  In Malformed ls ->
  main E data d rng = (o, d', rng') ->
  forall a, In a (Search.read_database d') ->
            exists c, In c (offered data)
                      /\ url a = PyStr.strip (c_url c).
Proof.
  intros Hdb Hbad Hmain a Ha.
  destruct (main_cases Hmain) as [(-> & _) | (_ & dct' & Hing & ->)].
  { rewrite (CorruptStoreFacts.search_read_malformed Hdb Hbad) in Ha.
    contradiction. }
  assert (Hempty : fst (read_existing_albums E d rng) = []).
  { unfold read_existing_albums. rewrite Hdb.
    pose proof (StoreFacts.read_loop_malformed E [] rng Hbad) as H.
    destruct (read_loop E ls [] rng) as [[acc |] r]; simpl in *;
      [discriminate | reflexivity]. }
  pose proof (ingested_filed (IdempotenceFacts.well_keyed_read E d rng)
                             (@has_ids_read E d rng) Hing) as [Hw _].
  rewrite Hempty in Hing.
  unfold write_albums_database in Ha.
  rewrite StoreFacts.search_read_written in Ha.
  assert (Hk : In (url a) (map fst dct')).
  { rewrite <- (well_keyed_urls Hw). now apply in_map. }
  destruct (ingested_keys Hing Hk) as [[] | H]. exact H.
Qed.

End IngestStoreFacts.

Module EditFieldsFacts.
Import Store EditFields.

Lemma update_first_inv (u : string) (f : album -> album)
      (albums albums' : list album) :
  update_first u f albums = Some albums' ->
  exists pre a post,
    albums = pre ++ a :: post
    /\ existsb (has_url u) pre = false /\ has_url u a = true
    /\ albums' = pre ++ f a :: post.
Proof.
  revert albums'. induction albums as [| b albums IH]; simpl;
    intros albums' H; [discriminate |].
  destruct (has_url u b) eqn:Hb.
  - inversion H; subst. exists [], b, albums. auto.
  - destruct (update_first u f albums) as [l |]; [| discriminate].
    inversion H; subst.
    destruct (IH l eq_refl) as (pre & a & post & -> & Hp & Ha & ->).
    exists (b :: pre), a, post. simpl. rewrite Hb. auto.
Qed.

Lemma read_some (d : disk) (albums : list album) :
  read_database d = Some albums -> Search.read_database d = albums.
Proof.
  unfold read_database, Search.read_database.
  destruct (db d) as [ls |]; [| intros H; now inversion H].
  destruct (load [] ls) as [l raised]. destruct raised; [discriminate |].
  intros H; now inversion H.
Qed.

Lemma edit_updated (u : string) (f : album -> album) (d d' : disk)
      (o : output) :
  edit u f d = (o, d') ->
  (o <> Updated /\ d' = d)
  \/ (o = Updated /\ PyStr.truthy u = true
      /\ exists pre a post,
          Search.read_database d = pre ++ a :: post
          /\ existsb (has_url u) pre = false /\ has_url u a = true
          /\ d' = write_database (pre ++ f a :: post) d).
Proof.
  unfold edit. destruct (PyStr.truthy u) eqn:Hu; simpl.
  2:{ intros H; inversion H; subst. left. split; [discriminate | auto]. }
  destruct (read_database d) as [albums |] eqn:Hr.
  2:{ intros H; inversion H; subst. left. split; [discriminate | auto]. }
  destruct (update_first u f albums) as [albums' |] eqn:Hf.
  2:{ intros H; inversion H; subst. left. split; [discriminate | auto]. }
  intros H; inversion H; subst. right.
  split; [reflexivity |]. split; [reflexivity |].
  apply update_first_inv in Hf.
  destruct Hf as (pre & a & post & -> & Hp & Ha & ->).
  exists pre, a, post. rewrite (read_some Hr). auto.
Qed.

(** X11. A run of [edit_item_count.py] that reports success has set the
    [itemCount] of the first album with the url to the non-negative
    integer read from its argument, and has changed nothing else; a run
    of [edit_album_title.py] that reports success has set the title of
    that album to the stripped, non-empty argument, and has changed
    nothing else; a run that does not report success leaves the store as
    it is. *)
Theorem edits_change_one_field_of_one_album (E : env) :
  (forall count_str u d o d',
      edit_item_count E count_str u d = (o, d') ->
      (o <> Updated /\ d' = d)
      \/ (o = Updated
          /\ exists n pre a post,
              PyVal.int_of_str E (PyStr.strip count_str) = Some n /\ 0 <= n
              /\ Search.read_database d = pre ++ a :: post
              /\ existsb (has_url u) pre = false /\ url a = u
              /\ Search.read_database d'
                 = pre ++ set_itemCount a (PInt n) :: post))
  /\ (forall new_title u d o d',
         edit_album_title new_title u d = (o, d') ->
         (o <> Updated /\ d' = d)
         \/ (o = Updated
             /\ PyStr.truthy (PyStr.strip new_title) = true
             /\ exists pre a post,
                 Search.read_database d = pre ++ a :: post
                 /\ existsb (has_url u) pre = false /\ url a = u
                 /\ Search.read_database d'
                    = pre ++ set_title a (PyStr.strip new_title) :: post)).
Proof.
  split.
  - intros c u d o d'. unfold edit_item_count.
    destruct (PyVal.int_of_str E (PyStr.strip c)) as [n |] eqn:Hn.
    2:{ intros H; inversion H; subst. left. split; [discriminate | auto]. }
    destruct (n <? 0) eqn:Hneg.
    { intros H; inversion H; subst. left. split; [discriminate | auto]. }
    intros H. apply edit_updated in H.
    destruct H as [H | (-> & Hu & pre & a & post & Hr & Hp & Ha & ->)];
      [left; exact H |].
    right. split; [reflexivity |].
    exists n, pre, a, post. apply Z.ltb_ge in Hneg.
    rewrite StoreFacts.search_read_written.
    unfold has_url in Ha. apply String.eqb_eq in Ha. auto 8.
  - intros t u d o d'. unfold edit_album_title.
    destruct (PyStr.truthy (PyStr.strip t)) eqn:Ht; simpl.
    2:{ intros H; inversion H; subst. left. split; [discriminate | auto]. }
    intros H. apply edit_updated in H.
    destruct H as [H | (-> & Hu & pre & a & post & Hr & Hp & Ha & ->)];
      [left; exact H |].
    right. split; [reflexivity |]. split; [reflexivity |].
    exists pre, a, post.
    rewrite StoreFacts.search_read_written.
    unfold has_url in Ha. apply String.eqb_eq in Ha. auto 8.
Qed.

End EditFieldsFacts.

Module CorrectionFacts.
Import Store Ingest MergeFacts.

Lemma read_loop_other (E : env) (u : string) (l : list album)
      (acc : albums_dict) (rng : nat) :
  (forall x, In x l -> url x <> u) ->
  exists acc' rng',
    read_loop E (map Rec l) acc rng = (Some acc', rng')
    /\ counts_at u acc' = counts_at u acc.
Proof.
  revert acc rng. induction l as [| a l IH]; intros acc rng Hne.
  - simpl. eauto.
  - assert (Hl : forall x, In x l -> url x <> u)
      by (intros x Hx; apply Hne; now right).
    destruct (PyStr.truthy (url a)) eqn:Hu.
    + simpl map.
      destruct (@IdempotenceFacts.read_loop_rec E a (map Rec l) acc rng Hu)
        as (a1 & r1 & -> & Hu1 & _).
      destruct (IH (dict_set (url a) a1 acc) r1 Hl) as (acc' & rng' & -> & Hc).
      exists acc', rng'. split; [reflexivity |].
      rewrite Hc, IdempotenceFacts.counts_at_set.
      destruct (String.eqb u (url a)) eqn:E1; [| reflexivity].
      apply String.eqb_eq in E1. exfalso. apply (Hne a); [now left | auto].
    + simpl. rewrite Hu. now apply IH.
Qed.

Lemma read_loop_unique (E : env) (u : string) (pre post : list album)
      (a : album) (acc : albums_dict) (rng : nat) :
  PyStr.truthy u = true -> url a = u ->
  (forall x, In x post -> url x <> u) ->
  exists acc' rng',
    read_loop E (map Rec (pre ++ a :: post)) acc rng = (Some acc', rng')
    /\ counts_at u acc' = Some (itemCount a).
Proof.
  intros Hu Ha Hpost. revert acc rng.
  induction pre as [| b pre IH]; intros acc rng.
  - simpl app. simpl map. rewrite <- Ha in Hu.
    destruct (@IdempotenceFacts.read_loop_rec E a (map Rec post) acc rng Hu)
      as (a1 & r1 & -> & Hu1 & Hc1).
    destruct (@read_loop_other E u post (dict_set (url a) a1 acc) r1 Hpost)
      as (acc' & rng' & -> & Hc).
    exists acc', rng'. split; [reflexivity |].
    rewrite Hc, IdempotenceFacts.counts_at_set, Ha, String.eqb_refl.
    now rewrite Hc1.
  - simpl app. simpl map.
    destruct (PyStr.truthy (url b)) eqn:Hb.
    + destruct (@IdempotenceFacts.read_loop_rec E b
                  (map Rec (pre ++ a :: post)) acc rng Hb)
        as (b1 & r1 & -> & _ & _).
      apply IH.
    + simpl. rewrite Hb. apply IH.
Qed.

Lemma present_nonzero_int (E : env) (n : Z) : n <> 0 -> present_nonzero E (PInt n) = true.
Proof.
  intros Hn. unfold present_nonzero. rewrite py_eq_int_zero. simpl.
  apply Z.eqb_neq in Hn. now rewrite Hn.
Qed.

(** X12. A count that [edit_item_count.py] has set to a non-zero value is
    still the count of the album after any later ingest, when the store
    holds one record per url. *)
Theorem corrected_count_survives_ingest (E : env) (count_str u : string)
        (n : Z) (d d1 d2 : disk) (data : input) (rng rng2 : nat)
        (o : output) :
  EditFields.edit_item_count E count_str u d = (EditFields.Updated, d1) ->
  PyVal.int_of_str E (PyStr.strip count_str) = Some n ->
  n <> 0 ->
  NoDup (map url (Search.read_database d)) ->
  main E data d1 rng = (o, d2, rng2) ->
  exists a, In a (Search.read_database d2)
            /\ url a = u /\ itemCount a = PInt n.
Proof.
  intros Hedit Hn Hnz Hnd Hmain.
  unfold EditFields.edit_item_count in Hedit. rewrite Hn in Hedit.
  destruct (n <? 0); [discriminate |].
  apply EditFieldsFacts.edit_updated in Hedit.
  destruct Hedit as [[H _] | (_ & Hu & pre & a & post & Hr & Hp & Ha & ->)];
    [congruence |].
  unfold has_url in Ha. apply String.eqb_eq in Ha.
  set (a1 := set_itemCount a (PInt n)) in *.
  set (d1 := write_database (pre ++ a1 :: post) d) in *.
  assert (Hr1 : Search.read_database d1 = pre ++ a1 :: post)
    by apply StoreFacts.search_read_written.
  assert (Hin1 : exists x, In x (Search.read_database d1)
                           /\ url x = u /\ itemCount x = PInt n).
  { exists a1. rewrite Hr1. split; [| auto].
    apply in_or_app. right. now left. }
  destruct (IngestStoreFacts.main_cases Hmain)
    as [(-> & _) | (_ & dct' & Hing & ->)]; [exact Hin1 |].
  (* the dictionary read from the edited file holds the new count *)
  assert (Hpost : forall x, In x post -> url x <> u).
  { rewrite Hr, map_app in Hnd. simpl in Hnd.
    apply NoDup_remove_2 in Hnd. intros x Hx Hux. apply Hnd.
    apply in_or_app. right. rewrite Ha, <- Hux. now apply in_map. }
  assert (Hread : counts_at u (fst (read_existing_albums E d1 rng))
                  = Some (PInt n)).
  { unfold read_existing_albums, d1. simpl.
    destruct (@read_loop_unique E u pre post a1 [] rng Hu Ha Hpost)
      as (acc' & rng' & Hrl & Hc).
    rewrite Hrl. exact Hc. }
  unfold counts_at in Hread.
  destruct (dict_get u (fst (read_existing_albums E d1 rng)))
    as [a0 |] eqn:Hget; [| discriminate].
  simpl in Hread. inversion Hread as [Hc0].
  destruct (@IngestFacts.ingested_kept E
              (fun a a' => present_nonzero E (itemCount a) = true ->
                           itemCount a' = itemCount a)
              (fun _ _ => eq_refl)
              (fun x y z Hxy Hyz Hx =>
                 eq_trans (Hyz (eq_ind_r
                                  (fun t => present_nonzero E t = true)
                                  Hx (Hxy Hx)))
                          (Hxy Hx))
              (fun x y new v b Hm Hv _ Hx =>
                 eq_trans Hv (proj2 (merged_keeps_nonzero Hx Hm)))
              data _ dct' _ Hing u a0 Hget) as (a' & Hget' & Hkeep).
  pose proof (IngestStoreFacts.ingested_filed
                (IdempotenceFacts.well_keyed_read E d1 rng)
                (@IngestStoreFacts.has_ids_read E d1 rng) Hing) as [Hw _].
  exists a'. unfold write_albums_database.
  rewrite StoreFacts.search_read_written.
  apply IdempotenceFacts.dict_get_in in Hget'.
  split; [| split].
  - unfold dict_values. change a' with (snd (u, a')). now apply in_map.
  - destruct Hw as [_ Hk]. now destruct (Hk _ _ Hget').
  - rewrite Hkeep, Hc0; [reflexivity |].
    rewrite Hc0. now apply present_nonzero_int.
Qed.

End CorrectionFacts.

Module DateMoreFacts.
Import PyStr PyDate.

Lemma str_chars (s : string) : str (chars s) = s.
Proof. apply string_of_list_ascii_of_string. Qed.

Lemma chars_app (a b : string) : chars (a ++ b)%string = chars a ++ chars b.
Proof.
  unfold chars. induction a as [| c a IH]; simpl; [reflexivity |].
  now rewrite IH.
Qed.

Lemma str_app (a b : list ascii) : str (a ++ b) = (str a ++ str b)%string.
Proof.
  unfold str. induction a as [| c a IH]; simpl; [reflexivity |].
  now rewrite IH.
Qed.

Lemma decimal_not_space (c : ascii) :
  isdecimal c = true -> isspace c = false.
Proof.
  destruct c as [[] [] [] [] [] [] [] []]; vm_compute; congruence.
Qed.

Lemma decimal_not_dash (c : ascii) :
  isdecimal c = true -> Ascii.eqb c "-"%char = false.
Proof.
  destruct c as [[] [] [] [] [] [] [] []]; vm_compute; congruence.
Qed.

Lemma dash_not_decimal (c : ascii) :
  isdecimal c = true -> Ascii.eqb "-"%char c = false.
Proof.
  destruct c as [[] [] [] [] [] [] [] []]; vm_compute; congruence.
Qed.

Lemma decimal_not_blank (c : ascii) :
  isdecimal c = true -> Ascii.eqb c " "%char = false.
Proof.
  destruct c as [[] [] [] [] [] [] [] []]; vm_compute; congruence.
Qed.

Lemma decimal_val (c : ascii) :
  isdecimal c = true -> 0 <= digit_val c <= 9.
Proof.
  unfold isdecimal, digit_val. intros H.
  apply andb_true_iff in H. destruct H as [H1 H2].
  apply N.leb_le in H1, H2. lia.
Qed.

Lemma code_ltb (x y : ascii) :
  (code x <? code y)%N = (digit_val x <? digit_val y).
Proof.
  unfold digit_val.
  destruct (N.ltb_spec (code x) (code y)), (Z.ltb_spec (Z.of_N (code x) - 48)
                                              (Z.of_N (code y) - 48));
    try reflexivity; lia.
Qed.

Lemma digit_val_digit_char (n : Z) : digit_val (digit_char n) = n mod 10.
Proof.
  unfold digit_val, digit_char, ch, code.
  pose proof (Z.mod_pos_bound n 10 ltac:(lia)) as Hb.
  rewrite N_ascii_embedding by lia. lia.
Qed.

Lemma digit_char_of (c : ascii) (n : Z) :
  isdecimal c = true -> n mod 10 = digit_val c -> digit_char n = c.
Proof.
  intros Hc Hn. unfold digit_char, ch. rewrite Hn. unfold digit_val.
  unfold isdecimal in Hc. apply andb_true_iff in Hc. destruct Hc as [H1 H2].
  apply N.leb_le in H1, H2.
  replace (Z.to_N (48 + (Z.of_N (code c) - 48))) with (code c) by lia.
  apply ascii_N_embedding.
Qed.

(** The characters of a canonical date. *)
Lemma canonical_inv (s : string) :
  is_canonical s = true ->
  exists y1 y2 y3 y4 m1 m2 a1 a2,
    chars s = [y1; y2; y3; y4; "-"%char; m1; m2; "-"%char; a1; a2]
    /\ Forall (fun c => isdecimal c = true) [y1; y2; y3; y4; m1; m2; a1; a2].
Proof.
  unfold is_canonical.
  destruct (chars s) as [| y1 [| y2 [| y3 [| y4 [| d1 [| m1 [| m2 [| d2
           [| a1 [| a2 [| x l]]]]]]]]]]]; try discriminate.
  intros H. unfold all_decimal in H. cbn [forallb] in H.
  repeat rewrite andb_true_iff in H.
  destruct H as [[(H1 & H2 & H3 & H4 & H5 & H6 & H7 & H8 & _) Hd1] Hd2].
  apply Ascii.eqb_eq in Hd1, Hd2. subst.
  exists y1, y2, y3, y4, m1, m2, a1, a2. split; [reflexivity |].
  repeat constructor; assumption.
Qed.

Lemma strip_chars_id (l : list ascii) :
  (forall c r, l = c :: r -> isspace c = false) ->
  (forall c r, rev l = c :: r -> isspace c = false) ->
  strip_chars l = l.
Proof.
  intros H1 H2. unfold strip_chars.
  assert (E1 : drop_while isspace l = l).
  { destruct l as [| c r]; [reflexivity |]. simpl.
    now rewrite (H1 c r eq_refl). }
  rewrite E1.
  assert (E2 : drop_while isspace (rev l) = rev l).
  { destruct (rev l) as [| c r] eqn:E; [reflexivity |]. simpl.
    now rewrite (H2 c r eq_refl). }
  rewrite E2. apply rev_involutive.
Qed.

Lemma strip_canonical (s : string) : is_canonical s = true -> strip s = s.
Proof.
  intros H. destruct (canonical_inv H)
    as (y1 & y2 & y3 & y4 & m1 & m2 & a1 & a2 & Hc & Hd).
  unfold strip. rewrite strip_chars_id; [apply str_chars | |];
    rewrite Hc; simpl; intros c r E; inversion E; subst;
    apply decimal_not_space.
  - now inversion Hd.
  - repeat match goal with
           | H : Forall _ (_ :: _) |- _ => inversion H; clear H; subst
           end. assumption.
Qed.

Lemma canonical_truthy (s : string) : is_canonical s = true -> truthy s = true.
Proof.
  unfold is_canonical. destruct s; [discriminate | reflexivity].
Qed.


Ltac decimals Hd :=
  repeat match type of Hd with
         | Forall _ (_ :: _) =>
             let H := fresh "Hdec" in
             let Hd' := fresh "Hd" in
             inversion Hd as [| ? ? H Hd']; clear Hd; subst;
             rename Hd' into Hd
         end; clear Hd.

(** [strptime] on a string of the canonical shape. *)
Lemma strptime_canonical (s : string) (y1 y2 y3 y4 m1 m2 a1 a2 : ascii) :
  chars s = [y1; y2; y3; y4; "-"%char; m1; m2; "-"%char; a1; a2] ->
  Forall (fun c => isdecimal c = true) [y1; y2; y3; y4; m1; m2; a1; a2] ->
  strptime_Ymd s
  = if month2 m1 m2 && day2 a1 a2
    then checked (decimal_value 0 [y1; y2; y3; y4])
                 (two_digits m1 m2) (two_digits a1 a2)
    else None.
Proof.
  intros Hc Hd. unfold strptime_Ymd. rewrite Hc.
  decimals Hd.
  unfold year4, all_decimal. cbn [forallb].
  rewrite Hdec, Hdec0, Hdec1, Hdec2. cbn [andb negb Ascii.eqb].
  change (Ascii.eqb "-" "-") with true. cbn [negb andb].
  rewrite andb_true_r.
  destruct (month2 m1 m2) eqn:Hm; cbn [andb].
  - unfold final_day. destruct (day2 a1 a2); [reflexivity |].
    now rewrite (decimal_not_blank Hdec5).
  - rewrite (decimal_not_dash Hdec4), andb_false_r. reflexivity.
Qed.

Lemma gt_canonical (y1 y2 y3 y4 m1 m2 a1 a2 z1 z2 z3 z4 n1 n2 b1 b2 : ascii) :
  Forall (fun c => isdecimal c = true) [y1; y2; y3; y4; m1; m2; a1; a2] ->
  Forall (fun c => isdecimal c = true) [z1; z2; z3; z4; n1; n2; b1; b2] ->
  gt_chars [y1; y2; y3; y4; "-"%char; m1; m2; "-"%char; a1; a2]
           [z1; z2; z3; z4; "-"%char; n1; n2; "-"%char; b1; b2] = false
  <-> Search.date_le (decimal_value 0 [y1; y2; y3; y4],
                      two_digits m1 m2, two_digits a1 a2)
                     (decimal_value 0 [z1; z2; z3; z4],
                      two_digits n1 n2, two_digits b1 b2).
Proof.
  intros Hy Hz. decimals Hy. decimals Hz.
  repeat match goal with
         | H : isdecimal _ = true |- _ => apply decimal_val in H
         end.
  unfold Search.date_le, two_digits. cbn [decimal_value gt_chars].
  rewrite !code_ltb.
  change (digit_val "-" <? digit_val "-") with false. cbv iota.
  repeat match goal with
         | |- context [?a <? ?b] =>
             destruct (Z.ltb_spec a b); [split; [try discriminate |]; lia |]
         end.
  split; [lia | reflexivity].
Qed.

(** On dates of the canonical shape the order of the strings is the
    order of the dates. *)
Lemma canonical_order (s1 s2 : string) (d1 d2 : Z * Z * Z) :
  is_canonical s1 = true -> is_canonical s2 = true ->
  strptime_Ymd s1 = Some d1 -> strptime_Ymd s2 = Some d2 ->
  (gt s1 s2 = false <-> Search.date_le d1 d2).
Proof.
  intros H1 H2 P1 P2.
  destruct (canonical_inv H1)
    as (y1 & y2 & y3 & y4 & m1 & m2 & a1 & a2 & Hc1 & Hd1).
  destruct (canonical_inv H2)
    as (z1 & z2 & z3 & z4 & n1 & n2 & b1 & b2 & Hc2 & Hd2).
  rewrite (strptime_canonical Hc1 Hd1) in P1.
  rewrite (strptime_canonical Hc2 Hd2) in P2.
  destruct (month2 m1 m2 && day2 a1 a2); [| discriminate].
  destruct (month2 n1 n2 && day2 b1 b2); [| discriminate].
  unfold checked in P1, P2.
  destruct (valid_date _ _ _) in P1; [| discriminate].
  destruct (valid_date _ _ _) in P2; [| discriminate].
  inversion P1; inversion P2; subst.
  unfold gt. rewrite Hc1, Hc2. now apply gt_canonical.
Qed.


Lemma decimal_value4 (a b c d : ascii) :
  decimal_value 0 [a; b; c; d]
  = 1000 * digit_val a + 100 * digit_val b + 10 * digit_val c + digit_val d.
Proof. cbv beta iota delta [decimal_value]. lia. Qed.

(** Printing what was parsed from a canonical date gives it back, where
    the year is printed with four digits. *)
Lemma strftime_strptime_Ymd (E : env) (s : string) (dt : Z * Z * Z) :
  strftime_pads_year E = true \/ 1000 <= fst (fst dt) ->
  is_canonical s = true -> strptime_Ymd s = Some dt -> strftime_Ymd E dt = s.
Proof.
  intros Hp H1 P1.
  destruct (canonical_inv H1)
    as (y1 & y2 & y3 & y4 & m1 & m2 & a1 & a2 & Hc1 & Hd1).
  rewrite (strptime_canonical Hc1 Hd1) in P1.
  destruct (month2 m1 m2 && day2 a1 a2); [| discriminate].
  unfold checked in P1. destruct (valid_date _ _ _); [| discriminate].
  assert (Hdt : dt = (decimal_value 0 [y1; y2; y3; y4], two_digits m1 m2,
                      two_digits a1 a2)) by congruence.
  subst dt. clear P1. cbn [fst] in Hp.
  rewrite <- (str_chars s), Hc1. unfold strftime_Ymd.
  rewrite (PyFacts.strftime_Y_padded Hp). f_equal.
  decimals Hd1.
  unfold pad4, pad2, two_digits. rewrite decimal_value4. cbn [app].
  pose proof (decimal_val Hdec). pose proof (decimal_val Hdec0).
  pose proof (decimal_val Hdec1). pose proof (decimal_val Hdec2).
  pose proof (decimal_val Hdec3). pose proof (decimal_val Hdec4).
  pose proof (decimal_val Hdec5). pose proof (decimal_val Hdec6).
  rewrite (@digit_char_of y1), (@digit_char_of y2), (@digit_char_of y3),
    (@digit_char_of y4), (@digit_char_of m1), (@digit_char_of m2),
    (@digit_char_of a1), (@digit_char_of a2);
    try assumption; try reflexivity;
    Z.div_mod_to_equations; lia.
Qed.

Lemma month2_pad (m : Z) :
  1 <= m <= 12 -> month2 (digit_char (m / 10)) (digit_char m) = true.
Proof.
  intros H.
  assert (C : m = 1 \/ m = 2 \/ m = 3 \/ m = 4 \/ m = 5 \/ m = 6 \/ m = 7
              \/ m = 8 \/ m = 9 \/ m = 10 \/ m = 11 \/ m = 12) by lia.
  repeat (destruct C as [C | C]; [subst; reflexivity |]).
  subst; reflexivity.
Qed.

Lemma day2_pad (d : Z) :
  1 <= d <= 31 -> day2 (digit_char (d / 10)) (digit_char d) = true.
Proof.
  intros H.
  assert (C : d = 1 \/ d = 2 \/ d = 3 \/ d = 4 \/ d = 5 \/ d = 6 \/ d = 7
              \/ d = 8 \/ d = 9 \/ d = 10 \/ d = 11 \/ d = 12 \/ d = 13
              \/ d = 14 \/ d = 15 \/ d = 16 \/ d = 17 \/ d = 18 \/ d = 19
              \/ d = 20 \/ d = 21 \/ d = 22 \/ d = 23 \/ d = 24 \/ d = 25
              \/ d = 26 \/ d = 27 \/ d = 28 \/ d = 29 \/ d = 30 \/ d = 31)
    by lia.
  repeat (destruct C as [C | C]; [subst; reflexivity |]).
  subst; reflexivity.
Qed.

Lemma two_digits_pad (n : Z) :
  0 <= n < 100 -> two_digits (digit_char (n / 10)) (digit_char n) = n.
Proof.
  intros H. unfold two_digits. rewrite !digit_val_digit_char.
  Z.div_mod_to_equations. lia.
Qed.

Lemma decimal_value_pad4 (y : Z) :
  0 <= y <= 9999 -> decimal_value 0 (pad4 y) = y.
Proof.
  intros H. unfold pad4. rewrite decimal_value4.
  rewrite !digit_val_digit_char. Z.div_mod_to_equations. lia.
Qed.

Lemma valid_date_bounds (y m d : Z) :
  valid_date y m d = true ->
  1 <= y <= 9999 /\ 1 <= m <= 12 /\ 1 <= d <= 31.
Proof.
  unfold valid_date, days_in_month. intros H.
  repeat (apply andb_true_iff in H; destruct H as [H ?]).
  repeat match goal with
         | H : (_ <=? _) = true |- _ => apply Z.leb_le in H
         end.
  repeat match goal with
         | H : context [if ?c then _ else _] |- _ => destruct c
         end; lia.
Qed.

Lemma year4_pad4 (y : Z) : 0 <= y <= 9999 -> year4 (pad4 y) = Some y.
Proof.
  intros H. unfold year4. unfold pad4 at 1 2.
  unfold all_decimal. cbn [forallb].
  rewrite !PyFacts.isdecimal_digit_char. cbn [andb].
  fold (pad4 y). now rewrite decimal_value_pad4.
Qed.

(** Parsing what [strftime("%Y-%m-%d")] printed gives the date back,
    where the year is printed with four digits. *)
Lemma strptime_strftime_Ymd (E : env) (y m d : Z) :
  strftime_pads_year E = true \/ 1000 <= y ->
  valid_date y m d = true ->
  strptime_Ymd (strftime_Ymd E (y, m, d)) = Some (y, m, d).
Proof.
  intros Hp Hv. destruct (valid_date_bounds Hv) as (Hy & Hm & Hd).
  rewrite (@strptime_canonical (strftime_Ymd E (y, m, d))
             (digit_char (y / 1000)) (digit_char (y / 100))
             (digit_char (y / 10)) (digit_char y)
             (digit_char (m / 10)) (digit_char m)
             (digit_char (d / 10)) (digit_char d)).
  - rewrite month2_pad, day2_pad by assumption. cbn [andb].
    rewrite !two_digits_pad by lia.
    change [digit_char (y / 1000); digit_char (y / 100);
            digit_char (y / 10); digit_char y] with (pad4 y).
    rewrite decimal_value_pad4 by lia. unfold checked. now rewrite Hv.
  - unfold strftime_Ymd.
    now rewrite PyFacts.chars_str, (PyFacts.strftime_Y_padded Hp).
  - repeat constructor; apply PyFacts.isdecimal_digit_char.
Qed.

Lemma isspace_digit_char (n : Z) : isspace (digit_char n) = false.
Proof. apply decimal_not_space, PyFacts.isdecimal_digit_char. Qed.

(** The year as [%Y] prints it starts with a digit. *)
Lemma drop_space_strftime_Y (E : env) (y : Z) :
  drop_while isspace (strftime_Y E y) = strftime_Y E y.
Proof.
  destruct (PyFacts.strftime_Y_digits E y) as (c & r & -> & Hd & _).
  cbn [drop_while]. inversion Hd as [| c' r' Hc Hr]; subst.
  now rewrite (decimal_not_space Hc).
Qed.

(** Parsing what [strftime("%b %d, %Y")] printed: month and day are read
    back, and the date is accepted when the year has four digits. *)
Lemma strptime_bdY_display (E : env) (y m d : Z) :
  valid_date y m d = true ->
  strptime_bdY (strftime_bdY E (y, m, d))
  = match year4 (strftime_Y E y) with
    | Some y' => checked y' m d
    | None => None
    end.
Proof.
  intros Hv. destruct (valid_date_bounds Hv) as (Hy & Hm & Hd).
  unfold strptime_bdY, strftime_bdY. rewrite PyFacts.chars_str.
  assert (Habbr : exists a b c,
             chars (month_abbr m) = [a; b; c]
             /\ month_of_abbr a b c = Some m).
  { unfold month_abbr.
    destruct m as [| p | p]; try lia.
    do 4 (destruct p as [p | p |];
          try (eexists _, _, _; split; reflexivity)); lia. }
  destruct Habbr as (a & b & c & Hch & Hmo).
  rewrite Hch. cbn [app]. rewrite Hmo.
  unfold pad2. cbn [app take_while drop_while].
  change (isspace " ") with true. cbv iota.
  rewrite isspace_digit_char. cbn [take_while drop_while].
  rewrite day2_pad by assumption.
  change (Ascii.eqb "," ",") with true. cbn [andb].
  cbn [take_while drop_while].
  change (isspace " ") with true. cbv iota.
  rewrite drop_space_strftime_Y.
  now rewrite two_digits_pad by lia.
Qed.

(** Where the year is printed with four digits, the date is read back. *)
Lemma strptime_strftime_bdY (E : env) (y m d : Z) :
  strftime_pads_year E = true \/ 1000 <= y ->
  valid_date y m d = true ->
  strptime_bdY (strftime_bdY E (y, m, d)) = Some (y, m, d).
Proof.
  intros Hp Hv. destruct (valid_date_bounds Hv) as (Hy & Hm & Hd).
  rewrite (strptime_bdY_display E Hv), (PyFacts.strftime_Y_padded Hp).
  rewrite year4_pad4 by lia. unfold checked. now rewrite Hv.
Qed.

(** Where it is not, the display form of a date before the year 1000 is
    not read back: [%Y] of [strptime] wants four digits. *)
Lemma year4_unpadded (E : env) (y : Z) :
  strftime_pads_year E = false -> y < 1000 ->
  year4 (strftime_Y E y) = None.
Proof.
  intros Hp Hy. unfold strftime_Y. rewrite Hp. cbn [orb].
  destruct (Z.leb_spec 1000 y); [lia |].
  destruct (100 <=? y); [reflexivity |].
  destruct (10 <=? y); reflexivity.
Qed.

(** A string that starts with a digit is not a date in words. *)
Lemma month_of_abbr_digit (a b c : ascii) :
  isdecimal a = true -> month_of_abbr a b c = None.
Proof.
  intros H. unfold month_of_abbr.
  destruct a as [[] [] [] [] [] [] [] []]; try discriminate H;
    reflexivity.
Qed.

Lemma strptime_bdY_digit (s : string) (a b c : ascii) (r : list ascii) :
  chars s = a :: b :: c :: r -> isdecimal a = true ->
  strptime_bdY s = None.
Proof.
  intros Hc Ha. unfold strptime_bdY.
  now rewrite Hc, (month_of_abbr_digit b c Ha).
Qed.

(** The shape of a date printed with a year of fewer than four digits:
    it starts with a digit, has no space at either end, and is not
    canonical. *)
Lemma unpadded_shape (E : env) (y m d : Z) :
  strftime_pads_year E = false -> y < 1000 ->
  exists a b c r,
    chars (strftime_Ymd E (y, m, d)) = a :: b :: c :: r
    /\ isdecimal a = true
    /\ strip (strftime_Ymd E (y, m, d)) = strftime_Ymd E (y, m, d)
    /\ is_canonical (strftime_Ymd E (y, m, d)) = false.
Proof.
  intros Hp Hy.
  assert (Hshape :
            exists a b c r,
              chars (strftime_Ymd E (y, m, d)) = a :: b :: c :: r
              /\ isdecimal a = true
              /\ (exists x r', rev (a :: b :: c :: r) = digit_char x :: r')
              /\ List.length r <> 7%nat).
  { unfold strftime_Ymd, strftime_Y. rewrite PyFacts.chars_str, Hp.
    cbn [orb]. destruct (Z.leb_spec 1000 y); [lia |]. unfold pad2.
    destruct (100 <=? y); [| destruct (10 <=? y)]; cbn [app];
      eexists _, _, _, _; (split; [reflexivity |]);
      (split; [apply PyFacts.isdecimal_digit_char |]);
      (split; [cbn [rev app]; eauto | cbn [List.length]; lia]). }
  destruct Hshape as (a & b & c & r & Hch & Ha & (x & r' & Hrev) & Hlen).
  exists a, b, c, r. split; [exact Hch |]. split; [exact Ha |]. split.
  - unfold strip. rewrite strip_chars_id; [apply str_chars | |]; rewrite Hch.
    + intros x0 r0 H0. inversion H0; subst.
      now apply decimal_not_space.
    + intros x0 r0 H0. rewrite Hrev in H0. inversion H0; subst.
      apply isspace_digit_char.
  - unfold is_canonical. rewrite Hch.
    destruct r as [| r1 [| r2 [| r3 [| r4 [| r5 [| r6 [| r7 [| r8 r]]]]]]]];
      try reflexivity.
    exfalso. apply Hlen. reflexivity.
Qed.

End DateMoreFacts.

Module DateRepoFacts.
Import Store PyStr PyDate DateMoreFacts.

Lemma strptime_Ymd_valid (s : string) (y m d : Z) :
  strptime_Ymd s = Some (y, m, d) -> valid_date y m d = true.
Proof.
  unfold strptime_Ymd.
  destruct (chars s) as [| y1 [| y2 [| y3 [| y4 [| dash r]]]]];
    try discriminate.
  destruct (year4 [y1; y2; y3; y4]) as [yy |]; [| discriminate].
  destruct (negb (Ascii.eqb dash "-")); [discriminate |].
  match goal with
  | |- match ?x with _ => _ end = _ -> _ =>
      destruct x as [[mm r2] |]; [| discriminate]
  end.
  destruct (final_day r2) as [dd |]; [| discriminate].
  unfold checked. destruct (valid_date yy mm dd) eqn:Hv; [| discriminate].
  intros H. now inversion H; subst.
Qed.

Lemma canonical_fixed (E : env) (r : string) :
  is_canonical r = true ->
  Ingest.convert_date_to_storage_format E (Some r) = Some r.
Proof.
  intros H. unfold Ingest.convert_date_to_storage_format.
  rewrite (canonical_truthy H). simpl.
  now rewrite (strip_canonical H), H.
Qed.

(** A date printed with a year of fewer than four digits is left as it
    is by the normalization: it is not canonical, and it is not a date in
    words. *)
Lemma unpadded_fixed (E : env) (y m d : Z) :
  strftime_pads_year E = false -> y < 1000 ->
  Ingest.convert_date_to_storage_format E (Some (strftime_Ymd E (y, m, d)))
  = Some (strftime_Ymd E (y, m, d)).
Proof.
  intros Hp Hy.
  destruct (unpadded_shape m d Hp Hy)
    as (a & b & c & r & Hch & Ha & Hstrip & Hnc).
  set (t := strftime_Ymd E (y, m, d)) in *.
  unfold Ingest.convert_date_to_storage_format.
  assert (Ht : truthy t = true)
    by (rewrite <- (str_chars t), Hch; reflexivity).
  rewrite Ht, Hstrip, Hnc. cbn [negb].
  rewrite (strptime_bdY_digit Hch Ha).
  assert (Hy2 : strptime_bdY (t ++ ", " ++ of_Z (current_year E)) = None).
  { apply (@strptime_bdY_digit _ a b c
             (r ++ chars (", " ++ of_Z (current_year E))%string)); [| exact Ha].
    now rewrite chars_app, Hch. }
  rewrite Hy2. now destruct (str_in "," t).
Qed.

Lemma convert_cases (E : env) (s : string) :
  exists r, Ingest.convert_date_to_storage_format E (Some s) = Some r
            /\ (r = s \/ is_canonical r = true
                \/ (strftime_pads_year E = false
                    /\ exists y m d,
                        y < 1000 /\ r = strftime_Ymd E (y, m, d))).
Proof.
  unfold Ingest.convert_date_to_storage_format.
  destruct (negb (truthy s)); [eauto |].
  destruct (is_canonical (strip s)) eqn:Hc; [eauto |].
  match goal with
  | |- context [match ?p with Some _ => _ | None => _ end] =>
      destruct p as [dt |]
  end; [| eauto].
  eexists. split; [reflexivity |]. right.
  destruct (DateFacts.strftime_shape E dt)
    as [H | (Hp & y & m & d & -> & Hy)]; [now left |].
  right. split; [exact Hp |]. now exists y, m, d.
Qed.

Lemma convert_fixed_point (E : env) (s r : string) :
  Ingest.convert_date_to_storage_format E (Some s) = Some r ->
  Ingest.convert_date_to_storage_format E (Some r) = Some r.
Proof.
  intros Hr.
  destruct (convert_cases E s)
    as (r' & Hr' & [-> | [Hc | (Hp & y & m & d & Hy & ->)]]);
    rewrite Hr' in Hr; inversion Hr; subst.
  - exact Hr'.
  - now apply canonical_fixed.
  - now apply unpadded_fixed.
Qed.

(** X13. [convert_date_to_storage_format] is idempotent: normalizing a
    date that was normalized gives the same date. *)
Theorem normalizing_a_date_twice_changes_nothing (E : env)
        (date_string : option string) :
  Ingest.convert_date_to_storage_format
    E (Ingest.convert_date_to_storage_format E date_string)
  = Ingest.convert_date_to_storage_format E date_string.
Proof.
  destruct date_string as [s |]; [| reflexivity].
  destruct (convert_cases E s) as (r & Hr & _). rewrite Hr.
  exact (convert_fixed_point Hr).
Qed.

Lemma convert_truthy (E : env) (x : option string) :
  Store.truthy x = true ->
  Store.truthy (Ingest.convert_date_to_storage_format E x) = true.
Proof.
  destruct x as [s |]; [| discriminate]. simpl. intros Hs.
  unfold Ingest.convert_date_to_storage_format. rewrite Hs. simpl.
  destruct (is_canonical (strip s)) eqn:Hc.
  { simpl. now apply canonical_truthy. }
  match goal with
  | |- context [match ?p with Some _ => _ | None => _ end] =>
      destruct p as [dt |] eqn:Hp
  end; simpl; [| exact Hs].
  destruct dt as [[y m] d]. unfold strftime_Ymd.
  destruct (PyFacts.strftime_Y_digits E y) as (c & r & -> & _).
  reflexivity.
Qed.

Lemma truthy_some (x : option string) :
  Store.truthy x = true -> exists s, x = Some s /\ truthy s = true.
Proof. destruct x as [s |]; [eauto | discriminate]. Qed.

Lemma truthy_app (a b : string) :
  truthy a = true -> truthy (a ++ b)%string = true.
Proof. destruct a; [discriminate | reflexivity]. Qed.

(** X14. An album created by the single-album import has a [dateRange]
    that is its [startDate], or its [startDate] and [endDate] joined by
    [--] when it has an end date, and no [dateRange] when it has no
    [startDate]; its start and end dates are the normalized scraped
    ones. *)
Theorem created_album_has_consistent_dates (E : env) (c : Ingest.candidate)
        (dct dct' : albums_dict) (rng rng' : nat) (o : Ingest.outcome) :
  Ingest.process_single_album E c dct rng = Ok (o, dct', rng') ->
  truthy (strip (Ingest.c_url c)) = true ->
  dict_get (strip (Ingest.c_url c)) dct = None ->
  exists a',
    dict_get (strip (Ingest.c_url c)) dct' = Some a'
    /\ dateRange a' = range_of (startDate a') (endDate a')
    /\ startDate a'
       = (if Store.truthy (Ingest.c_startDate c)
          then Ingest.convert_date_to_storage_format E (Ingest.c_startDate c)
          else None)
    /\ endDate a'
       = (if Store.truthy (Ingest.c_endDate c)
          then Ingest.convert_date_to_storage_format E (Ingest.c_endDate c)
          else None).
Proof.
  intros H Hu Hnone. unfold Ingest.process_single_album in H.
  cbv zeta in H. rewrite Hu, Hnone in H. cbn [negb] in H.
  destruct (generate_unique_id E rng) as [i r].
  inversion H; subst. clear H.
  rewrite MergeFacts.dict_get_set, String.eqb_refl.
  eexists. split; [reflexivity |]. cbn [dateRange startDate endDate].
  destruct (Store.truthy (Ingest.c_startDate c)) eqn:Hs.
  2:{ cbn. destruct (Store.truthy (Ingest.c_endDate c)) eqn:He.
      - rewrite (convert_truthy E He). auto.
      - auto. }
  pose proof (convert_truthy E Hs) as Hs'.
  rewrite !Hs'.
  destruct (truthy_some Hs') as (s' & Es & Hs'').
  unfold Ingest.normalize_date_range. rewrite Hs'. cbn [negb].
  assert (Fs : Ingest.convert_date_to_storage_format
                 E (Ingest.convert_date_to_storage_format
                      E (Ingest.c_startDate c))
               = Ingest.convert_date_to_storage_format
                   E (Ingest.c_startDate c))
    by (destruct (truthy_some Hs) as (s0 & Es0 & _);
        rewrite Es0 in Es |- *; rewrite Es;
        exact (convert_fixed_point Es)).
  rewrite Fs.
  destruct (Store.truthy (Ingest.c_endDate c)) eqn:He.
  - pose proof (convert_truthy E He) as He'.
    rewrite !He'. destruct (truthy_some He') as (e' & Ee & He'').
    assert (Fe : Ingest.convert_date_to_storage_format
                   E (Ingest.convert_date_to_storage_format
                        E (Ingest.c_endDate c))
                 = Ingest.convert_date_to_storage_format
                     E (Ingest.c_endDate c))
      by (destruct (truthy_some He) as (e0 & Ee0 & _);
          rewrite Ee0 in Ee |- *; rewrite Ee;
          exact (convert_fixed_point Ee)).
    rewrite Fe.
    rewrite Es, Ee. cbn [Ingest.fmt Store.truthy range_of].
    rewrite (truthy_app _ Hs''). auto.
  - cbn [Store.truthy]. rewrite Hs'. rewrite Es. cbn [range_of]. auto.
Qed.


Lemma month_abbr_chars (m : Z) :
  exists a b c,
    chars (month_abbr m) = [a; b; c]
    /\ isdecimal a = false /\ isspace a = false.
Proof.
  unfold month_abbr.
  destruct m as [| p | p]; try (eexists _, _, _; repeat split; reflexivity).
  do 4 (destruct p as [p | p |];
        try (eexists _, _, _; repeat split; reflexivity)).
Qed.

(** The display form of a date. *)
Lemma display_chars (E : env) (y m d : Z) :
  exists a b c,
    chars (strftime_bdY E (y, m, d))
    = [a; b; c] ++ " "%char :: pad2 d
      ++ ","%char :: " "%char :: strftime_Y E y
    /\ isdecimal a = false /\ isspace a = false.
Proof.
  destruct (month_abbr_chars m) as (a & b & c & Hc & Ha).
  exists a, b, c. split; [| exact Ha].
  unfold strftime_bdY. now rewrite PyFacts.chars_str, Hc.
Qed.

(** What the normalization does with the display form of a date: it
    parses it, and keeps it as it is when that fails. *)
Lemma convert_display (E : env) (y m d : Z) :
  Ingest.convert_date_to_storage_format E (Some (strftime_bdY E (y, m, d)))
  = Some match strptime_bdY (strftime_bdY E (y, m, d)) with
         | Some dt => strftime_Ymd E dt
         | None => strftime_bdY E (y, m, d)
         end
  /\ is_canonical (strftime_bdY E (y, m, d)) = false.
Proof.
  destruct (display_chars E y m d) as (a & b & c & Hch & Hda & Hsa).
  destruct (PyFacts.strftime_Y_digits E y) as (y1 & yr & Hy & Hyd & Hlen).
  set (t := strftime_bdY E (y, m, d)) in *.
  assert (Hstrip : strip t = t).
  { unfold strip. rewrite strip_chars_id; [apply str_chars | |];
      rewrite Hch.
    - intros x r E0. inversion E0; subst. exact Hsa.
    - rewrite Hy. unfold pad2. cbn [app].
      replace (a :: b :: c :: " "%char :: digit_char (d / 10)
                 :: digit_char d :: ","%char :: " "%char :: y1 :: yr)
        with ([a; b; c; " "%char; digit_char (d / 10); digit_char d;
               ","%char; " "%char] ++ y1 :: yr) by reflexivity.
      rewrite rev_app_distr. intros x r E0.
      assert (Hlast : Forall (fun k => isdecimal k = true) (rev (y1 :: yr)))
        by (apply Forall_rev; exact Hyd).
      destruct (rev (y1 :: yr)) as [| l1 lr] eqn:Hrev.
      + apply (f_equal (@List.length ascii)) in Hrev.
        rewrite length_rev in Hrev. discriminate.
      + cbn [app] in E0. inversion E0; subst.
        inversion Hlast; subst. now apply decimal_not_space. }
  assert (Htruthy : truthy t = true).
  { rewrite <- (str_chars t), Hch. reflexivity. }
  assert (Hnc : is_canonical t = false).
  { unfold is_canonical. rewrite Hch, Hy. unfold pad2. cbn [app].
    destruct yr as [| y2 [| y3 [| y4 yr]]]; try reflexivity.
    unfold all_decimal. cbn [forallb]. now rewrite Hda. }
  assert (Hcomma : str_in "," t = true).
  { unfold str_in. rewrite Hch.
    apply (@StringFacts.contains_app
             [","%char] ([a; b; c] ++ " "%char :: pad2 d)
             (" "%char :: strftime_Y E y)). }
  split; [| exact Hnc].
  unfold Ingest.convert_date_to_storage_format.
  rewrite Htruthy, Hstrip, Hnc, Hcomma. cbn [negb].
  now destruct (strptime_bdY t).
Qed.

(** X15. Where the year is printed with four digits -- everywhere from
    the year 1000 on, and for every year where [strftime] zero-pads it --
    the display form that [format_date_for_display] gives for a date which
    [strptime] accepts is normalized by the ingest to the zero-padded form
    of that date, which is the date itself when it was zero-padded.  Where
    [strftime] does not zero-pad the year, the display form of a date
    before the year 1000 is not normalized: the ingest keeps it as it is,
    and it is not canonical. *)
Theorem displayed_date_normalizes_back (E : env) (date_string : string)
        (y m d : Z) :
  strptime_Ymd date_string = Some (y, m, d) ->
  (strftime_pads_year E = true \/ 1000 <= y ->
   Ingest.convert_date_to_storage_format
     E (Some (EditDate.format_date_for_display E date_string))
   = Some (strftime_Ymd E (y, m, d))
   /\ is_canonical (strftime_Ymd E (y, m, d)) = true
   /\ (is_canonical date_string = true ->
       strftime_Ymd E (y, m, d) = date_string))
  /\ (strftime_pads_year E = false -> y < 1000 ->
      Ingest.convert_date_to_storage_format
        E (Some (EditDate.format_date_for_display E date_string))
      = Some (EditDate.format_date_for_display E date_string)
      /\ is_canonical (EditDate.format_date_for_display E date_string)
         = false).
Proof.
  intros Hp. pose proof (strptime_Ymd_valid Hp) as Hv.
  unfold EditDate.format_date_for_display. rewrite Hp.
  destruct (convert_display E y m d) as [Hconv Hnc].
  split.
  - intros Hy. split; [| split].
    + rewrite Hconv. now rewrite (strptime_strftime_bdY Hy Hv).
    + now apply PyFacts.strftime_canonical.
    + intros Hc. now apply strftime_strptime_Ymd.
  - intros Hpad Hy. split; [| exact Hnc].
    rewrite Hconv, (strptime_bdY_display E Hv).
    now rewrite (year4_unpadded Hpad Hy).
Qed.

End DateRepoFacts.

Module RangeFacts.
Import Store PyStr PyDate DateMoreFacts.

Lemma split_go_skip (sep : list ascii) (fuel : nat) (cur r : list ascii)
      (c : ascii) :
  is_prefix sep (c :: r) = false ->
  split_go sep (S fuel) cur (c :: r) = split_go sep fuel (c :: cur) r.
Proof. intros H. simpl. now rewrite H. Qed.

Lemma split_go_cut (sep : list ascii) (fuel : nat) (cur r : list ascii)
      (c : ascii) :
  is_prefix sep (c :: r) = true ->
  split_go sep (S fuel) cur (c :: r)
  = rev cur :: split_go sep fuel [] (skipn (List.length sep) (c :: r)).
Proof. intros H. simpl split_go. now rewrite H. Qed.

Ltac no_dashes :=
  cbn [is_prefix];
  repeat match goal with
         | H : isdecimal ?c = true |- context [Ascii.eqb "-" ?c] =>
             rewrite (dash_not_decimal H)
         end;
  rewrite ?andb_false_r; reflexivity.

(** Splitting two canonical dates joined by [--]. *)
Lemma split_range (s e : string) :
  is_canonical s = true -> is_canonical e = true ->
  split (s ++ "--" ++ e) "--" = [s; e].
Proof.
  intros H1 H2.
  destruct (canonical_inv H1)
    as (y1 & y2 & y3 & y4 & m1 & m2 & a1 & a2 & Hc1 & Hd1).
  destruct (canonical_inv H2)
    as (z1 & z2 & z3 & z4 & n1 & n2 & b1 & b2 & Hc2 & Hd2).
  unfold split. rewrite !chars_app, Hc1, Hc2.
  decimals Hd1. decimals Hd2.
  change (chars "--") with ["-"%char; "-"%char].
  cbn [app List.length].
  do 10 (rewrite split_go_skip by no_dashes).
  rewrite split_go_cut by reflexivity.
  cbn [List.length skipn].
  do 10 (rewrite split_go_skip by no_dashes).
  cbn [split_go rev app map].
  rewrite <- Hc1, <- Hc2, !str_chars. reflexivity.
Qed.

Lemma strip_range (s e : string) :
  is_canonical s = true -> is_canonical e = true ->
  strip (s ++ "--" ++ e) = (s ++ "--" ++ e)%string.
Proof.
  intros H1 H2.
  destruct (canonical_inv H1)
    as (y1 & y2 & y3 & y4 & m1 & m2 & a1 & a2 & Hc1 & Hd1).
  destruct (canonical_inv H2)
    as (z1 & z2 & z3 & z4 & n1 & n2 & b1 & b2 & Hc2 & Hd2).
  unfold strip. rewrite strip_chars_id; [apply str_chars | |];
    rewrite !chars_app, Hc1, Hc2; decimals Hd1; decimals Hd2;
    simpl; intros c r E; inversion E; subst; now apply decimal_not_space.
Qed.

Lemma range_has_dashes (s e : string) : str_in "--" (s ++ "--" ++ e) = true.
Proof.
  unfold str_in. rewrite !chars_app. apply StringFacts.contains_app.
Qed.

Lemma parse_padded_range (s e : string) (ds de : Z * Z * Z) :
  is_canonical s = true -> is_canonical e = true ->
  strptime_Ymd s = Some ds -> strptime_Ymd e = Some de ->
  EditDate.parse_date_input (s ++ "--" ++ e)
  = if gt s e then None
    else Some (s, Some e, (s ++ "--" ++ e)%string).
Proof.
  intros H1 H2 P1 P2.
  unfold EditDate.parse_date_input. cbv zeta.
  rewrite (strip_range H1 H2), range_has_dashes, (split_range H1 H2).
  cbv beta iota.
  rewrite (strip_canonical H1), (strip_canonical H2).
  unfold EditDate.validate_date. rewrite P1, P2. reflexivity.
Qed.

(** X16. For two valid dates of the canonical, zero-padded shape,
    [parse_date_input] accepts [start--end] exactly when the start is not
    after the end as calendar dates, and then returns the two dates and
    the range as given. *)
Theorem padded_range_accepted_iff_ordered (start_date end_date : string)
        (ds de : Z * Z * Z) :
  is_canonical start_date = true ->
  is_canonical end_date = true ->
  strptime_Ymd start_date = Some ds ->
  strptime_Ymd end_date = Some de ->
  (Search.date_le ds de ->
   EditDate.parse_date_input (start_date ++ "--" ++ end_date)
   = Some (start_date, Some end_date,
           (start_date ++ "--" ++ end_date)%string))
  /\ (~ Search.date_le ds de ->
      EditDate.parse_date_input (start_date ++ "--" ++ end_date) = None).
Proof.
  intros H1 H2 P1 P2.
  rewrite (parse_padded_range H1 H2 P1 P2).
  pose proof (canonical_order H1 H2 P1 P2) as Hord.
  destruct (gt start_date end_date); split; intros H.
  - apply Hord in H. discriminate.
  - reflexivity.
  - reflexivity.
  - exfalso. apply H, Hord. reflexivity.
Qed.

Lemma canonical_starts (s : string) :
  is_canonical s = true -> starts_canonical s = true.
Proof.
  intros H. destruct (canonical_inv H)
    as (y1 & y2 & y3 & y4 & m1 & m2 & a1 & a2 & Hc & Hd).
  unfold is_canonical in H. unfold starts_canonical.
  rewrite Hc in *. exact H.
Qed.

(** X17. The text that the search offers for editing the date of an album
    whose stored dates are valid and zero-padded (and in order when there
    are two) is accepted by [parse_date_input] of [edit_date.py] and gives
    the stored dates again. *)
Theorem offered_edit_text_is_accepted (E : env) (album : album)
        (start_date : string) (ds : Z * Z * Z) :
  startDate album = Some start_date ->
  is_canonical start_date = true ->
  strptime_Ymd start_date = Some ds ->
  (Store.truthy (endDate album) = false ->
   EditDate.parse_date_input (Search.date_range_edit E album)
   = Some (start_date, None, start_date))
  /\ (forall end_date de,
         endDate album = Some end_date ->
         is_canonical end_date = true ->
         strptime_Ymd end_date = Some de ->
         Search.date_le ds de ->
         EditDate.parse_date_input (Search.date_range_edit E album)
         = Some (start_date, Some end_date,
                 (start_date ++ "--" ++ end_date)%string)).
Proof.
  intros Hs Hc Hp.
  assert (Hsingle : Search.convert_single_date E start_date = Some start_date).
  { unfold Search.convert_single_date.
    now rewrite (canonical_truthy Hc), (canonical_starts Hc). }
  unfold Search.date_range_edit, Search.convert_date_to_edit_format.
  rewrite Hs. cbn [Search.get_or_empty].
  rewrite Hsingle. cbv zeta. rewrite !(canonical_truthy Hc). cbn [negb].
  split.
  - intros He.
    assert (He' : truthy (Search.get_or_empty (endDate album)) = false).
    { destruct (endDate album); [exact He | reflexivity]. }
    rewrite He'. unfold EditDate.parse_date_input. cbv zeta.
    rewrite (strip_canonical Hc).
    assert (Hno : str_in "--" start_date = false).
    { destruct (canonical_inv Hc)
        as (y1 & y2 & y3 & y4 & m1 & m2 & a1 & a2 & Hch & Hd).
      unfold str_in. rewrite Hch. decimals Hd.
      change (chars "--") with ["-"%char; "-"%char].
      cbn [contains is_prefix].
      repeat match goal with
             | H : isdecimal ?c = true |- context [Ascii.eqb "-" ?c] =>
                 rewrite (dash_not_decimal H)
             end.
      rewrite ?andb_false_r. reflexivity. }
    rewrite Hno. unfold EditDate.validate_date. now rewrite Hp.
  - intros end_date de He Hce Hpe Hle.
    rewrite He. cbn [Search.get_or_empty].
    assert (Hsingle' : Search.convert_single_date E end_date = Some end_date).
    { unfold Search.convert_single_date.
      now rewrite (canonical_truthy Hce), (canonical_starts Hce). }
    rewrite Hsingle', !(canonical_truthy Hce).
    rewrite (parse_padded_range Hc Hce Hp Hpe).
    apply (canonical_order Hc Hce Hp Hpe) in Hle. now rewrite Hle.
Qed.

End RangeFacts.

Module EditDateMoreFacts.
Import Store EditDate.

(** The album that the update loop writes in place of [a]. *)
Lemma edit_date_loop_first (u s r : string) (e : option string)
      (albums : list album) :
  find_and_update u s e r albums
  = update_first u
      (fun a => mkAlbum (album_id a) (url a) (title a) (tags a) (itemCount a)
                        (Some r) (Some s) (if truthy e then e else None))
      albums.
Proof.
  induction albums as [| a albums IH]; simpl; [reflexivity |].
  destruct (has_url u a).
  - destruct (truthy e); reflexivity.
  - now rewrite IH.
Qed.

Lemma validated_truthy (s : string) :
  validate_date s = true -> PyStr.truthy s = true.
Proof. destruct s; [discriminate | reflexivity]. Qed.

(** X18. A run of [edit_date.py] that reports success has replaced the
    three date fields of the first album with the url by the parsed
    values, the [dateRange] being the start date or the two dates joined
    by [--], and has changed nothing else; any other run leaves the store
    as it is. *)
Theorem edit_date_sets_consistent_dates (u date_input : string) (d d' : disk)
        (o : output) :
  main u date_input d = (o, d') ->
  (d' = d /\ forall s e r, o <> DateUpdated s e r)
  \/ exists s e r pre a post,
      o = DateUpdated s e r
      /\ parse_date_input date_input = Some (s, e, r)
      /\ read_database d = pre ++ a :: post
      /\ existsb (has_url u) pre = false /\ url a = u
      /\ read_database d'
         = pre ++ mkAlbum (album_id a) (url a) (title a) (tags a)
                          (itemCount a) (Some r) (Some s) e :: post
      /\ Some r = range_of (Some s) e.
Proof.
  unfold main.
  destruct (parse_date_input date_input) as [[[s e] r] |] eqn:Hp.
  2:{ intros H; inversion H; subst. left. split; [auto | discriminate]. }
  destruct (PyStr.truthy u) eqn:Hu; simpl.
  2:{ intros H; inversion H; subst. left. split; [auto | discriminate]. }
  rewrite edit_date_loop_first.
  match goal with
  | |- context [update_first u ?f _] => set (f0 := f)
  end.
  destruct (update_first u f0 (read_database d)) as [albums |] eqn:Hf.
  2:{ intros H; inversion H; subst. left. split; [auto | discriminate]. }
  intros H; inversion H; subst. clear H. right.
  apply EditFieldsFacts.update_first_inv in Hf.
  destruct Hf as (pre & a & post & Hr & Hpre & Ha & ->).
  assert (He : (if truthy e then e else None) = e
               /\ Some r = range_of (Some s) e).
  { destruct e as [e0 |].
    - destruct (EditDateFacts.parse_date_input_range Hp)
        as (_ & Hv & _ & ->).
      simpl. now rewrite (validated_truthy Hv).
    - destruct (EditDateFacts.parse_date_input_single Hp) as (_ & ->).
      auto. }
  destruct He as [He Hrange].
  exists s, e, r, pre, a, post.
  unfold has_url in Ha. apply String.eqb_eq in Ha.
  repeat split; auto.
  unfold read_database at 1. rewrite StoreFacts.search_read_written.
  subst f0. cbv beta. now rewrite He.
Qed.

End EditDateMoreFacts.

Module SearchTextFacts.
Import Store PyStr Search.

(** *** The filters of a query *)

Lemma filters_loop_spec (terms : list string) (year_filter : option (Z * Z))
      (remaining_terms : list string) :
  filters_loop terms year_filter remaining_terms
  = (match rev (filter is_year_term terms) with
     | t :: _ => year_range_of t
     | [] => year_filter
     end,
     remaining_terms ++ filter (fun t => negb (is_year_term t)) terms).
Proof.
  revert year_filter remaining_terms.
  induction terms as [| t terms IH]; intros yf rem; simpl.
  - now rewrite app_nil_r.
  - destruct (year_match t) as [[s g2] |] eqn:Hy.
    + assert (Hit : is_year_term t = true)
        by (unfold is_year_term; now rewrite Hy).
      rewrite Hit. simpl. rewrite IH. f_equal.
      destruct (rev (filter is_year_term terms)) as [| t' l] eqn:Hr; simpl;
        [| reflexivity].
      unfold year_range_of. rewrite Hy. destruct g2; reflexivity.
    + assert (Hit : is_year_term t = false)
        by (unfold is_year_term; now rewrite Hy).
      rewrite Hit. simpl. rewrite IH, <- app_assoc. reflexivity.
Qed.

(** X19. [parse_search_filters] takes the year terms out of the query:
    the year filter is that of the last year term (a single year giving a
    range from that year to itself), and the remaining query is made of
    the other terms, in their order, joined by single blanks. *)
Theorem year_terms_are_taken_out_of_the_query (search_query : string) :
  truthy search_query = true ->
  parse_search_filters search_query
  = (match rev (filter is_year_term (split_ws search_query)) with
     | t :: _ => year_range_of t
     | [] => None
     end,
     join " " (filter (fun t => negb (is_year_term t))
                      (split_ws search_query))).
Proof.
  intros H. unfold parse_search_filters. rewrite H. simpl.
  now rewrite filters_loop_spec.
Qed.

(** *** Words of a text are parts of it *)

Lemma split_ws_go_parts (l cur piece : list ascii) :
  In piece (split_ws_go cur l) ->
  exists pre post, rev cur ++ l = pre ++ piece ++ post.
Proof.
  revert cur. induction l as [| c r IH]; intros cur Hin.
  - simpl in Hin. destruct cur as [| x cur']; [contradiction |].
    destruct Hin as [<- | []]. exists [], []. now rewrite !app_nil_r.
  - simpl in Hin. destruct (isspace c).
    + destruct cur as [| x cur'].
      * destruct (IH [] Hin) as (pre & post & E). simpl in E.
        exists (c :: pre), post. simpl. now rewrite E.
      * destruct Hin as [<- | Hin].
        -- exists [], (c :: r). reflexivity.
        -- destruct (IH [] Hin) as (pre & post & E). simpl in E.
           exists (rev (x :: cur') ++ c :: pre), post.
           rewrite E, <- app_assoc. reflexivity.
    + destruct (IH (c :: cur) Hin) as (pre & post & E).
      exists pre, post. rewrite <- E. simpl. now rewrite <- app_assoc.
Qed.

Lemma split_ws_parts (s term : string) :
  In term (split_ws s) -> str_in term s = true.
Proof.
  unfold split_ws, str_in. intros Hin. apply in_map_iff in Hin.
  destruct Hin as (piece & <- & Hin).
  destruct (split_ws_go_parts Hin) as (pre & post & E). simpl in E.
  rewrite PyFacts.chars_str, E. apply StringFacts.contains_app.
Qed.

(** X20. Every title matches the search terms made of its own normalized
    words. *)
Theorem a_title_matches_its_own_words (title : string) :
  matches_search title (split_ws (normalize_text title)) = true.
Proof.
  unfold matches_search.
  destruct (split_ws (normalize_text title)) as [| t l] eqn:E;
    [reflexivity |].
  rewrite <- E. apply forallb_forall. intros term Hin.
  now apply split_ws_parts.
Qed.

(** *** The suffix of scraped titles *)

(** X21. [clean_title] removes the suffix [" - Google Photos"] and nothing
    else. *)
Theorem clean_title_strips_the_suffix (title : string) :
  clean_title (title ++ " - Google Photos") = title.
Proof.
  unfold clean_title, endswith.
  rewrite DateMoreFacts.chars_app, rev_app_distr, StringFacts.is_prefix_app.
  rewrite length_app.
  replace (List.length (chars title) + List.length (chars " - Google Photos")
           - 16)%nat with (List.length (chars title) + 0)%nat
    by (simpl; lia).
  rewrite firstn_app_2. simpl. rewrite app_nil_r.
  apply DateMoreFacts.str_chars.
Qed.

End SearchTextFacts.

Module IdListFacts.
Import Store PyStr Search.

Lemma split_go_word (c : ascii) (w rest cur : list ascii) (fuel : nat) :
  ~ In c w ->
  split_go [c] (List.length w + fuel) cur (w ++ rest)
  = split_go [c] fuel (rev w ++ cur) rest.
Proof.
  revert cur. induction w as [| x w IH]; intros cur Hnot; [reflexivity |].
  simpl List.length. simpl app at 1.
  change (S (List.length w) + fuel)%nat with (S (List.length w + fuel)).
  rewrite RangeFacts.split_go_skip.
  - rewrite IH by (intros H; apply Hnot; now right).
    simpl. now rewrite <- app_assoc.
  - simpl. destruct (Ascii.eqb_spec c x) as [-> | _]; [| reflexivity].
    exfalso. apply Hnot. now left.
Qed.

Lemma split_go_last (c : ascii) (w cur : list ascii) (fuel : nat) :
  ~ In c w ->
  split_go [c] (S (List.length w + fuel)) cur w = [rev cur ++ w].
Proof.
  intros Hnot.
  pose proof (@split_go_word c w [] cur (S fuel) Hnot) as H.
  rewrite app_nil_r in H.
  replace (S (List.length w + fuel)) with (List.length w + S fuel)%nat by lia.
  rewrite H. simpl. now rewrite rev_app_distr, rev_involutive.
Qed.

Lemma join_cons (sep x : string) (l : list string) :
  l <> [] -> join sep (x :: l) = (x ++ sep ++ join sep l)%string.
Proof. destruct l; [congruence | reflexivity]. Qed.

Lemma split_go_join (c : ascii) (ids : list string) (x : string)
      (cur : list ascii) (fuel : nat) :
  Forall (fun i => ~ In c (chars i)) (x :: ids) ->
  split_go [c] (S (List.length (chars (join (String c "") (x :: ids))) + fuel))
           cur (chars (join (String c "") (x :: ids)))
  = (rev cur ++ chars x) :: map chars ids.
Proof.
  revert x cur fuel. induction ids as [| y ids IH]; intros x cur fuel Hall.
  - simpl join. inversion Hall; subst.
    now apply split_go_last.
  - rewrite join_cons by discriminate.
    rewrite !DateMoreFacts.chars_app. inversion Hall; subst.
    change (chars (String c "")) with [c].
    rewrite !length_app.
    replace (S (List.length (chars x)
                + (List.length [c]
                   + List.length (chars (join (String c "") (y :: ids))))
                + fuel))%nat
      with (List.length (chars x)
            + S (S (List.length (chars (join (String c "") (y :: ids)))
                    + fuel)))%nat by (simpl; lia).
    rewrite split_go_word by assumption. cbn [app].
    rewrite RangeFacts.split_go_cut by (simpl; now rewrite Ascii.eqb_refl).
    cbn [skipn List.length]. rewrite IH by assumption.
    simpl. now rewrite rev_app_distr, rev_involutive.
Qed.

(** Splitting what was joined with a one-character separator. *)
Lemma split_join (c : ascii) (ids : list string) :
  ids <> [] ->
  Forall (fun i => ~ In c (chars i)) ids ->
  split (join (String c "") ids) (String c "") = ids.
Proof.
  intros Hne Hall. destruct ids as [| x ids]; [congruence |].
  unfold split. change (chars (String c "")) with [c].
  pose proof (@split_go_join c ids x [] 0 Hall) as H.
  rewrite Nat.add_0_r in H. rewrite H. simpl.
  rewrite DateMoreFacts.str_chars. f_equal.
  rewrite map_map. rewrite <- (map_id ids) at 2.
  apply map_ext. intros i. apply DateMoreFacts.str_chars.
Qed.

Lemma plain_id_inv (i : string) :
  plain_id i = true ->
  truthy i = true
  /\ Forall (fun c => isspace c = false /\ c <> ","%char) (chars i).
Proof.
  unfold plain_id. intros H. apply andb_true_iff in H. destruct H as [Ht Hf].
  split; [exact Ht |]. apply Forall_forall. intros c Hc.
  rewrite forallb_forall in Hf. specialize (Hf c Hc).
  apply andb_true_iff in Hf. destruct Hf as [H1 H2].
  apply negb_true_iff in H1, H2. split; [exact H1 |].
  intros ->. discriminate.
Qed.

Lemma plain_strip (i : string) : plain_id i = true -> strip i = i.
Proof.
  intros H. destruct (plain_id_inv H) as [_ Hall].
  unfold strip. rewrite DateMoreFacts.strip_chars_id;
    [apply DateMoreFacts.str_chars | |].
  - intros c r E. rewrite E in Hall. inversion Hall; subst. tauto.
  - intros c r E. apply Forall_rev in Hall. rewrite E in Hall.
    inversion Hall; subst. tauto.
Qed.

Lemma join_chars_plain (ids : list string) :
  Forall (fun i => plain_id i = true) ids ->
  Forall (fun c => isspace c = false) (chars (join "," ids)).
Proof.
  induction 1 as [| x ids Hx Hall IH]; [constructor |].
  destruct ids as [| y ids].
  - simpl. destruct (plain_id_inv Hx) as [_ H].
    eapply Forall_impl; [| exact H]. simpl. tauto.
  - rewrite join_cons by discriminate.
    rewrite !DateMoreFacts.chars_app. apply Forall_app. split.
    + destruct (plain_id_inv Hx) as [_ H].
      eapply Forall_impl; [| exact H]. simpl. tauto.
    + apply Forall_app. split; [repeat constructor | exact IH].
Qed.

Lemma hex_char_plain (n : N) :
  (n < 16)%N ->
  isspace (hex_char n) = false /\ hex_char n <> ","%char.
Proof.
  intros H.
  rewrite <- (N2Nat.id n).
  assert (Hlt : (N.to_nat n < 16)%nat) by lia.
  revert Hlt. generalize (N.to_nat n). intros k Hlt.
  do 16 (destruct k as [| k]; [split; [reflexivity | discriminate] |]).
  lia.
Qed.

Lemma hex_digits_plain (n : nat) (x : N) (acc : list ascii) :
  Forall (fun c => isspace c = false /\ c <> ","%char) acc ->
  Forall (fun c => isspace c = false /\ c <> ","%char) (hex_digits n x acc).
Proof.
  revert x acc. induction n as [| n IH]; intros x acc Hacc; simpl;
    [exact Hacc |].
  apply IH. constructor; [| exact Hacc].
  apply hex_char_plain. apply N.mod_lt. discriminate.
Qed.

Lemma Forall_firstn (A : Type) (P : A -> Prop) (n : nat) (l : list A) :
  Forall P l -> Forall P (firstn n l).
Proof.
  intros H. rewrite <- (firstn_skipn n l) in H.
  now apply Forall_app in H.
Qed.

Lemma Forall_skipn (A : Type) (P : A -> Prop) (n : nat) (l : list A) :
  Forall P l -> Forall P (skipn n l).
Proof.
  intros H. rewrite <- (firstn_skipn n l) in H.
  now apply Forall_app in H.
Qed.

Lemma uuid_plain (x : N) : plain_id (uuid_str x) = true.
Proof.
  unfold plain_id. apply andb_true_iff. split.
  - unfold uuid_str. simpl.
    destruct (firstn 8 (hex_digits 32 x [])); reflexivity.
  - apply forallb_forall. intros c Hc.
    assert (Hall : Forall (fun c => isspace c = false /\ c <> ","%char)
                          (chars (uuid_str x))).
    { unfold uuid_str. rewrite PyFacts.chars_str.
      pose proof (@hex_digits_plain 32 x [] (Forall_nil _)) as Hh.
      assert (Hd : isspace "-" = false /\ "-"%char <> ","%char)
        by (split; [reflexivity | discriminate]).
      repeat first [ apply Forall_app; split
                   | apply Forall_cons; [exact Hd |]
                   | apply Forall_firstn
                   | apply Forall_skipn
                   | exact Hh ]. }
    rewrite Forall_forall in Hall. destruct (Hall c Hc) as [H1 H2].
    rewrite H1. simpl. apply negb_true_iff.
    destruct (Ascii.eqb_spec c ","%char); [contradiction | reflexivity].
Qed.

(** X22. The ids generated by the workflow hold no whitespace and no
    comma; and a non-empty list of such ids, joined with commas into an
    [ID_list], is read back by the search as the same ids. *)
Theorem id_list_round_trip :
  (forall x, plain_id (uuid_str x) = true)
  /\ (forall ids,
         ids <> [] ->
         Forall (fun i => plain_id i = true) ids ->
         parse_id_set (strip (join "," ids)) = Some ids).
Proof.
  split; [exact uuid_plain |].
  intros ids Hne Hall.
  assert (Hs : strip (join "," ids) = join "," ids).
  { pose proof (join_chars_plain Hall) as Hj.
    unfold strip. rewrite DateMoreFacts.strip_chars_id;
      [apply DateMoreFacts.str_chars | |].
    - intros c r E0. rewrite E0 in Hj. now inversion Hj.
    - intros c r E0. apply Forall_rev in Hj. rewrite E0 in Hj.
      now inversion Hj. }
  rewrite Hs. unfold parse_id_set.
  assert (Ht : truthy (join "," ids) = true).
  { destruct ids as [| x ids]; [congruence |].
    inversion Hall; subst. destruct (plain_id_inv H1) as [Hx _].
    destruct ids; [exact Hx |]. rewrite join_cons by discriminate.
    now apply DateRepoFacts.truthy_app. }
  rewrite Ht. f_equal.
  change "," with (String ","%char "").
  rewrite split_join; [| exact Hne |].
  - clear Hne Hs Ht. induction Hall as [| x ids Hx Hall IH]; [reflexivity |].
    simpl. rewrite (plain_strip Hx).
    destruct (plain_id_inv Hx) as [-> _]. now rewrite IH.
  - eapply Forall_impl; [| exact Hall]. intros i Hi Hin.
    destruct (plain_id_inv Hi) as [_ Hc].
    rewrite Forall_forall in Hc. destruct (Hc _ Hin) as [_ Hn]. congruence.
Qed.

End IdListFacts.

Module StoredDateFacts.
Import Store PyStr PyDate DateMoreFacts Search.

Lemma string_length_chars (s : string) :
  String.length s = List.length (chars s).
Proof.
  unfold chars. induction s as [| c s IH]; simpl; [reflexivity |].
  now rewrite IH.
Qed.

Lemma int_digits_decimal (l : list ascii) (acc : Z) (after_digit : bool) :
  Forall (fun c => isdecimal c = true) l ->
  (l <> [] \/ after_digit = true) ->
  PyVal.int_digits acc after_digit l = Some (decimal_value acc l).
Proof.
  intros Hl. revert acc after_digit.
  induction Hl as [| c l Hc Hl IH]; intros acc b Hne; simpl.
  - destruct Hne as [H | ->]; [congruence | reflexivity].
  - rewrite Hc. apply IH. now right.
Qed.

Lemma decimal_not_sign (c : ascii) :
  isdecimal c = true ->
  Ascii.eqb c "+"%char = false /\ Ascii.eqb c "-"%char = false.
Proof.
  destruct c as [[] [] [] [] [] [] [] []]; vm_compute; intros;
    split; congruence.
Qed.

Lemma decimal_isdigit (c : ascii) : isdecimal c = true -> isdigit_char c = true.
Proof. unfold isdigit_char. now intros ->. Qed.

Lemma int_space_isspace (c : ascii) :
  PyVal.int_space c = true -> isspace c = true.
Proof.
  destruct c as [[] [] [] [] [] [] [] []]; vm_compute; congruence.
Qed.

Lemma decimal_not_int_space (c : ascii) :
  isdecimal c = true -> PyVal.int_space c = false.
Proof.
  intros H. destruct (PyVal.int_space c) eqn:Hs; [| reflexivity].
  apply int_space_isspace in Hs. now rewrite (decimal_not_space H) in Hs.
Qed.

Lemma int_strip_id (l : list ascii) :
  (forall c r, l = c :: r -> PyVal.int_space c = false) ->
  (forall c r, rev l = c :: r -> PyVal.int_space c = false) ->
  PyVal.int_strip l = l.
Proof.
  intros H1 H2. unfold PyVal.int_strip.
  assert (E1 : drop_while PyVal.int_space l = l).
  { destruct l as [| c r]; [reflexivity |]. simpl.
    now rewrite (H1 c r eq_refl). }
  rewrite E1.
  assert (E2 : drop_while PyVal.int_space (rev l) = rev l).
  { destruct (rev l) as [| c r] eqn:E; [reflexivity |]. simpl.
    now rewrite (H2 c r eq_refl). }
  rewrite E2. apply rev_involutive.
Qed.

(** A numeral of at most 640 digits is within every limit. *)
Lemma within_limit (E : env) (l : list ascii) :
  (List.length l <= 640)%nat -> PyVal.over_limit E l = false.
Proof.
  intros H. unfold PyVal.over_limit.
  assert (Hf : (List.length (filter isdecimal l) <= List.length l)%nat)
    by apply filter_length_le.
  destruct (N.ltb_spec 640 (N.of_nat (List.length (filter isdecimal l))));
    [lia | reflexivity].
Qed.

(** [int] and [isdigit] on a non-empty string of at most 640 decimal
    digits. *)
Lemma int_of_digits (E : env) (c : ascii) (r : list ascii) :
  Forall (fun c => isdecimal c = true) (c :: r) ->
  (List.length (c :: r) <= 640)%nat ->
  PyVal.int_of_str E (str (c :: r)) = Some (decimal_value 0 (c :: r))
  /\ isdigit (str (c :: r)) = true.
Proof.
  intros Hall Hlen. split.
  - unfold PyVal.int_of_str. rewrite PyFacts.chars_str.
    rewrite int_strip_id.
    + rewrite (within_limit E Hlen).
      inversion Hall; subst.
      destruct (decimal_not_sign H1) as [-> ->].
      apply int_digits_decimal; [exact Hall | left; discriminate].
    + intros x y E1. inversion E1; subst. inversion Hall; subst.
      now apply decimal_not_int_space.
    + intros x y E1. apply Forall_rev in Hall. rewrite E1 in Hall.
      inversion Hall; subst. now apply decimal_not_int_space.
  - unfold isdigit. rewrite PyFacts.chars_str. simpl truthy. cbn [andb].
    apply forallb_forall. intros x Hx. rewrite Forall_forall in Hall.
    apply decimal_isdigit, Hall, Hx.
Qed.

Lemma dash_not_among_decimals (l : list ascii) :
  Forall (fun c => isdecimal c = true) l -> ~ In "-"%char l.
Proof.
  intros H Hin. rewrite Forall_forall in H. specialize (H _ Hin).
  discriminate.
Qed.

Lemma split_canonical (s : string) (y1 y2 y3 y4 m1 m2 a1 a2 : ascii) :
  chars s = [y1; y2; y3; y4; "-"%char; m1; m2; "-"%char; a1; a2] ->
  Forall (fun c => isdecimal c = true) [y1; y2; y3; y4; m1; m2; a1; a2] ->
  split s "-" = [str [y1; y2; y3; y4]; str [m1; m2]; str [a1; a2]].
Proof.
  intros Hc Hd. decimals Hd.
  assert (Hs : s = join (String "-"%char "")
                        [str [y1; y2; y3; y4]; str [m1; m2]; str [a1; a2]]).
  { rewrite <- (str_chars s), Hc. reflexivity. }
  rewrite Hs at 1. change "-" with (String "-"%char "").
  apply IdListFacts.split_join; [discriminate |].
  repeat constructor; rewrite PyFacts.chars_str;
    apply dash_not_among_decimals; repeat constructor; assumption.
Qed.

(** X23. A valid date of the canonical, zero-padded shape is read by the
    search as that date: [parse_date_for_sorting] gives its year, month
    and day, and [extract_year_from_date] its year. *)
Theorem canonical_dates_are_read_back (E : env) (date_string : string)
        (y m d : Z) :
  is_canonical date_string = true ->
  strptime_Ymd date_string = Some (y, m, d) ->
  parse_date_for_sorting E date_string = (y, m, d)
  /\ extract_year_from_date E date_string = Some y.
Proof.
  intros Hcan Hp.
  destruct (canonical_inv Hcan)
    as (y1 & y2 & y3 & y4 & m1 & m2 & a1 & a2 & Hc & Hd).
  rewrite (strptime_canonical Hc Hd) in Hp.
  destruct (month2 m1 m2 && day2 a1 a2); [| discriminate].
  unfold checked in Hp. destruct (valid_date _ _ _); [| discriminate].
  assert (Ey : y = decimal_value 0 [y1; y2; y3; y4]) by congruence.
  assert (Em : m = two_digits m1 m2) by congruence.
  assert (Ed : d = two_digits a1 a2) by congruence.
  clear Hp.
  pose proof (split_canonical Hc Hd) as Hsplit.
  assert (Hdash : str_in "-" date_string = true).
  { unfold str_in. rewrite Hc.
    apply (@StringFacts.contains_app ["-"%char] [y1; y2; y3; y4]
                                     [m1; m2; "-"%char; a1; a2]). }
  assert (Hlen : String.length date_string = 10%nat).
  { rewrite string_length_chars, Hc. reflexivity. }
  assert (Hd' := Hd). decimals Hd'.
  destruct (@int_of_digits E y1 [y2; y3; y4]) as [Hiy Hdy];
    [repeat constructor; assumption | simpl; lia |].
  destruct (@int_of_digits E m1 [m2]) as [Him Hdm];
    [repeat constructor; assumption | simpl; lia |].
  destruct (@int_of_digits E a1 [a2]) as [Hia Hda];
    [repeat constructor; assumption | simpl; lia |].
  assert (E2 : forall c1 c2, decimal_value 0 [c1; c2] = two_digits c1 c2).
  { intros c1 c2. unfold two_digits.
    cbv beta iota delta [decimal_value]. lia. }
  split.
  - unfold parse_date_for_sorting.
    rewrite (canonical_truthy Hcan), Hdash, Hlen, Hsplit. cbn [negb andb].
    change (8 <=? 10)%nat with true. cbv iota.
    rewrite Hdy, Hdm, Hda, Hiy, Him, Hia. cbn [andb].
    rewrite !E2. congruence.
  - unfold extract_year_from_date.
    rewrite (canonical_truthy Hcan), Hdash, Hlen, Hsplit. cbn [negb andb].
    change (4 <=? 10)%nat with true. cbv iota.
    rewrite Hdy, string_length_chars, PyFacts.chars_str. cbn [List.length].
    change (4 =? 4)%nat with true. cbn [andb].
    rewrite Hiy. congruence.
Qed.

End StoredDateFacts.

Module PySortFacts.

Section Sorted.

Variable A : Type.
Variable before : A -> A -> bool.

Hypothesis before_asym : forall x y, before x y = true -> before y x = false.
Hypothesis le_trans :
  forall x y z, before y x = false -> before z y = false ->
                before z x = false.

Lemma in_inserted (x z : A) (l : list A) :
  In z (PySort.insert before x l) <-> z = x \/ In z l.
Proof.
  induction l as [| y l IH]; simpl.
  - intuition.
  - destruct (before y x); simpl.
    + rewrite IH. intuition.
    + intuition.
Qed.

Lemma inserted_sorted (x : A) (l : list A) :
  StronglySorted (fun x y => before y x = false) l ->
  StronglySorted (fun x y => before y x = false) (PySort.insert before x l).
Proof.
  induction l as [| y l IH]; simpl; intros Hs.
  - constructor; [constructor | constructor].
  - inversion Hs as [| y' l' Hs' Hall]; subst.
    destruct (before y x) eqn:Hlt.
    + constructor; [now apply IH |].
      apply Forall_forall. intros z Hz. apply in_inserted in Hz.
      destruct Hz as [-> | Hz].
      * now apply before_asym.
      * rewrite Forall_forall in Hall. now apply Hall.
    + constructor; [exact Hs |].
      constructor; [exact Hlt |].
      apply Forall_forall. intros z Hz.
      rewrite Forall_forall in Hall.
      apply le_trans with y; [exact Hlt | now apply Hall].
Qed.

Lemma sorted_is_sorted (l : list A) :
  StronglySorted (fun x y => before y x = false) (PySort.sorted before l).
Proof.
  induction l as [| x l IH]; simpl; [constructor |].
  now apply inserted_sorted.
Qed.

Lemma inserted_perm (x : A) (l : list A) :
  Permutation (PySort.insert before x l) (x :: l).
Proof.
  induction l as [| y l IH]; simpl; [apply Permutation_refl |].
  destruct (before y x).
  - apply Permutation_trans with (y :: x :: l).
    + now constructor.
    + apply perm_swap.
  - apply Permutation_refl.
Qed.

Lemma sorted_perm (l : list A) : Permutation (PySort.sorted before l) l.
Proof.
  induction l as [| x l IH]; simpl; [constructor |].
  apply Permutation_trans with (x :: PySort.sorted before l).
  - apply inserted_perm.
  - now constructor.
Qed.

Lemma inserted_filter (q : A -> bool) (x : A) (l : list A) :
  (forall y, q x = true -> q y = true -> before y x = false) ->
  filter q (PySort.insert before x l) = filter q (x :: l).
Proof.
  intros Hq. induction l as [| y l IH]; simpl; [reflexivity |].
  destruct (before y x) eqn:Hlt; simpl.
  - rewrite IH. simpl.
    destruct (q x) eqn:Hx, (q y) eqn:Hy; try reflexivity.
    rewrite (Hq y eq_refl Hy) in Hlt. discriminate.
  - reflexivity.
Qed.

Lemma sorted_filter (q : A -> bool) (l : list A) :
  (forall x y, q x = true -> q y = true -> before y x = false) ->
  filter q (PySort.sorted before l) = filter q l.
Proof.
  intros Hq. induction l as [| x l IH]; simpl; [reflexivity |].
  rewrite inserted_filter by (intros y; apply Hq).
  simpl. now rewrite IH.
Qed.

End Sorted.

End PySortFacts.

Module TagFacts.
Import Store PyStr ListTags.

(** *** The order of strings *)

Lemma gt_chars_irrefl (a : list ascii) : gt_chars a a = false.
Proof.
  induction a as [| x a IH]; simpl; [reflexivity |].
  now rewrite N.ltb_irrefl.
Qed.

Lemma gt_chars_asym (a b : list ascii) :
  gt_chars a b = true -> gt_chars b a = false.
Proof.
  revert b. induction a as [| x a IH]; intros [| y b]; simpl;
    try discriminate; try reflexivity.
  destruct (N.ltb_spec (code y) (code x)), (N.ltb_spec (code x) (code y));
    try discriminate; try reflexivity; try lia.
  apply IH.
Qed.

Lemma gt_chars_le_trans (a b c : list ascii) :
  gt_chars a b = false -> gt_chars b c = false -> gt_chars a c = false.
Proof.
  revert b c. induction a as [| x a IH]; intros [| y b] [| z c]; simpl;
    try discriminate; try reflexivity.
  destruct (N.ltb_spec (code y) (code x)), (N.ltb_spec (code x) (code y)),
    (N.ltb_spec (code z) (code y)), (N.ltb_spec (code y) (code z)),
    (N.ltb_spec (code z) (code x)), (N.ltb_spec (code x) (code z));
    try discriminate; try reflexivity; try lia.
  apply IH.
Qed.

Lemma key_lt_asym (x y : string * nat) :
  key_lt x y = true -> key_lt y x = false.
Proof.
  unfold key_lt, str_lt, gt. destruct x as [t1 n1], y as [t2 n2]. simpl.
  destruct (Nat.ltb_spec n2 n1), (Nat.ltb_spec n1 n2),
    (Nat.eqb_spec n1 n2), (Nat.eqb_spec n2 n1); simpl;
    try discriminate; try reflexivity; try lia.
  apply gt_chars_asym.
Qed.

Lemma key_le_trans_tags (x y z : string * nat) :
  key_le x y -> key_le y z -> key_le x z.
Proof.
  unfold key_le, key_lt, str_lt, gt.
  destruct x as [t1 n1], y as [t2 n2], z as [t3 n3]. simpl.
  destruct (Nat.ltb_spec n1 n2), (Nat.ltb_spec n2 n3), (Nat.ltb_spec n1 n3),
    (Nat.eqb_spec n2 n1), (Nat.eqb_spec n3 n2), (Nat.eqb_spec n3 n1);
    simpl; try discriminate; try reflexivity; try lia.
  intros G1 G2. eapply gt_chars_le_trans; eassumption.
Qed.

(** *** Counting *)

Lemma count_of_count_tag (tag t : string) (counts : tag_counts) :
  count_of tag (count_tag t counts)
  = (count_of tag counts + if String.eqb tag t then 1 else 0)%nat.
Proof.
  induction counts as [| [t' n] counts IH]; simpl.
  - destruct (String.eqb tag t); reflexivity.
  - destruct (String.eqb t t') eqn:E1; simpl.
    + apply String.eqb_eq in E1. subst t'.
      destruct (String.eqb tag t); lia.
    + destruct (String.eqb tag t') eqn:E2; [| exact IH].
      apply String.eqb_eq in E2. subst t'.
      rewrite String.eqb_sym, E1. lia.
Qed.

Lemma count_tag_keys (t : string) (counts : tag_counts) :
  (In t (map fst counts) /\ map fst (count_tag t counts) = map fst counts)
  \/ (~ In t (map fst counts)
      /\ map fst (count_tag t counts) = map fst counts ++ [t]).
Proof.
  induction counts as [| [t' n] counts IH]; simpl.
  - right. split; [tauto | reflexivity].
  - destruct (String.eqb t t') eqn:E1; simpl.
    + apply String.eqb_eq in E1. subst. left. auto.
    + apply String.eqb_neq in E1.
      destruct IH as [[Hin ->] | [Hnot ->]]; [left | right]; split;
        auto; intuition congruence.
Qed.

Lemma in_count_tag (t t' : string) (n : nat) (counts : tag_counts) :
  In (t', n) (count_tag t counts) ->
  (0 < n)%nat \/ In (t', n) counts.
Proof.
  induction counts as [| [t0 n0] counts IH]; simpl.
  - intros [H | []]. inversion H; subst. left. lia.
  - destruct (String.eqb t t0); simpl.
    + intros [H | H]; [inversion H; subst; left; lia | auto].
    + intros [H | H]; [auto | destruct (IH H); auto].
Qed.

Lemma well_counted_count_tag (t : string) (counts : tag_counts) :
  well_counted counts -> well_counted (count_tag t counts).
Proof.
  intros [Hnd Hpos]. split.
  - destruct (count_tag_keys t counts) as [[_ ->] | [Hnot ->]];
      [exact Hnd |].
    apply NoDup_app; [exact Hnd | repeat constructor; simpl; tauto |].
    intros x Hx [<- | []]. contradiction.
  - intros t' n Hin. destruct (in_count_tag Hin) as [H | H];
      [exact H | eapply Hpos; eassumption].
Qed.

Lemma count_of_in (t : string) (n : nat) (counts : tag_counts) :
  NoDup (map fst counts) -> In (t, n) counts -> count_of t counts = n.
Proof.
  induction counts as [| [t' n'] counts IH]; simpl; [tauto |].
  intros Hnd [H | H].
  - inversion H; subst. now rewrite String.eqb_refl.
  - inversion Hnd; subst.
    destruct (String.eqb_spec t t') as [-> | _]; [| now apply IH].
    exfalso. apply H2. change t' with (fst (t', n)). now apply in_map.
Qed.

Lemma in_count_of (t : string) (counts : tag_counts) :
  (0 < count_of t counts)%nat -> In (t, count_of t counts) counts.
Proof.
  induction counts as [| [t' n'] counts IH]; simpl; [lia |].
  destruct (String.eqb_spec t t') as [-> | _]; auto.
Qed.

Lemma count_album_spec (a : album) (counts : tag_counts) :
  well_counted counts ->
  well_counted (count_album counts a)
  /\ forall tag, count_of tag (count_album counts a)
                 = (count_of tag counts
                    + count_occ string_dec (tags_of a) tag)%nat.
Proof.
  unfold count_album. generalize (tags_of a) as l.
  intros l. revert counts. induction l as [| t l IH]; intros counts Hg; simpl.
  - split; [exact Hg | intros; lia].
  - destruct (IH _ (well_counted_count_tag t Hg)) as [Hg' Hc]. split; [exact Hg' |].
    intros tag. rewrite Hc, count_of_count_tag.
    destruct (string_dec t tag) as [-> | Hne].
    + rewrite String.eqb_refl. lia.
    + destruct (String.eqb_spec tag t); [congruence | lia].
Qed.

Lemma count_tags_spec (albums : list album) (counts : tag_counts) :
  well_counted counts ->
  well_counted (fold_left count_album albums counts)
  /\ forall tag, count_of tag (fold_left count_album albums counts)
                 = (count_of tag counts + occurrences tag albums)%nat.
Proof.
  revert counts. induction albums as [| a albums IH]; intros counts Hg; simpl.
  - split; [exact Hg | intros; lia].
  - destruct (count_album_spec a Hg) as [Hg1 Hc1].
    destruct (IH _ Hg1) as [Hg2 Hc2]. split; [exact Hg2 |].
    intros tag. rewrite Hc2, Hc1. lia.
Qed.

(** What [tag_counts] holds when the loops are done. *)
Lemma count_tags_counts (albums : list album) :
  NoDup (map fst (count_tags albums))
  /\ forall tag n,
      In (tag, n) (count_tags albums)
      <-> n = occurrences tag albums /\ (0 < n)%nat.
Proof.
  assert (H0 : well_counted []) by (split; [constructor | intros t n []]).
  destruct (count_tags_spec albums H0) as [[Hnd Hpos] Hc].
  fold (count_tags albums) in *. split; [exact Hnd |].
  intros tag n. split.
  - intros Hin. split; [| eapply Hpos; eassumption].
    rewrite <- (count_of_in Hnd Hin). rewrite Hc. simpl. reflexivity.
  - intros [-> Hn]. specialize (Hc tag). simpl in Hc. rewrite <- Hc in *.
    now apply in_count_of.
Qed.


Lemma sorted_weaken (A : Type) (R R' : A -> A -> Prop) (l : list A) :
  (forall x y, R x y -> R' x y) ->
  StronglySorted R l -> StronglySorted R' l.
Proof.
  intros HR. induction 1 as [| x l Hs IH Hall]; constructor; [exact IH |].
  eapply Forall_impl; [| exact Hall]. intros y. apply HR.
Qed.

Lemma perm_counts (l l' : tag_counts) :
  Permutation l' l ->
  NoDup (map fst l) ->
  NoDup (map fst l') /\ forall p, In p l' <-> In p l.
Proof.
  intros Hp Hnd. split.
  - eapply Permutation_NoDup; [| exact Hnd].
    apply Permutation_map, Permutation_sym, Hp.
  - intros p. split; apply Permutation_in;
      [exact Hp | apply Permutation_sym, Hp].
Qed.

(** X24. [get_all_tags] of [list_tags.py] lists every tag carried by some
    album exactly once, with the number of times it is carried, by
    descending count and, among tags of one count, by ascending
    lower-cased tag. *)
Theorem list_tags_counts_and_order (albums : list album) :
  NoDup (map fst (get_all_tags albums))
  /\ (forall tag n,
         In (tag, n) (get_all_tags albums)
         <-> n = occurrences tag albums /\ (0 < n)%nat)
  /\ StronglySorted
       (fun x y =>
          (snd y < snd x)%nat
          \/ (snd x = snd y
              /\ gt (lower (fst x)) (lower (fst y)) = false))
       (get_all_tags albums).
Proof.
  destruct (count_tags_counts albums) as [Hnd Hc].
  destruct (perm_counts (PySortFacts.sorted_perm key_lt (count_tags albums))
                        Hnd) as [Hnd' Hin].
  split; [exact Hnd' |]. split.
  - intros tag n. unfold get_all_tags. rewrite Hin. apply Hc.
  - unfold get_all_tags.
    eapply sorted_weaken;
      [| apply (PySortFacts.sorted_is_sorted key_lt_asym
                  (fun x y z => @key_le_trans_tags x y z))].
    intros [t1 n1] [t2 n2]. unfold key_lt, str_lt. simpl.
    destruct (Nat.ltb_spec n1 n2), (Nat.eqb_spec n2 n1); simpl;
      try discriminate; intros G; try (left; lia).
    right. split; [congruence | exact G].
Qed.

Lemma more_albums_asym (x y : string * nat) :
  TagMenu.more_albums x y = true -> TagMenu.more_albums y x = false.
Proof.
  unfold TagMenu.more_albums.
  destruct (Nat.ltb_spec (snd y) (snd x)), (Nat.ltb_spec (snd x) (snd y));
    try discriminate; try reflexivity; lia.
Qed.

Lemma more_albums_trans (x y z : string * nat) :
  TagMenu.more_albums y x = false -> TagMenu.more_albums z y = false ->
  TagMenu.more_albums z x = false.
Proof.
  unfold TagMenu.more_albums.
  destruct (Nat.ltb_spec (snd x) (snd y)), (Nat.ltb_spec (snd y) (snd z)),
    (Nat.ltb_spec (snd x) (snd z));
    try discriminate; try reflexivity; lia.
Qed.

Lemma menu_entries (albums : list album) :
  NoDup (map fst (TagMenu.get_all_tags albums))
  /\ forall tag n,
      In (tag, n) (TagMenu.get_all_tags albums)
      <-> n = occurrences tag albums /\ (0 < n)%nat.
Proof.
  destruct (count_tags_counts albums) as [Hnd Hc].
  destruct (perm_counts
              (PySortFacts.sorted_perm TagMenu.more_albums
                                       (count_tags albums)) Hnd)
    as [Hnd' Hin].
  split; [exact Hnd' |].
  intros tag n. unfold TagMenu.get_all_tags. rewrite Hin. apply Hc.
Qed.

(** X25. [get_all_tags] of [tag_menu.py] lists every tag carried by some
    album exactly once, with the number of times it is carried, by
    descending count, tags of one count staying in the order in which
    they were first met. *)
Theorem tag_menu_counts_and_order (albums : list album) :
  NoDup (map fst (TagMenu.get_all_tags albums))
  /\ (forall tag n,
         In (tag, n) (TagMenu.get_all_tags albums)
         <-> n = occurrences tag albums /\ (0 < n)%nat)
  /\ StronglySorted (fun x y => (snd y <= snd x)%nat)
                    (TagMenu.get_all_tags albums)
  /\ forall k,
      filter (fun x => (snd x =? k)%nat) (TagMenu.get_all_tags albums)
      = filter (fun x => (snd x =? k)%nat) (count_tags albums).
Proof.
  destruct (menu_entries albums) as [Hnd Hc].
  split; [exact Hnd |]. split; [exact Hc |]. split.
  - unfold TagMenu.get_all_tags.
    eapply sorted_weaken;
      [| apply (PySortFacts.sorted_is_sorted more_albums_asym
                  more_albums_trans)].
    intros x y. unfold TagMenu.more_albums.
    destruct (Nat.ltb_spec (snd x) (snd y)); [discriminate | lia].
  - intros k. unfold TagMenu.get_all_tags.
    apply PySortFacts.sorted_filter. intros x y Hx Hy.
    apply Nat.eqb_eq in Hx, Hy. unfold TagMenu.more_albums.
    apply Nat.ltb_ge. lia.
Qed.

End TagFacts.

Module MenuFacts.
Import Store PyStr ListTags TagMenu.

Lemma in_list_map_lower (t : string) (n : nat) (all_tags : list (string * nat)) :
  In (t, n) all_tags ->
  Search.in_list (lower t) (map (fun entry => lower (fst entry)) all_tags)
  = true.
Proof.
  intros Hin. apply ToggleMoreFacts.in_list_In.
  change (lower t) with ((fun entry : string * nat => lower (fst entry)) (t, n)).
  now apply in_map.
Qed.

Lemma exact_match_is_shown (filter_query : string)
      (all_tags : list (string * nat)) :
  Search.in_list filter_query (map (fun entry => lower (fst entry)) all_tags)
  = true ->
  filter (shown filter_query) all_tags <> [].
Proof.
  intros H. apply ToggleMoreFacts.in_list_In in H.
  apply in_map_iff in H. destruct H as (entry & He & Hin).
  assert (Hs : shown filter_query entry = true).
  { unfold shown. rewrite He. unfold str_in.
    rewrite StringFacts.contains_self. simpl. now rewrite andb_false_r. }
  intros Hnil.
  assert (Hf : In entry (filter (shown filter_query) all_tags))
    by (apply filter_In; auto).
  rewrite Hnil in Hf. contradiction.
Qed.

Lemma tag_item_not_placeholder (current_tags : list string)
      (l : list (string * nat)) :
  ~ In NoTagsFound (map (tag_item current_tags) l).
Proof.
  intros H. apply in_map_iff in H. destruct H as ([t n] & He & _).
  discriminate.
Qed.

(** X26. The "No tags found" entry of the tag menu is never shown: no
    entry of the menu is that entry. *)
Theorem menu_never_shows_no_tags_found (current_tags : list string)
        (filter_query : string) (d : disk) (i : item) :
  In i (main current_tags filter_query d) -> i <> NoTagsFound.
Proof.
  intros Hin ->. revert Hin.
  unfold main. cbv zeta.
  set (fq := strip (lower filter_query)).
  set (all_tags := get_all_tags (read_database d)).
  destruct (truthy fq) eqn:Hfq; cbn [negb app].
  - destruct (Search.in_list fq _) eqn:Hex; cbn [negb].
    + pose proof (exact_match_is_shown Hex) as Hne.
      destruct (map (tag_item current_tags) (filter (shown fq) all_tags))
        as [| i0 l] eqn:Hi.
      { destruct (filter (shown fq) all_tags); [congruence | discriminate]. }
      rewrite <- Hi. apply tag_item_not_placeholder.
    + destruct (map (tag_item current_tags) (filter (shown fq) all_tags)
                  ++ [CreateTag fq]) as [| i0 l] eqn:Hi.
      { exfalso. destruct (map (tag_item current_tags)
                                 (filter (shown fq) all_tags));
          discriminate Hi. }
      rewrite <- Hi. intros H. apply in_app_or in H.
      destruct H as [H | [H | []]]; [| discriminate].
      eapply tag_item_not_placeholder; eassumption.
  - intros [H | H]; [discriminate |].
    eapply tag_item_not_placeholder; eassumption.
Qed.

Lemma Forall_drop_while (P : ascii -> Prop) (p : ascii -> bool)
      (l : list ascii) :
  Forall P l -> Forall P (drop_while p l).
Proof.
  induction 1 as [| c l Hc Hl IH]; simpl; [constructor |].
  destruct (p c); [exact IH | now constructor].
Qed.

Lemma Forall_strip_chars (P : ascii -> Prop) (l : list ascii) :
  Forall P l -> Forall P (strip_chars l).
Proof.
  intros H. unfold strip_chars.
  apply Forall_rev, Forall_drop_while, Forall_rev, Forall_drop_while, H.
Qed.

Lemma lower_fixed (l : list ascii) :
  Forall (fun c => lower_char c = c) l -> map lower_char l = l.
Proof.
  induction 1 as [| c l Hc Hl IH]; simpl; [reflexivity |].
  now rewrite Hc, IH.
Qed.

Lemma lower_strip_lower (s : string) :
  lower (strip (lower s)) = strip (lower s).
Proof.
  unfold lower at 1, strip. rewrite PyFacts.chars_str. f_equal.
  apply lower_fixed, Forall_strip_chars.
  unfold lower. rewrite PyFacts.chars_str.
  apply Forall_forall. intros c Hc. apply in_map_iff in Hc.
  destruct Hc as (x & <- & _).
  destruct x as [[] [] [] [] [] [] [] []]; reflexivity.
Qed.

Lemma occurrences_pos (tag : string) (a : album) (albums : list album) :
  In a albums -> In tag (tags_of a) -> (0 < occurrences tag albums)%nat.
Proof.
  induction albums as [| b albums IH]; simpl; [tauto |].
  intros [-> | Hin] Ht.
  - apply (count_occ_In string_dec) in Ht. lia.
  - specialize (IH Hin Ht). lia.
Qed.

(** X27. Whatever entry of the tag menu is chosen, [toggle_tag.py] carries
    out the request of that entry: it reports the tag as added or as
    removed, never as already existing or as not found, when the menu was
    built for the tags that the album carries in the store and the tag of
    the request is not empty. *)
Theorem menu_choices_are_applied (u filter_query tag action : string)
        (d : disk) (a : album) (i : item) :
  truthy u = true ->
  find (has_url u) (read_database d) = Some a ->
  In i (main (tags_of a) filter_query d) ->
  request i = Some (tag, action) ->
  truthy tag = true ->
  ToggleTag.applied (fst (ToggleTag.main u tag action d)) = true.
Proof.
  intros Hu Hfind Hin Hreq Htag.
  destruct (ToggleMoreFacts.find_split Hfind)
    as (pre & post & Hr & Hpre & Hua).
  unfold read_database in Hr.
  rewrite (@ToggleMoreFacts.main_found u tag action d pre post a
             Hu Htag Hr Hpre Hua). cbn [fst].
  assert (Hcases : (action = "remove"
                    /\ Search.in_list tag (tags_of a) = true)
                   \/ (action = "add"
                       /\ Search.in_list tag (tags_of a) = false)).
  { revert Hin. unfold main. cbv zeta.
    set (fq := strip (lower filter_query)).
    set (all_tags := get_all_tags (read_database d)).
    set (shown_items := map (tag_item (tags_of a))
                            (filter (shown fq) all_tags)).
    assert (Hitem : In i shown_items ->
                    (action = "remove"
                     /\ Search.in_list tag (tags_of a) = true)
                    \/ (action = "add"
                        /\ Search.in_list tag (tags_of a) = false)).
    { intros H. apply in_map_iff in H. destruct H as ([t n] & <- & _).
      simpl in Hreq.
      destruct (Search.in_list t (tags_of a)) eqn:E;
        inversion Hreq; subst; auto. }
    assert (Hcreate : truthy fq = true ->
                      Search.in_list
                        fq (map (fun entry => lower (fst entry)) all_tags)
                      = false ->
                      i = CreateTag fq ->
                      (action = "remove"
                       /\ Search.in_list tag (tags_of a) = true)
                      \/ (action = "add"
                          /\ Search.in_list tag (tags_of a) = false)).
    { intros Hfq Hno ->. simpl in Hreq.
      assert (Etag : tag = fq) by congruence.
      assert (Eact : action = "add") by congruence.
      clear Hreq. right. split; [exact Eact |].
      apply ToggleMoreFacts.in_list_false. intros Hcarried.
      assert (Hina : In a (read_database d)).
      { unfold read_database. rewrite Hr. apply in_or_app. right. now left. }
      pose proof (occurrences_pos Hina Hcarried) as Hpos.
      destruct (TagFacts.menu_entries (read_database d)) as (_ & Hc).
      assert (Hentry : In (tag, occurrences tag (read_database d)) all_tags)
        by (apply Hc; auto).
      pose proof (in_list_map_lower Hentry) as Hl.
      rewrite Etag in Hl. unfold fq in Hl at 1.
      rewrite lower_strip_lower in Hl. fold fq in Hl. congruence. }
    destruct (truthy fq) eqn:Hfq; cbn [negb app].
    - destruct (Search.in_list fq _) eqn:Hex; cbn [negb].
      + destruct shown_items as [| i0 l0] eqn:Hs.
        * intros [H | []]. subst i. discriminate.
        * exact Hitem.
      + destruct (shown_items ++ [CreateTag fq]) as [| i0 l0] eqn:Hs.
        * intros [H | []]. subst i. discriminate.
        * rewrite <- Hs. intros H. apply in_app_or in H.
          destruct H as [H | [H | []]]; [now apply Hitem |].
          now apply Hcreate.
    - intros [H | H]; [subst i; discriminate | now apply Hitem]. }
  destruct Hcases as [[-> Hc] | [-> Hc]].
  - rewrite ToggleMoreFacts.toggle_remove, Hc. reflexivity.
  - rewrite ToggleMoreFacts.toggle_add, Hc. reflexivity.
Qed.

End MenuFacts.

Module StatsFacts.
Import Store AlbumStats.

Lemma ids_where_snoc (p : album -> bool) (albums : list album) (a : album) :
  ids_where p (albums ++ [a])
  = ids_where p albums
    ++ (if identified a && p a
        then [Search.get_or_empty (album_id a)] else []).
Proof.
  unfold ids_where. rewrite filter_app, map_app. simpl.
  destruct (identified a && p a); reflexivity.
Qed.

(** The lists after the loop has run over [albums]. *)
Lemma collect_lists (albums : list album) :
  collect albums
  = mkStats
      (ids_where (fun _ => true) albums)
      (ids_where (fun a => negb (is_missing_item_count a)
                           && negb (is_missing_date a)) albums)
      (ids_where (fun a => is_missing_item_count a || is_missing_date a)
                 albums)
      (ids_where is_missing_item_count albums)
      (ids_where is_missing_date albums)
      (ids_where (fun a => is_missing_item_count a && is_missing_date a)
                 albums)
      (ids_where has_tags albums)
      (ids_where (fun a => negb (has_tags a)) albums).
Proof.
  unfold collect. rewrite <- (rev_involutive albums).
  induction (rev albums) as [| a l IH]; [reflexivity |].
  simpl rev. rewrite fold_left_app. simpl fold_left. rewrite IH.
  rewrite !ids_where_snoc. unfold classify, identified. cbv zeta.
  destruct (PyStr.truthy (Search.get_or_empty (album_id a))); cbn [negb andb].
  2:{ now rewrite !app_nil_r. }
  destruct (is_missing_item_count a), (is_missing_date a), (has_tags a);
    cbn; rewrite ?app_nil_r; reflexivity.
Qed.

Lemma ids_where_length (p : album -> bool) (albums : list album) :
  List.length (ids_where p albums)
  = List.length (filter (fun a => identified a && p a) albums).
Proof. unfold ids_where. apply length_map. Qed.

Lemma count_split (p q : album -> bool) (albums : list album) :
  (List.length (filter (fun a => identified a && p a) albums)
   = List.length (filter (fun a => identified a && (p a && q a)) albums)
     + List.length (filter (fun a => identified a && (p a && negb (q a)))
                           albums))%nat.
Proof.
  induction albums as [| a albums IH]; simpl; [reflexivity |].
  destruct (identified a), (p a), (q a); simpl; lia.
Qed.

Lemma filter_ext_length (p q : album -> bool) (albums : list album) :
  (forall a, p a = q a) ->
  List.length (filter p albums) = List.length (filter q albums).
Proof. intros H. now rewrite (filter_ext _ _ H). Qed.

(** X28. Each list of [list_album_stats.py] holds, in the order of the
    store, the ids of the albums with an id that pass its test; the
    complete and the incomplete albums together are all of them, as are
    the tagged and the untagged ones, and the albums missing both count
    and date are counted once among the incomplete ones. *)
Theorem stats_lists_partition_the_albums (albums : list album) :
  let st := collect albums in
  all_ids st = ids_where (fun _ => true) albums
  /\ complete_ids st
     = ids_where (fun a => negb (is_missing_item_count a)
                           && negb (is_missing_date a)) albums
  /\ incomplete_ids st
     = ids_where (fun a => is_missing_item_count a || is_missing_date a)
                 albums
  /\ missing_count_ids st = ids_where is_missing_item_count albums
  /\ missing_date_ids st = ids_where is_missing_date albums
  /\ missing_both_ids st
     = ids_where (fun a => is_missing_item_count a && is_missing_date a)
                 albums
  /\ with_tags_ids st = ids_where has_tags albums
  /\ without_tags_ids st = ids_where (fun a => negb (has_tags a)) albums
  /\ (List.length (all_ids st)
      = List.length (complete_ids st) + List.length (incomplete_ids st))%nat
  /\ (List.length (all_ids st)
      = List.length (with_tags_ids st)
        + List.length (without_tags_ids st))%nat
  /\ (List.length (incomplete_ids st) + List.length (missing_both_ids st)
      = List.length (missing_count_ids st)
        + List.length (missing_date_ids st))%nat.
Proof.
  cbv zeta. rewrite collect_lists. cbn [all_ids complete_ids incomplete_ids
    missing_count_ids missing_date_ids missing_both_ids with_tags_ids
    without_tags_ids].
  repeat (split; [reflexivity |]).
  rewrite !ids_where_length.
  induction albums as [| a albums IH]; simpl; [auto |].
  destruct IH as (IH1 & IH2 & IH3).
  destruct (identified a), (is_missing_item_count a), (is_missing_date a),
    (has_tags a); simpl; repeat split; lia.
Qed.

Lemma py_eq_zero_int (E : env) (e : pyval) :
  PyVal.py_eq e (PInt 0) = true -> PyVal.py_int E e = PyVal.IntOk 0.
Proof.
  destruct e as [| b | z | f | s | l | fields]; try discriminate.
  - destruct b; [discriminate | reflexivity].
  - rewrite MergeFacts.py_eq_int_zero. intros H. apply Z.eqb_eq in H.
    now subst.
  - destruct f as [| neg | neg m ex]; try discriminate.
    cbn [PyVal.py_eq PyVal.as_number PyVal.num_eq PyVal.py_int
         PyVal.int_of_float].
    intros H. apply Z.eqb_eq in H. rewrite Z.mul_0_l in H.
    assert (Hpow : 0 < 2 ^ (ex - Z.min ex 0))
      by (apply Z.pow_pos_nonneg; lia).
    assert (Hm : m = 0%N).
    { destruct neg; nia. }
    subst m. destruct (0 <=? ex); destruct neg; reflexivity.
Qed.

(** X29. An album that [list_album_stats.py] counts as missing its item
    count takes the count of a scraped album on ingest, whenever that
    count converts to an integer other than zero. *)
Theorem missing_count_is_filled_by_ingest (E : env) (album : album) (new : pyval)
        (n : Z) :
  is_missing_item_count album = true ->
  PyVal.py_int E new = PyVal.IntOk n ->
  n <> 0 ->
  Ingest.update_item_count E album new
  = Ok (set_itemCount album (PInt n), true).
Proof.
  unfold is_missing_item_count. intros Hmiss Hnew Hn.
  assert (Hnn : PyVal.is_none new = false).
  { destruct new; try reflexivity. discriminate. }
  assert (Hco : Ingest.coerce_counts E new (itemCount album)
                = Ok (PInt n, if PyVal.is_none (itemCount album)
                              then PNone else PInt 0)).
  { destruct (itemCount album) as [| b | z | f | s | l | fields];
      cbn [PyVal.is_none orb] in Hmiss |- *;
      [unfold Ingest.coerce_counts; now rewrite Hnew | ..];
      pose proof (py_eq_zero_int E Hmiss) as Hz;
      unfold Ingest.coerce_counts; rewrite Hnew, Hz; reflexivity. }
  unfold Ingest.update_item_count. rewrite Hnn, Hco. cbn [bind].
  apply Z.eqb_neq in Hn.
  destruct (PyVal.is_none (itemCount album)); simpl.
  - reflexivity.
  - unfold PyVal.py_ne. rewrite (MergeFacts.py_eq_ints 0 n).
    rewrite Z.eqb_sym, Hn. reflexivity.
Qed.

End StatsFacts.

Module NormalFormFacts.
Import Store PyStr Search.

Lemma lower_char_again (c : ascii) : lower_char (lower_char c) = lower_char c.
Proof. destruct c as [[] [] [] [] [] [] [] []]; reflexivity. Qed.

Lemma isspace_lower (c : ascii) : isspace (lower_char c) = isspace c.
Proof. destruct c as [[] [] [] [] [] [] [] []]; reflexivity. Qed.

Lemma is_separator_lower (c : ascii) :
  is_separator (lower_char c) = is_separator c.
Proof. destruct c as [[] [] [] [] [] [] [] []]; reflexivity. Qed.

Lemma drop_while_split (p : ascii -> bool) (l : list ascii) :
  exists z, l = z ++ drop_while p l.
Proof.
  induction l as [| c l IH]; simpl; [now exists [] |].
  destruct (p c); [| now exists []].
  destruct IH as (z & Hz). exists (c :: z). simpl. now rewrite <- Hz.
Qed.

Lemma drop_while_head (p : ascii -> bool) (l r : list ascii) (c : ascii) :
  drop_while p l = c :: r -> p c = false.
Proof.
  induction l as [| x l IH]; simpl; [discriminate |].
  destruct (p x) eqn:Hx; [exact IH |].
  intros H. inversion H; subst. exact Hx.
Qed.

(** [strip] keeps a part of the text that neither starts nor ends with
    whitespace. *)
Lemma strip_chars_part (l : list ascii) :
  (exists z1 z2, l = z1 ++ strip_chars l ++ z2)
  /\ (forall c r, strip_chars l = c :: r -> isspace c = false)
  /\ (forall c r, rev (strip_chars l) = c :: r -> isspace c = false).
Proof.
  unfold strip_chars.
  destruct (drop_while_split isspace l) as (z1 & H1).
  set (y := drop_while isspace l) in *.
  destruct (drop_while_split isspace (rev y)) as (z2 & H2).
  set (x := drop_while isspace (rev y)) in *.
  assert (Hy : y = rev x ++ rev z2).
  { rewrite <- rev_app_distr, <- H2. now rewrite rev_involutive. }
  split; [| split].
  - exists z1, (rev z2). now rewrite <- Hy.
  - intros c r E.
    assert (Hyc : exists r', y = c :: r').
    { rewrite Hy, E. simpl. eauto. }
    destruct Hyc as (r' & Hyc).
    eapply drop_while_head. exact Hyc.
  - rewrite rev_involutive. intros c r E.
    eapply drop_while_head. exact E.
Qed.

Lemma no_double_part (z1 m z2 : list ascii) :
  no_double_space (z1 ++ m ++ z2) -> no_double_space m.
Proof.
  intros H pre c1 c2 post E. apply (H (z1 ++ pre) c1 c2 (post ++ z2)).
  rewrite E. rewrite <- !app_assoc. reflexivity.
Qed.

Lemma no_double_cons (c : ascii) (r : list ascii) :
  no_double_space r ->
  (forall c2 r2, r = c2 :: r2 -> isspace c = true -> isspace c2 = true ->
                 False) ->
  no_double_space (c :: r).
Proof.
  intros Hr Hc pre c1 c2 post E.
  destruct pre as [| p pre]; simpl in E; inversion E; subst.
  - apply (Hc c2 post eq_refl).
  - apply (Hr pre c1 c2 post eq_refl).
Qed.

Lemma no_double_nil : no_double_space [].
Proof. intros [| p pre] c1 c2 post E0; discriminate. Qed.

Lemma no_double_tail (c : ascii) (r : list ascii) :
  no_double_space (c :: r) -> no_double_space r.
Proof.
  intros H pre c1 c2 post E0. apply (H (c :: pre) c1 c2 post).
  simpl. now rewrite E0.
Qed.

Lemma no_double_map_lower (l : list ascii) :
  no_double_space l -> no_double_space (map lower_char l).
Proof.
  induction l as [| c l IH]; intros H; [apply no_double_nil |].
  simpl. apply no_double_cons.
  - apply IH. eapply no_double_tail; eassumption.
  - intros c2 r2 E. destruct l as [| x l]; [discriminate |].
    simpl in E. inversion E; subst. rewrite !isspace_lower.
    apply (H [] c x l eq_refl).
Qed.

(** What [re.sub(r'\s+', ' ', text)] returns. *)
Lemma collapse_spaces_spec (l : list ascii) (in_run : bool) :
  Forall (fun c => is_separator c = false) l ->
  Forall (fun c => is_separator c = false
                   /\ (isspace c = true -> c = " "%char))
         (collapse_spaces in_run l)
  /\ no_double_space (collapse_spaces in_run l)
  /\ (in_run = true ->
      forall c r, collapse_spaces in_run l = c :: r -> isspace c = false).
Proof.
  intros Hl. revert in_run.
  induction Hl as [| c l Hc Hl IH]; intros in_run; simpl.
  - split; [constructor |]. split; [apply no_double_nil | discriminate].
  - destruct (isspace c) eqn:Hs.
    + destruct (IH true) as (H1 & H2 & H3). destruct in_run.
      * split; [exact H1 |]. split; [exact H2 |]. intros _. now apply H3.
      * split; [constructor; [split; [reflexivity | auto] | exact H1] |].
        split; [| discriminate].
        apply no_double_cons; [exact H2 |].
        intros c2 r2 E _ Hc2. rewrite (H3 eq_refl c2 r2 E) in Hc2.
        discriminate.
    + destruct (IH false) as (H1 & H2 & _).
      split; [constructor; [split; [exact Hc | congruence] | exact H1] |].
      split.
      * apply no_double_cons; [exact H2 |]. intros c2 r2 _ Hc1.
        congruence.
      * intros _ c0 r0 E. inversion E; subst. exact Hs.
Qed.

Lemma collapse_spaces_normal (l : list ascii) (in_run : bool) :
  Forall (fun c => isspace c = true -> c = " "%char) l ->
  no_double_space l ->
  (in_run = true -> forall c r, l = c :: r -> isspace c = false) ->
  collapse_spaces in_run l = l.
Proof.
  intros Hl. revert in_run.
  induction Hl as [| c l Hc Hl IH]; intros in_run Hnd Hrun; simpl;
    [reflexivity |].
  destruct (isspace c) eqn:Hs.
  - destruct in_run.
    + rewrite (Hrun eq_refl c l eq_refl) in Hs. discriminate.
    + rewrite (Hc eq_refl) in *. f_equal. apply IH.
      * eapply no_double_tail; eassumption.
      * intros _ c2 r2 E. subst l.
        destruct (isspace c2) eqn:Hs2; [| reflexivity].
        exfalso. apply (Hnd [] " "%char c2 r2 eq_refl); auto.
  - f_equal. apply IH.
    + eapply no_double_tail; eassumption.
    + discriminate.
Qed.

Lemma map_fixed (f : ascii -> ascii) (l : list ascii) :
  Forall (fun c => f c = c) l -> map f l = l.
Proof.
  induction 1 as [| c l Hc Hl IH]; simpl; [reflexivity |].
  now rewrite Hc, IH.
Qed.

Lemma normalized_chars (text : string) :
  truthy text = true ->
  chars (normalize_text text)
  = strip_chars
      (map lower_char
           (collapse_spaces
              false
              (map (fun c => if is_separator c then " "%char else c)
                   (chars text)))).
Proof.
  intros H. unfold normalize_text. rewrite H. cbn [negb].
  unfold strip, lower. now rewrite !PyFacts.chars_str.
Qed.

Lemma normalize_text_is_normal (text : string) : normal (normalize_text text).
Proof.
  destruct (truthy text) eqn:Ht.
  2:{ unfold normalize_text. rewrite Ht. simpl. unfold normal. simpl.
      split; [constructor |]. split; [apply no_double_nil |].
      split; discriminate. }
  unfold normal. cbv zeta. rewrite (normalized_chars Ht).
  set (l1 := map (fun c => if is_separator c then " "%char else c)
                 (chars text)).
  assert (H1 : Forall (fun c => is_separator c = false) l1).
  { apply Forall_forall. intros c Hc. apply in_map_iff in Hc.
    destruct Hc as (x & <- & _).
    destruct (is_separator x) eqn:Hx; [reflexivity | exact Hx]. }
  destruct (collapse_spaces_spec false H1) as (H2 & H3 & _).
  set (l2 := collapse_spaces false l1) in *.
  set (l3 := map lower_char l2).
  assert (H4 : Forall (fun c => is_separator c = false /\ lower_char c = c
                                /\ (isspace c = true -> c = " "%char)) l3).
  { apply Forall_forall. intros c Hc. apply in_map_iff in Hc.
    destruct Hc as (x & <- & Hx).
    rewrite Forall_forall in H2. destruct (H2 x Hx) as [Hsep Hsp].
    rewrite is_separator_lower, lower_char_again, isspace_lower.
    split; [exact Hsep |]. split; [reflexivity |].
    intros Hs. now rewrite (Hsp Hs). }
  pose proof (no_double_map_lower H3) as H5. fold l3 in H5.
  destruct (strip_chars_part l3) as ((z1 & z2 & Hz) & Hhead & Hlast).
  split; [| split; [| split]].
  - rewrite Hz in H4. apply Forall_app in H4. destruct H4 as [_ H4].
    apply Forall_app in H4. now destruct H4.
  - rewrite Hz in H5. eapply no_double_part; eassumption.
  - exact Hhead.
  - exact Hlast.
Qed.

Lemma normal_is_fixed (text : string) :
  normal text -> normalize_text text = text.
Proof.
  intros (Hall & Hnd & Hhead & Hlast).
  destruct (truthy text) eqn:Ht.
  2:{ unfold normalize_text. rewrite Ht. destruct text; [reflexivity |].
      discriminate. }
  rewrite <- (DateMoreFacts.str_chars (normalize_text text)).
  rewrite (normalized_chars Ht).
  rewrite <- (DateMoreFacts.str_chars text) at 2. f_equal.
  rewrite (@map_fixed (fun c => if is_separator c then " "%char else c)).
  2:{ eapply Forall_impl; [| exact Hall]. cbv beta.
      intros c (Hs & _). now rewrite Hs. }
  rewrite collapse_spaces_normal; [| | exact Hnd | discriminate].
  2:{ eapply Forall_impl; [| exact Hall]. cbv beta. tauto. }
  rewrite map_fixed.
  2:{ eapply Forall_impl; [| exact Hall]. cbv beta. tauto. }
  now apply DateMoreFacts.strip_chars_id.
Qed.

(** X30. [normalize_text] returns a text in normal form (no separator, no
    capital, no whitespace but single blanks between two other
    characters), and leaves a text in normal form as it is; so it is
    idempotent. *)
Theorem normalize_text_gives_a_normal_form (text : string) :
  normal (normalize_text text)
  /\ normalize_text (normalize_text text) = normalize_text text
  /\ (normal text -> normalize_text text = text).
Proof.
  split; [apply normalize_text_is_normal |]. split.
  - apply normal_is_fixed, normalize_text_is_normal.
  - apply normal_is_fixed.
Qed.

End NormalFormFacts.
(** ** Instances of the properties above on the sample data *)

Module ToggleMoreWitness.
Import Store Samples ToggleTag.

Lemma toggle_add_twice_witness :
  PyStr.truthy url_b = true
  /\ PyStr.truthy "family" = true
  /\ existsb (has_url url_b) (read_database good_disk) = true
  /\ exists n1 d1 d2 a1,
      main url_b "family" "add" good_disk = (n1, d1)
      /\ (n1 = TagAdded \/ n1 = TagAlreadyExists)
      /\ find (has_url url_b) (read_database d1) = Some a1
      /\ In "family" (ListTags.tags_of a1)
      /\ main url_b "family" "add" d1 = (TagAlreadyExists, d2)
      /\ db d2 = db d1.
Proof.
  assert (H1 : PyStr.truthy url_b = true) by reflexivity.
  assert (H2 : PyStr.truthy "family" = true) by reflexivity.
  assert (H3 : existsb (has_url url_b) (read_database good_disk) = true)
    by reflexivity.
  split; [exact H1 |]. split; [exact H2 |]. split; [exact H3 |].
  exact (ToggleMoreFacts.toggle_add_twice H1 H2 H3).
Defined.

Lemma toggle_add_remove_round_trip_witness :
  PyStr.truthy url_b = true
  /\ PyStr.truthy "family" = true
  /\ find (has_url url_b) (read_database good_disk) = Some bare
  /\ ~ In "family" (ListTags.tags_of bare)
  /\ exists d1 d2,
      main url_b "family" "add" good_disk = (TagAdded, d1)
      /\ main url_b "family" "remove" d1 = (TagRemoved, d2)
      /\ read_database d2 = ensure_tags_at url_b (read_database good_disk).
Proof.
  assert (H1 : PyStr.truthy url_b = true) by reflexivity.
  assert (H2 : PyStr.truthy "family" = true) by reflexivity.
  assert (H3 : find (has_url url_b) (read_database good_disk) = Some bare)
    by reflexivity.
  assert (H4 : ~ In "family" (ListTags.tags_of bare))
    by (simpl; tauto).
  split; [exact H1 |]. split; [exact H2 |]. split; [exact H3 |].
  split; [exact H4 |].
  exact (ToggleMoreFacts.toggle_add_remove_round_trip H1 H2 H3 H4).
Defined.

Lemma toggle_keeps_tags_distinct_witness :
  Forall (fun a => NoDup (ListTags.tags_of a)) (read_database good_disk)
  /\ Forall (fun a => NoDup (ListTags.tags_of a))
            (read_database (snd (main url_a "trip" "remove" good_disk)))
  /\ (fst (main url_a "trip" "remove" good_disk) = TagRemoved ->
      exists a',
        find (has_url url_a)
             (read_database (snd (main url_a "trip" "remove" good_disk)))
        = Some a'
        /\ ~ In "trip" (ListTags.tags_of a')).
Proof.
  assert (H1 : Forall (fun a => NoDup (ListTags.tags_of a))
                      (read_database good_disk)).
  { repeat (constructor; try (simpl; tauto)). }
  split; [exact H1 |].
  exact (@ToggleMoreFacts.toggle_keeps_tags_distinct
           url_a "trip" "remove" good_disk H1).
Defined.

End ToggleMoreWitness.

Module CorruptStoreWitness.
Import Store Samples.

Lemma toggle_drops_lines_after_unparsable_witness :
  db bad_disk = Some ([Rec trip] ++ Malformed :: [Rec spring])
  /\ PyStr.truthy url_a = true
  /\ PyStr.truthy "sea" = true
  /\ existsb (has_url url_a) (fst (load [] [Rec trip])) = true
  /\ exists n albums',
      ToggleTag.main url_a "sea" "add" bad_disk
      = (n, mkDisk (Some (map Rec albums')) (S (writes bad_disk)))
      /\ map url albums' = map url (fst (load [] [Rec trip])).
Proof.
  assert (H1 : db bad_disk = Some ([Rec trip] ++ Malformed :: [Rec spring]))
    by reflexivity.
  assert (H2 : PyStr.truthy url_a = true) by reflexivity.
  assert (H3 : PyStr.truthy "sea" = true) by reflexivity.
  assert (H4 : existsb (has_url url_a) (fst (load [] [Rec trip])) = true)
    by reflexivity.
  split; [exact H1 |]. split; [exact H2 |]. split; [exact H3 |].
  split; [exact H4 |].
  exact (@CorruptStoreFacts.toggle_drops_lines_after_unparsable
           url_a "sea" "add" bad_disk [Rec trip] [Rec spring] H1 H2 H3 H4).
Defined.

Lemma unparsable_line_blocks_edits_witness :
  db bad_disk = Some [Rec trip; Malformed; Rec spring]
  /\ In Malformed [Rec trip; Malformed; Rec spring]
  /\ snd (EditFields.edit_item_count E0 "7" url_a bad_disk) = bad_disk
  /\ snd (EditDate.main url_a "2024-01-05" bad_disk) = bad_disk
  /\ snd (DeleteAlbum.main url_a bad_disk) = bad_disk.
Proof.
  assert (H1 : db bad_disk = Some [Rec trip; Malformed; Rec spring])
    by reflexivity.
  assert (H2 : In Malformed [Rec trip; Malformed; Rec spring])
    by (right; left; reflexivity).
  split; [exact H1 |]. split; [exact H2 |].
  destruct (CorruptStoreFacts.unparsable_line_blocks_edits E0 H1 H2)
    as (Hcount & _ & Hdate & Hdelete).
  split; [exact (proj1 (Hcount "7" url_a)) |].
  split; [exact (Hdate url_a "2024-01-05") |].
  exact (proj1 (Hdelete url_a)).
Defined.

End CorruptStoreWitness.

Module IngestMoreWitness.
Import Store Samples Ingest.

Lemma ingest_keeps_identity_witness :
  exists dct',
    ingested E0 (Bulk [scraped_trip; scraped_new; scraped_spring])
             sample_dict 0 = Ok dct'
    /\ dict_get url_a sample_dict = Some trip
    /\ exists a',
        dict_get url_a dct' = Some a'
        /\ same_identity trip a'
        /\ (forall batch,
               Bulk [scraped_trip; scraped_new; scraped_spring] = Bulk batch ->
               same_dates trip a').
Proof.
  destruct (ingested E0 (Bulk [scraped_trip; scraped_new; scraped_spring])
                     sample_dict 0) as [dct' |] eqn:Hd;
    [| vm_compute in Hd; discriminate].
  exists dct'. split; [first [exact Hd | reflexivity] |]. split; [reflexivity |].
  exact (@IngestMoreFacts.ingest_keeps_identity
           E0 _ sample_dict dct' 0%nat url_a trip Hd
           (eq_refl : dict_get url_a sample_dict = Some trip)).
Defined.

Lemma bulk_import_accounts_for_every_album_witness :
  exists st,
    process_bulk_albums E0 [scraped_trip; scraped_new; scraped_spring]
                        sample_dict 0 = Ok st
    /\ (List.length (unchanged_ids st) + List.length (updated_ids st)
        + List.length (added_ids st)
        = List.length (filter with_url
                              [scraped_trip; scraped_new; scraped_spring]))%nat
    /\ List.length (dict st)
       = (List.length sample_dict + List.length (added_ids st))%nat
    /\ exists new,
        map fst (dict st) = map fst sample_dict ++ new
        /\ List.length new = List.length (added_ids st).
Proof.
  destruct (process_bulk_albums E0 [scraped_trip; scraped_new; scraped_spring]
                                sample_dict 0) as [st |] eqn:Hd;
    [| vm_compute in Hd; discriminate].
  exists st. split; [first [exact Hd | reflexivity] |].
  exact (IngestMoreFacts.bulk_import_accounts_for_every_album Hd).
Defined.

Lemma ingest_writes_one_record_per_url_witness :
  exists o d' rng',
    main E0 (Bulk [scraped_trip; scraped_new; scraped_spring]) good_disk 0
    = (o, d', rng')
    /\ (created_of o <> [] \/ updated_of o <> [])
    /\ NoDup (map url (Search.read_database d'))
    /\ Forall (fun a => PyStr.truthy (url a) = true /\ album_id a <> None)
              (Search.read_database d').
Proof.
  assert (Ho : created_of
                 (fst (fst (main E0 (Bulk [scraped_trip; scraped_new;
                                           scraped_spring]) good_disk 0)))
               <> []) by (vm_compute; discriminate).
  destruct (main E0 (Bulk [scraped_trip; scraped_new; scraped_spring])
                 good_disk 0) as [[o d'] rng'] eqn:Hm.
  simpl in Ho.
  exists o, d', rng'. split; [first [exact Hm | reflexivity] |].
  split; [left; exact Ho |].
  exact (IngestStoreFacts.ingest_writes_one_record_per_url
           Hm (or_introl Ho)).
Defined.

Lemma ingest_over_unparsable_store_witness :
  exists o d' rng',
    db bad_disk = Some [Rec trip; Malformed; Rec spring]
    /\ In Malformed [Rec trip; Malformed; Rec spring]
    /\ main E0 (Single scraped_new) bad_disk 0 = (o, d', rng')
    /\ forall a, In a (Search.read_database d') ->
                 exists c, In c (offered (Single scraped_new))
                           /\ url a = PyStr.strip (c_url c).
Proof.
  assert (H1 : db bad_disk = Some [Rec trip; Malformed; Rec spring])
    by reflexivity.
  assert (H2 : In Malformed [Rec trip; Malformed; Rec spring])
    by (right; left; reflexivity).
  destruct (main E0 (Single scraped_new) bad_disk 0)
    as [[o d'] rng'] eqn:Hm.
  exists o, d', rng'. split; [exact H1 |]. split; [exact H2 |].
  split; [first [exact Hm | reflexivity] |].
  exact (IngestStoreFacts.ingest_over_unparsable_store H1 H2 Hm).
Defined.

End IngestMoreWitness.

Module EditFieldsWitness.
Import Store Samples Ingest.

Lemma edits_change_one_field_of_one_album_witness :
  exists o d',
    EditFields.edit_item_count E0 "7" url_a good_disk = (o, d')
    /\ ((o <> EditFields.Updated /\ d' = good_disk)
        \/ (o = EditFields.Updated
            /\ exists n pre a post,
                PyVal.int_of_str E0 (PyStr.strip "7") = Some n /\ 0 <= n
                /\ Search.read_database good_disk = pre ++ a :: post
                /\ existsb (has_url url_a) pre = false /\ url a = url_a
                /\ Search.read_database d'
                   = pre ++ set_itemCount a (PInt n) :: post)).
Proof.
  destruct (EditFields.edit_item_count E0 "7" url_a good_disk)
    as [o d'] eqn:He.
  exists o, d'. split; [first [exact He | reflexivity] |].
  exact (proj1 (EditFieldsFacts.edits_change_one_field_of_one_album E0)
               "7" url_a good_disk o d' He).
Defined.

Lemma corrected_count_survives_ingest_witness :
  exists d1 o d2 rng2,
    EditFields.edit_item_count E0 "7" url_c good_disk
    = (EditFields.Updated, d1)
    /\ PyVal.int_of_str E0 (PyStr.strip "7") = Some 7
    /\ 7 <> 0
    /\ NoDup (map url (Search.read_database good_disk))
    /\ main E0 (Bulk [scraped_trip; scraped_new; scraped_spring]) d1 0
       = (o, d2, rng2)
    /\ exists a, In a (Search.read_database d2)
                 /\ url a = url_c /\ itemCount a = PInt 7.
Proof.
  assert (Hfst : fst (EditFields.edit_item_count E0 "7" url_c good_disk)
                 = EditFields.Updated) by reflexivity.
  destruct (EditFields.edit_item_count E0 "7" url_c good_disk)
    as [o1 d1] eqn:He.
  simpl in Hfst. subst o1.
  assert (H2 : PyVal.int_of_str E0 (PyStr.strip "7") = Some 7) by reflexivity.
  assert (H3 : 7 <> 0) by discriminate.
  assert (H4 : NoDup (map url (Search.read_database good_disk))).
  { vm_compute. repeat constructor; simpl; intuition discriminate. }
  destruct (main E0 (Bulk [scraped_trip; scraped_new; scraped_spring]) d1 0)
    as [[o d2] rng2] eqn:Hm.
  exists d1, o, d2, rng2.
  split; [first [exact He | reflexivity] |]. split; [exact H2 |]. split; [exact H3 |].
  split; [exact H4 |]. split; [first [exact Hm | reflexivity] |].
  exact (CorrectionFacts.corrected_count_survives_ingest He H2 H3 H4 Hm).
Defined.

End EditFieldsWitness.

Module DateRepoWitness.
Import Store Samples Ingest.

Lemma created_album_has_consistent_dates_witness :
  let c := mkCandidate "https://photos.example/n" (Some "Trip") (PInt 5)
                       (Some "Mar 1, 2023") (Some "Mar 3, 2023") in
  exists o dct' rng',
    process_single_album E0 c sample_dict 0 = Ok (o, dct', rng')
    /\ PyStr.truthy (PyStr.strip (c_url c)) = true
    /\ dict_get (PyStr.strip (c_url c)) sample_dict = None
    /\ exists a',
        dict_get (PyStr.strip (c_url c)) dct' = Some a'
        /\ dateRange a' = range_of (startDate a') (endDate a')
        /\ startDate a'
           = (if Store.truthy (c_startDate c)
              then convert_date_to_storage_format E0 (c_startDate c)
              else None)
        /\ endDate a'
           = (if Store.truthy (c_endDate c)
              then convert_date_to_storage_format E0 (c_endDate c)
              else None).
Proof.
  intros c.
  destruct (process_single_album E0 c sample_dict 0)
    as [[[o dct'] rng'] |] eqn:Hs; [| vm_compute in Hs; discriminate].
  exists o, dct', rng'. split; [first [exact Hs | reflexivity] |].
  assert (H2 : PyStr.truthy (PyStr.strip (c_url c)) = true) by reflexivity.
  assert (H3 : dict_get (PyStr.strip (c_url c)) sample_dict = None)
    by reflexivity.
  split; [exact H2 |]. split; [exact H3 |].
  exact (DateRepoFacts.created_album_has_consistent_dates Hs H2 H3).
Defined.

Lemma displayed_date_normalizes_back_witness :
  PyDate.strptime_Ymd "2024-10-30" = Some (2024, 10, 30)
  /\ (strftime_pads_year E_glibc = true \/ 1000 <= 2024)
  /\ convert_date_to_storage_format
       E_glibc (Some (EditDate.format_date_for_display E_glibc "2024-10-30"))
     = Some (PyDate.strftime_Ymd E_glibc (2024, 10, 30))
  /\ PyDate.strptime_Ymd "0999-01-05" = Some (999, 1, 5)
  /\ strftime_pads_year E_glibc = false
  /\ 999 < 1000
  /\ convert_date_to_storage_format
       E_glibc (Some (EditDate.format_date_for_display E_glibc "0999-01-05"))
     = Some (EditDate.format_date_for_display E_glibc "0999-01-05").
Proof.
  assert (H1 : PyDate.strptime_Ymd "2024-10-30" = Some (2024, 10, 30))
    by reflexivity.
  assert (H2 : strftime_pads_year E_glibc = true \/ 1000 <= 2024)
    by (right; lia).
  assert (H3 : PyDate.strptime_Ymd "0999-01-05" = Some (999, 1, 5))
    by reflexivity.
  assert (H4 : strftime_pads_year E_glibc = false) by reflexivity.
  assert (H5 : 999 < 1000) by lia.
  split; [exact H1 |]. split; [exact H2 |].
  split;
    [exact (proj1 (proj1 (DateRepoFacts.displayed_date_normalizes_back
                            E_glibc H1) H2)) |].
  split; [exact H3 |]. split; [exact H4 |]. split; [exact H5 |].
  exact (proj1 (proj2 (DateRepoFacts.displayed_date_normalizes_back
                         E_glibc H3) H4 H5)).
Defined.

Lemma padded_range_accepted_iff_ordered_witness :
  PyDate.is_canonical "2025-09-01" = true
  /\ PyDate.is_canonical "2025-10-01" = true
  /\ PyDate.strptime_Ymd "2025-09-01" = Some (2025, 9, 1)
  /\ PyDate.strptime_Ymd "2025-10-01" = Some (2025, 10, 1)
  /\ (Search.date_le (2025, 9, 1) (2025, 10, 1) ->
      EditDate.parse_date_input ("2025-09-01" ++ "--" ++ "2025-10-01")
      = Some ("2025-09-01", Some "2025-10-01",
              ("2025-09-01" ++ "--" ++ "2025-10-01")%string))
  /\ (~ Search.date_le (2025, 9, 1) (2025, 10, 1) ->
      EditDate.parse_date_input ("2025-09-01" ++ "--" ++ "2025-10-01")
      = None).
Proof.
  assert (H1 : PyDate.is_canonical "2025-09-01" = true) by reflexivity.
  assert (H2 : PyDate.is_canonical "2025-10-01" = true) by reflexivity.
  assert (H3 : PyDate.strptime_Ymd "2025-09-01" = Some (2025, 9, 1))
    by reflexivity.
  assert (H4 : PyDate.strptime_Ymd "2025-10-01" = Some (2025, 10, 1))
    by reflexivity.
  split; [exact H1 |]. split; [exact H2 |]. split; [exact H3 |].
  split; [exact H4 |].
  exact (RangeFacts.padded_range_accepted_iff_ordered H1 H2 H3 H4).
Defined.

Lemma offered_edit_text_is_accepted_witness :
  startDate trip = Some "2023-03-01"
  /\ PyDate.is_canonical "2023-03-01" = true
  /\ PyDate.strptime_Ymd "2023-03-01" = Some (2023, 3, 1)
  /\ endDate trip = Some "2023-03-03"
  /\ PyDate.is_canonical "2023-03-03" = true
  /\ PyDate.strptime_Ymd "2023-03-03" = Some (2023, 3, 3)
  /\ Search.date_le (2023, 3, 1) (2023, 3, 3)
  /\ EditDate.parse_date_input (Search.date_range_edit E0 trip)
     = Some ("2023-03-01", Some "2023-03-03",
             ("2023-03-01" ++ "--" ++ "2023-03-03")%string).
Proof.
  assert (H1 : startDate trip = Some "2023-03-01") by reflexivity.
  assert (H2 : PyDate.is_canonical "2023-03-01" = true) by reflexivity.
  assert (H3 : PyDate.strptime_Ymd "2023-03-01" = Some (2023, 3, 1))
    by reflexivity.
  assert (H4 : endDate trip = Some "2023-03-03") by reflexivity.
  assert (H5 : PyDate.is_canonical "2023-03-03" = true) by reflexivity.
  assert (H6 : PyDate.strptime_Ymd "2023-03-03" = Some (2023, 3, 3))
    by reflexivity.
  assert (H7 : Search.date_le (2023, 3, 1) (2023, 3, 3))
    by (simpl; lia).
  repeat (split; [assumption |]).
  exact (proj2 (RangeFacts.offered_edit_text_is_accepted E0 H1 H2 H3)
               "2023-03-03" (2023, 3, 3) H4 H5 H6 H7).
Defined.

Lemma edit_date_sets_consistent_dates_witness :
  exists o d',
    EditDate.main url_a "2024-01-05" good_disk = (o, d')
    /\ ((d' = good_disk /\ forall s e r, o <> EditDate.DateUpdated s e r)
        \/ exists s e r pre a post,
            o = EditDate.DateUpdated s e r
            /\ EditDate.parse_date_input "2024-01-05" = Some (s, e, r)
            /\ EditDate.read_database good_disk = pre ++ a :: post
            /\ existsb (has_url url_a) pre = false /\ url a = url_a
            /\ EditDate.read_database d'
               = pre ++ mkAlbum (album_id a) (url a) (title a) (tags a)
                                (itemCount a) (Some r) (Some s) e :: post
            /\ Some r = range_of (Some s) e).
Proof.
  destruct (EditDate.main url_a "2024-01-05" good_disk) as [o d'] eqn:Hm.
  exists o, d'. split; [first [exact Hm | reflexivity] |].
  exact (EditDateMoreFacts.edit_date_sets_consistent_dates Hm).
Defined.

Lemma canonical_dates_are_read_back_witness :
  PyDate.is_canonical "2024-05-17" = true
  /\ PyDate.strptime_Ymd "2024-05-17" = Some (2024, 5, 17)
  /\ Search.parse_date_for_sorting E0 "2024-05-17" = (2024, 5, 17)
  /\ Search.extract_year_from_date E0 "2024-05-17" = Some 2024.
Proof.
  assert (H1 : PyDate.is_canonical "2024-05-17" = true) by reflexivity.
  assert (H2 : PyDate.strptime_Ymd "2024-05-17" = Some (2024, 5, 17))
    by reflexivity.
  split; [exact H1 |]. split; [exact H2 |].
  exact (StoredDateFacts.canonical_dates_are_read_back E0 H1 H2).
Defined.

End DateRepoWitness.

Module SearchTextWitness.
Import Store Samples Search.

Lemma year_terms_are_taken_out_of_the_query_witness :
  PyStr.truthy "beach y:2023 trip" = true
  /\ parse_search_filters "beach y:2023 trip"
     = (match rev (filter is_year_term (PyStr.split_ws "beach y:2023 trip"))
        with
        | t :: _ => year_range_of t
        | [] => None
        end,
        PyStr.join " " (filter (fun t => negb (is_year_term t))
                               (PyStr.split_ws "beach y:2023 trip"))).
Proof.
  assert (H1 : PyStr.truthy "beach y:2023 trip" = true) by reflexivity.
  split; [exact H1 |].
  exact (SearchTextFacts.year_terms_are_taken_out_of_the_query H1).
Defined.

Lemma id_list_round_trip_witness :
  ["id-a"; "id-c"] <> []
  /\ Forall (fun i => plain_id i = true) ["id-a"; "id-c"]
  /\ parse_id_set (PyStr.strip (PyStr.join "," ["id-a"; "id-c"]))
     = Some ["id-a"; "id-c"].
Proof.
  assert (H1 : ["id-a"; "id-c"] <> []) by discriminate.
  assert (H2 : Forall (fun i => plain_id i = true) ["id-a"; "id-c"])
    by (repeat constructor).
  split; [exact H1 |]. split; [exact H2 |].
  exact (proj2 IdListFacts.id_list_round_trip ["id-a"; "id-c"] H1 H2).
Defined.

End SearchTextWitness.

Module MenuWitness.
Import Store Samples TagMenu.

Lemma menu_never_shows_no_tags_found_witness :
  In Header (main ["trip"] "" good_disk) /\ Header <> NoTagsFound.
Proof.
  assert (H1 : In Header (main ["trip"] "" good_disk))
    by (left; reflexivity).
  split; [exact H1 |].
  exact (MenuFacts.menu_never_shows_no_tags_found H1).
Defined.

Lemma menu_choices_are_applied_witness :
  PyStr.truthy url_a = true
  /\ find (has_url url_a) (read_database good_disk) = Some trip
  /\ In (TagItem "trip" 1 "remove")
        (main (ListTags.tags_of trip) "" good_disk)
  /\ request (TagItem "trip" 1 "remove") = Some ("trip", "remove")
  /\ PyStr.truthy "trip" = true
  /\ ToggleTag.applied
       (fst (ToggleTag.main url_a "trip" "remove" good_disk)) = true.
Proof.
  assert (H1 : PyStr.truthy url_a = true) by reflexivity.
  assert (H2 : find (has_url url_a) (read_database good_disk) = Some trip)
    by reflexivity.
  assert (H3 : In (TagItem "trip" 1 "remove")
                  (main (ListTags.tags_of trip) "" good_disk))
    by (right; left; reflexivity).
  assert (H4 : request (TagItem "trip" 1 "remove") = Some ("trip", "remove"))
    by reflexivity.
  assert (H5 : PyStr.truthy "trip" = true) by reflexivity.
  repeat (split; [assumption |]).
  exact (MenuFacts.menu_choices_are_applied H1 H2 H3 H4 H5).
Defined.

End MenuWitness.

Module StatsWitness.
Import Store Samples AlbumStats.

Lemma missing_count_is_filled_by_ingest_witness :
  is_missing_item_count spring = true
  /\ PyVal.py_int E0 (PStr "12") = PyVal.IntOk 12
  /\ 12 <> 0
  /\ Ingest.update_item_count E0 spring (PStr "12")
     = Ok (set_itemCount spring (PInt 12), true).
Proof.
  assert (H1 : is_missing_item_count spring = true) by reflexivity.
  assert (H2 : PyVal.py_int E0 (PStr "12") = PyVal.IntOk 12) by reflexivity.
  assert (H3 : 12 <> 0) by discriminate.
  split; [exact H1 |]. split; [exact H2 |]. split; [exact H3 |].
  exact (StatsFacts.missing_count_is_filled_by_ingest H1 H2 H3).
Defined.

End StatsWitness.
